(** * osuT5: the ORS dataset pipeline ([osuT5/dataset/ors_dataset.py])

    A shallow embedding of the windowing, time-normalisation, token-packing
    and interleaving code, with the properties of its specification.

    Conventions of the embedding:
    - Python [int]s are [Z]; list positions that were range-checked are [nat].
    - Python / NumPy floats are IEEE binary64, here Rocq's primitive [float].
    - A raised exception is [None] in the [option] monad ([x ← e; k]).
    - 1-D tensors are lists; [torch.long] ids are [Z] (ids and offsets are
      assumed to fit in 64 bits; the one sum on them, [id + offset] of the
      jitter, wraps around as 64-bit two's complement).
    - A Python [int] that meets a float is converted, which raises
      [OverflowError] beyond the doubles; NumPy's own [int64] indices and
      literals are cast without an error.
    - Calls to [random] take their outcome from an explicit argument. *)

From Stdlib Require Import ZArith Lia.
From Stdlib Require PrimFloat SpecFloat FloatOps FloatAxioms.
From stdpp Require Import base option list.

Local Open Scope Z_scope.

(** ** IEEE binary64 as Python uses it *)

Module Float64.

Abbreviation float := PrimFloat.float.

(** The double nearest to an integer, ties to even, an infinity beyond the
    range: a literal, or NumPy's cast of an [int64]. *)
Definition nearest (z : Z) : float :=
  FloatOps.SF2Prim (SpecFloat.binary_normalize FloatOps.prec FloatOps.emax z 0 false).

(** The conversion of a Python [int] that meets a float: the nearest
    double, ties to even; [OverflowError] when that is beyond the range. *)
Definition of_int (z : Z) : option float :=
  match SpecFloat.binary_normalize FloatOps.prec FloatOps.emax z 0 false with
  | SpecFloat.S754_infinity _ => None
  | sf => Some (FloatOps.SF2Prim sf)
  end.

(** An integer as an exact (not normalised) spec float. *)
Definition spec_of_int (z : Z) : SpecFloat.spec_float :=
  match z with
  | Z0 => SpecFloat.S754_zero false
  | Zpos p => SpecFloat.S754_finite false p 0
  | Zneg p => SpecFloat.S754_finite true p 0
  end.

(** [a / b] for two Python [int]s: the double nearest to the exact
    quotient; [ZeroDivisionError] on a zero divisor and [OverflowError]
    when the quotient is beyond the range. *)
Definition int_truediv (a b : Z) : option float :=
  if b =? 0 then None
  else
    match SpecFloat.SFdiv FloatOps.prec FloatOps.emax (spec_of_int a) (spec_of_int b) with
    | SpecFloat.S754_infinity _ => None
    | sf => Some (FloatOps.SF2Prim sf)
    end.

(** [.to(torch.float32)] on a double: the nearest binary32 value, ties to
    even, an infinity beyond the binary32 range (kept here as the double
    of the same value). *)
Definition to_float32 (x : float) : float :=
  match FloatOps.Prim2SF x with
  | SpecFloat.S754_finite s m e => FloatOps.SF2Prim (SpecFloat.binary_round 24 128 s m e)
  | _ => x
  end.

(** The magnitude of a finite spec float [m * 2^e], truncated. *)
Definition trunc_mag (m : positive) (e : Z) : Z :=
  match e with
  | Z0 => Zpos m
  | Zpos p => Zpos m * 2 ^ Zpos p
  | Zneg p => Zpos m / 2 ^ Zpos p
  end.

(** [int(x)] for a float: truncation toward zero; [OverflowError] on an
    infinity and [ValueError] on a NaN. *)
Definition to_int (x : float) : option Z :=
  match FloatOps.Prim2SF x with
  | SpecFloat.S754_zero _ => Some 0
  | SpecFloat.S754_finite s m e =>
      Some (if s then - trunc_mag m e else trunc_mag m e)
  | _ => None
  end.

(** [round(x)] for a float: the nearest integer, ties to even. Only the
    specification's wording uses it; the code never calls [round]. *)
Definition round_mag (m : positive) (e : Z) : Z :=
  match e with
  | Z0 => Zpos m
  | Zpos p => Zpos m * 2 ^ Zpos p
  | Zneg p =>
      let d := 2 ^ Zpos p in
      let q := Zpos m / d in
      let r := Zpos m mod d in
      if 2 * r <? d then q
      else if d <? 2 * r then q + 1
      else if Z.even q then q else q + 1
  end.

Definition round (x : float) : option Z :=
  match FloatOps.Prim2SF x with
  | SpecFloat.S754_zero _ => Some 0
  | SpecFloat.S754_finite s m e =>
      Some (if s then - round_mag m e else round_mag m e)
  | _ => None
  end.

Definition zero : float := nearest 0.
Definition one : float := nearest 1.
Definition neg_infinity : float := PrimFloat.neg_infinity.

End Float64.

Abbreviation float := Float64.float.

(** ** Module constants *)

Definition MILISECONDS_PER_SECOND : Z := 1000.
(** The literal [0.1]: the double nearest to one tenth. *)
Definition STEPS_PER_MILLISECOND : float :=
  PrimFloat.div (Float64.nearest 1) (Float64.nearest 10).
Definition LABEL_IGNORE_ID : Z := -100.

(** ** Python sequence operations *)

Module Py.

(** A slice bound as [list.__getitem__] normalises it: a negative bound
    counts from the end, and the result is clamped to [0, len]. *)
Definition clamp_index (len i : Z) : Z :=
  if i <? 0 then Z.max (i + len) 0 else Z.min i len.

(** [l[a:b]] *)
Definition slice {A} (l : list A) (a b : Z) : list A :=
  let len := Z.of_nat (length l) in
  let lo := clamp_index len a in
  let hi := clamp_index len b in
  take (Z.to_nat (hi - lo)) (drop (Z.to_nat lo) l).

(** [l[a:]] *)
Definition slice_from {A} (l : list A) (a : Z) : list A :=
  slice l a (Z.of_nat (length l)).

(** [l[:b]] *)
Definition slice_to {A} (l : list A) (b : Z) : list A :=
  slice l 0 b.

(** [l[i]]: a negative index counts from the end; [IndexError] out of range. *)
Definition index_of (len i : Z) : option nat :=
  let j := if i <? 0 then i + len else i in
  if (0 <=? j) && (j <? len) then Some (Z.to_nat j) else None.

Definition getitem {A} (l : list A) (i : Z) : option A :=
  j ← index_of (Z.of_nat (length l)) i; l !! j.

(** [l[i] = x] *)
Definition setitem {A} (l : list A) (i : Z) (x : A) : option (list A) :=
  j ← index_of (Z.of_nat (length l)) i; Some (<[j := x]> l).

End Py.

(** ** Events *)

(** Modelled from the spec: [EventType] and [Event] are declared in
    [osuT5.tokenizer], which only this module's import names. The enumeration
    has the time shift, the four curve anchors and further members that this
    module never distinguishes; an event is a [{type, value}] pair whose value
    is an integer (for a time shift, the absolute time in milliseconds). *)
Inductive EventType :=
  | TIME_SHIFT
  | BEZIER_ANCHOR
  | PERFECT_ANCHOR
  | CATMULL_ANCHOR
  | RED_ANCHOR
  | OTHER_TYPE (tag : nat).

Record Event := mkEvent { type : EventType; value : Z }.

#[global] Instance EventType_eq_dec : EqDecision EventType.
Proof. solve_decision. Defined.

#[global] Instance Event_eq_dec : EqDecision Event.
Proof. solve_decision. Defined.

Definition is_time_shift (e : Event) : bool :=
  bool_decide (type e = TIME_SHIFT).

(** [event.type in [BEZIER_ANCHOR, PERFECT_ANCHOR, CATMULL_ANCHOR, RED_ANCHOR]] *)
Definition is_anchor (e : Event) : bool :=
  bool_decide (type e ∈ [BEZIER_ANCHOR; PERFECT_ANCHOR; CATMULL_ANCHOR; RED_ANCHOR]).

(** ** [_trim_time_shifts]: the inner [process] *)

Module TimeNormalizer.

(** [int((event.value - start_time) * STEPS_PER_MILLISECOND)]: the value
    is an [int] and the start time a NumPy double, so the subtraction
    converts the value first. *)
Definition steps (start_time : float) (v : Z) : option Z :=
  x ← Float64.of_int v;
  Float64.to_int
    (PrimFloat.mul (PrimFloat.sub x start_time) STEPS_PER_MILLISECOND).

(** The first loop, [for i, event in enumerate(events)]: the list iterator
    reads position [i] of the list as it is now, and the body replaces
    that position. [fuel] bounds the iterations by the list's length. *)
Fixpoint rewrite_loop (fuel i : nat) (events : list Event) (start_time : float)
  : option (list Event) :=
  match fuel with
  | O => Some events
  | S fuel' =>
      match events !! i with
      | None => Some events
      | Some event =>
          if is_time_shift event then
            v ← steps start_time (value event);
            rewrite_loop fuel' (S i) (<[i := mkEvent TIME_SHIFT v]> events) start_time
          else rewrite_loop fuel' (S i) events start_time
      end
  end.

(** The second loop, [for i in range(len(events) - 1, -1, -1)], entered with
    [k = i + 1]; [del events[i]] shortens the list under the loop. *)
Fixpoint anchor_loop (k : nat) (events : list Event) (delete_next_time_shift : bool)
  : option (list Event) :=
  match k with
  | O => Some events
  | S i =>
      event ← events !! i;
      if is_time_shift event && delete_next_time_shift then
        anchor_loop i (delete i events) false
      else if is_anchor event then anchor_loop i events true
      else anchor_loop i events delete_next_time_shift
  end.

Definition process (events : list Event) (start_time : float) : option (list Event) :=
  events ← rewrite_loop (length events) 0 events start_time;
  anchor_loop (length events) events false.

(** *** Declarative counterparts, used to state what the loops compute *)

(** What the first loop does to one event. *)
Definition rewrite_event (start_time : float) (e : Event) : option Event :=
  if is_time_shift e then v ← steps start_time (value e); Some (mkEvent TIME_SHIFT v)
  else Some e.

(** Reading forward from the head of [rest]: is an anchor met before any
    time shift? *)
Fixpoint anchor_ahead (rest : list Event) : bool :=
  match rest with
  | [] => false
  | e :: rest' =>
      if is_time_shift e then false
      else if is_anchor e then true
      else anchor_ahead rest'
  end.

(** The list without every time shift that has an anchor ahead of it. *)
Fixpoint drop_shifts_before_anchors (l : list Event) : list Event :=
  match l with
  | [] => []
  | e :: rest =>
      if is_time_shift e && anchor_ahead rest then drop_shifts_before_anchors rest
      else e :: drop_shifts_before_anchors rest
  end.

(** Following the specification's words: the time shift that comes right
    after an anchor, in forward order, is the one deleted. *)
Fixpoint spec_drop_shift_after_anchor (l : list Event) : list Event :=
  match l with
  | [] => []
  | a :: rest =>
      match rest with
      | s :: rest' =>
          if is_anchor a && is_time_shift s
          then a :: spec_drop_shift_after_anchor rest'
          else a :: spec_drop_shift_after_anchor rest
      | [] => [a]
      end
  end.

(** Following the specification's words: the rewritten value is
    [round((original_ms - window_start_ms) * steps_per_ms)]. *)
Definition spec_round_steps (start_time : float) (v : Z) : option Z :=
  x ← Float64.of_int v;
  Float64.round
    (PrimFloat.mul (PrimFloat.sub x start_time) STEPS_PER_MILLISECOND).

End TimeNormalizer.

(** ** Configuration, tokenizer and iterator state *)

(** The options of [args] (a [DictConfig]) that the functions below read.
    [add_gd_context] shows as the presence of the guide beatmap's data
    among the inputs of [_get_next_beatmap]. *)
Module Args.
Record t := mk {
  src_seq_len : Z;
  tgt_seq_len : Z;
  sample_rate : Z;
  hop_length : Z;
  special_token_len : Z;
  class_dropout_prob : float;
  diff_dropout_prob : float;
  add_pre_tokens : bool;
  add_pre_tokens_at_step : Z;
  max_pre_token_len : Z;
  add_empty_sequences : bool;
  add_empty_sequences_at_step : Z;
  center_pad_decoder : bool;
  diff_token_index : Z;
  style_token_index : Z;
  timing_random_offset : Z
}.
End Args.

(** Modelled from the spec: the encoder contract of [osuT5.tokenizer.Tokenizer],
    which is not part of this module: [encode], [encode_style_idx],
    [encode_diff], the reserved ids, and the half-open id range of every
    event type. *)
Module Tok.
Record t := mk {
  encode : Event -> Z;
  encode_style_idx : Z -> Z;
  encode_diff : float -> Z;
  sos_id : Z;
  eos_id : Z;
  pad_id : Z;
  style_unk : Z;
  diff_unk : Z;
  num_classes : Z;
  event_start : EventType -> Z;
  event_end : EventType -> Z
}.
End Tok.

(** The slots of a [BeatmapDatasetIterable]. [shared] is left out: the value
    of [shared.current_train_step] is an input of every step that reads it. *)
Module It.
Record t := mk {
  args : Args.t;
  tokenizer : Tok.t;
  test : bool;
  frame_seq_len : Z;
  min_pre_token_len : Z;
  pre_token_len : Z;
  class_dropout_prob : float;
  diff_dropout_prob : float;
  add_pre_tokens : bool;
  add_empty_sequences : bool
}.

(** [BeatmapDatasetIterable.__init__] *)
Definition init (args : Args.t) (tokenizer : Tok.t) (test : bool) : t :=
  {| args := args;
     tokenizer := tokenizer;
     test := test;
     frame_seq_len := Args.src_seq_len args - 1;
     min_pre_token_len := 4;
     pre_token_len := Args.tgt_seq_len args `div` 2;
     class_dropout_prob :=
       if test then Float64.one else Args.class_dropout_prob args;
     diff_dropout_prob :=
       if test then Float64.zero else Args.diff_dropout_prob args;
     add_pre_tokens := Args.add_pre_tokens args;
     add_empty_sequences := Args.add_empty_sequences args |}.

Definition set_add_empty_sequences (self : t) (b : bool) : t :=
  {| args := args self; tokenizer := tokenizer self; test := test self;
     frame_seq_len := frame_seq_len self;
     min_pre_token_len := min_pre_token_len self;
     pre_token_len := pre_token_len self;
     class_dropout_prob := class_dropout_prob self;
     diff_dropout_prob := diff_dropout_prob self;
     add_pre_tokens := add_pre_tokens self;
     add_empty_sequences := b |}.

Definition set_add_pre_tokens (self : t) (b : bool) : t :=
  {| args := args self; tokenizer := tokenizer self; test := test self;
     frame_seq_len := frame_seq_len self;
     min_pre_token_len := min_pre_token_len self;
     pre_token_len := pre_token_len self;
     class_dropout_prob := class_dropout_prob self;
     diff_dropout_prob := diff_dropout_prob self;
     add_pre_tokens := b;
     add_empty_sequences := add_empty_sequences self |}.
End It.

(** ** The [random] module *)

Module Random.
(** [random.randint(a, b)]: an integer of [a..b], both ends included, chosen
    by the generator's next output [raw]; [ValueError] on an empty range. *)
Definition randint (a b raw : Z) : option Z :=
  if b <? a then None else Some (a + raw `mod` (b - a + 1)).

(** [random.random() >= p] for the generator's next float [u]. *)
Definition at_least (u p : float) : bool := PrimFloat.leb p u.
End Random.

(** ** Frames *)

(** A 2-D sample array of shape [(length rows, ncols)]. *)
Record Array2 := mkArray2 { rows : list (list float); ncols : nat }.

Definition Array2_wf (a : Array2) : Prop :=
  Forall (fun r => length r = ncols a) (rows a).

(** [frames[a:b]] on the first axis. *)
Definition Array2_slice (a : Array2) (lo hi : Z) : Array2 :=
  {| rows := Py.slice (rows a) lo hi; ncols := ncols a |}.

(** [torch.flatten] *)
Definition flatten (a : Array2) : list float := concat (rows a).

(** [range(start, stop, step)]; [ValueError] when [step] is zero. *)
Definition py_range (start stop step : Z) : option (list Z) :=
  if step =? 0 then None
  else
    let count :=
      if 0 <? step then (stop - start + step - 1) `div` step
      else (start - stop - step - 1) `div` (- step) in
    Some ((fun k => start + Z.of_nat k * step) <$> seq 0 (Z.to_nat count)).

Module FrameSegmenter.

(** [np.reshape(samples, (-1, hop_length))] for a positive [hop_length]:
    [ValueError] unless the length is a multiple of it. *)
Definition reshape (samples : list float) (hop_length : Z) : option Array2 :=
  let len := Z.of_nat (length samples) in
  if negb (len `mod` hop_length =? 0) then None
  else
    let h := Z.to_nat hop_length in
    Some {| rows := (fun i => take h (drop (i * h) samples))
                      <$> seq 0 (Z.to_nat (len `div` hop_length));
            ncols := h |}.

(** [_get_frames]. The modulo raises [ZeroDivisionError] on a zero
    [hop_length]; [np.pad] raises [ValueError] on a negative pad width,
    which is what a negative [hop_length] gives. [sample_rate / hop_length]
    is a true division of two [int]s, which raises [OverflowError] when the
    quotient is beyond the doubles; the division by the constant is one of
    floats, and [np.arange(n) / x] casts [int64] indices and never raises. *)
Definition get_frames (self : It.t) (samples : list float)
  : option (Array2 * list float) :=
  let hop_length := Args.hop_length (It.args self) in
  if hop_length =? 0 then None
  else
    let pad := hop_length - Z.of_nat (length samples) `mod` hop_length in
    if pad <? 0 then None
    else
      let samples := samples ++ replicate (Z.to_nat pad) Float64.zero in
      frames ← reshape samples hop_length;
      frames_per_second ←
        Float64.int_truediv (Args.sample_rate (It.args self)) hop_length;
      let frames_per_milisecond :=
        PrimFloat.div frames_per_second (Float64.nearest MILISECONDS_PER_SECOND) in
      let frame_times :=
        (fun i => PrimFloat.div (Float64.nearest (Z.of_nat i)) frames_per_milisecond)
          <$> seq 0 (length (rows frames)) in
      Some (frames, frame_times).

End FrameSegmenter.

(** ** The staged window record

    The code keeps one [dict] per window and adds and deletes keys stage by
    stage; each stage is a record here, and a key that may be absent is an
    [option]. The three guide keys ([other_events], [other_beatmap_idx],
    [other_difficulty]) are present together or not at all. *)

Record Guide (E : Type) := mkGuide {
  other_events : E;
  other_beatmap_idx : Z;
  other_difficulty : float
}.
Arguments mkGuide {E}.
Arguments other_events {E}.
Arguments other_beatmap_idx {E}.
Arguments other_difficulty {E}.

(** The window as [_create_sequences] builds it ([T] is [float], the key
    [time]) and as [_trim_time_shifts] leaves it ([T] is [unit]: the key is
    deleted). *)
Record Sequence (T : Type) := mkSequence {
  time : T;
  frames : Array2;
  events : list Event;
  beatmap_idx : Z;
  difficulty : float;
  pre_events : option (list Event);
  other : option (Guide (list Event))
}.
Arguments mkSequence {T}.
Arguments time {T}.
Arguments frames {T}.
Arguments events {T}.
Arguments beatmap_idx {T}.
Arguments difficulty {T}.
Arguments pre_events {T}.
Arguments other {T}.

(** The guide keys after tokenizing. *)
Record GuideTokens := mkGuideTokens {
  other_tokens : list Z;
  other_beatmap_idx_token : Z;
  other_difficulty_token : Z
}.

(** The window after [_tokenize_sequence] ([F] is [Array2]) and after
    [_pad_frame_sequence] ([F] is the flat sample list). The fields
    [tk_frames], [tk_beatmap_idx], [tk_difficulty] and [tk_other] are the keys
    [frames], [beatmap_idx], [difficulty] and the guide keys. *)
Record Tokenized (F : Type) := mkTokenized {
  tk_frames : F;
  tokens : list Z;
  pre_tokens : option (list Z);
  beatmap_idx_token : Z;
  difficulty_token : Z;
  tk_beatmap_idx : Z;
  tk_difficulty : float;
  tk_other : option GuideTokens
}.
Arguments mkTokenized {F}.
Arguments tk_frames {F}.
Arguments tokens {F}.
Arguments pre_tokens {F}.
Arguments beatmap_idx_token {F}.
Arguments difficulty_token {F}.
Arguments tk_beatmap_idx {F}.
Arguments tk_difficulty {F}.
Arguments tk_other {F}.

(** The emitted example; [ex_frames] and [ex_beatmap_idx] are the keys
    [frames] and [beatmap_idx]. *)
Record Example := mkExample {
  ex_frames : list float;
  decoder_input_ids : list Z;
  decoder_attention_mask : list bool;
  labels : list Z;
  ex_beatmap_idx : Z
}.

(** ** [_create_sequences] *)

Module Windower.

(** The inner [while] of [get_event_indices]: [rest] is
    [events2[event_index:]], so the loop runs while it is not empty. An
    event time is an [int] (or minus infinity) compared with a NumPy
    double, which converts the [int]: [OverflowError] beyond the doubles.
    The conversion is made here where the value is stored; the code makes
    it at the next test of the loop, which always follows. *)
Fixpoint advance (rest : list Event) (event_index : Z) (event_time current_time : float)
  : option (list Event * Z * float) :=
  match rest with
  | [] => Some (rest, event_index, event_time)
  | e :: rest' =>
      if PrimFloat.ltb event_time current_time then
        event_time' ←
          (if is_time_shift e then Float64.of_int (value e) else Some event_time);
        advance rest' (event_index + 1) event_time' current_time
      else Some (rest, event_index, event_time)
  end.

(** The [for current_time in frame_times] loop. *)
Fixpoint start_indices_loop (frame_times : list float) (rest : list Event)
    (event_index : Z) (event_time : float) : option (list Z) :=
  match frame_times with
  | [] => Some []
  | current_time :: later =>
      cursor ← advance rest event_index event_time current_time;
      indices ← start_indices_loop later cursor.1.1 cursor.1.2 cursor.2;
      Some ((cursor.1.2 - 1) :: indices)
  end.

Definition get_event_indices (frame_times : list float) (events2 : list Event)
  : option (list Z * list Z) :=
  start_indices ←
    start_indices_loop frame_times events2 0 Float64.neg_infinity;
  let end_indices :=
    Py.slice_from start_indices 1 ++ [Z.of_nat (length events2)] in
  Some (start_indices, end_indices).

(** One round of the loop over [frame_start_idx]. *)
Definition make_sequence (self : It.t) (frames : Array2) (frame_times : list float)
    (events : list Event) (beatmap_idx : Z) (difficulty : float)
    (event_indices : list Z * list Z)
    (other : option (Guide (list Event) * (list Z * list Z)))
    (frame_start_idx : Z) : option (Sequence float) :=
  let n_frames := Z.of_nat (length (rows frames)) in
  let frame_end_idx := Z.min (frame_start_idx + It.frame_seq_len self) n_frames in
  target_start_idx ← Py.getitem event_indices.1 frame_start_idx;
  target_end_idx ← Py.getitem event_indices.2 (frame_end_idx - 1);
  let frame_pre_idx := Z.max (frame_start_idx - It.frame_seq_len self) 0 in
  target_pre_idx ← Py.getitem event_indices.1 frame_pre_idx;
  time ← Py.getitem frame_times frame_start_idx;
  other_keys ←
    match other with
    | None => Some None
    | Some (g, other_indices) =>
        other_target_start_idx ← Py.getitem other_indices.1 frame_start_idx;
        other_target_end_idx ← Py.getitem other_indices.2 (frame_end_idx - 1);
        Some (Some {| other_events :=
                        Py.slice (other_events g)
                                 other_target_start_idx other_target_end_idx;
                      other_beatmap_idx := other_beatmap_idx g;
                      other_difficulty := other_difficulty g |})
    end;
  Some {| time := time;
          frames := Array2_slice frames frame_start_idx frame_end_idx;
          events := Py.slice events target_start_idx target_end_idx;
          beatmap_idx := beatmap_idx;
          difficulty := difficulty;
          pre_events :=
            if Args.add_pre_tokens (It.args self)
               || (0 <=? Args.add_pre_tokens_at_step (It.args self))
            then Some (Py.slice events target_pre_idx target_start_idx)
            else None;
          other := other_keys |}.

(** The windows for a given [offset]. *)
Definition sequences_from (self : It.t) (frames : Array2) (frame_times : list float)
    (events : list Event) (beatmap_idx : Z) (difficulty : float)
    (other : option (Guide (list Event))) (offset : Z)
  : option (list (Sequence float)) :=
  event_indices ← get_event_indices frame_times events;
  other_indices ←
    match other with
    | Some g =>
        indices ← get_event_indices frame_times (other_events g);
        Some (Some (g, indices))
    | None => Some None
    end;
  let n_frames := Z.of_nat (length (rows frames)) in
  starts ← py_range offset n_frames (It.frame_seq_len self);
  mapM (make_sequence self frames frame_times events beatmap_idx difficulty
                      event_indices other_indices) starts.

(** [_create_sequences]; [raw] decides [random.randint(0, self.frame_seq_len)]. *)
Definition create_sequences (self : It.t) (frames : Array2) (frame_times : list float)
    (events : list Event) (beatmap_idx : Z) (difficulty : float)
    (other : option (Guide (list Event))) (raw : Z)
  : option (list (Sequence float)) :=
  offset ← Random.randint 0 (It.frame_seq_len self) raw;
  sequences_from self frames frame_times events beatmap_idx difficulty other offset.

End Windower.

(** ** [_trim_time_shifts] *)

Definition trim_time_shifts (sequence : Sequence float) : option (Sequence unit) :=
  let start_time := time sequence in
  events' ← TimeNormalizer.process (events sequence) start_time;
  pre_events' ←
    match pre_events sequence with
    | Some pre => Some <$> TimeNormalizer.process pre start_time
    | None => Some None
    end;
  other' ←
    match other sequence with
    | Some g =>
        oe ← TimeNormalizer.process (other_events g) start_time;
        Some (Some {| other_events := oe;
                      other_beatmap_idx := other_beatmap_idx g;
                      other_difficulty := other_difficulty g |})
    | None => Some None
    end;
  Some {| time := tt;
          frames := frames sequence;
          events := events';
          beatmap_idx := beatmap_idx sequence;
          difficulty := difficulty sequence;
          pre_events := pre_events';
          other := other' |}.

(** ** [_tokenize_sequence] *)

(** The outcomes of the calls to [random.random()] made for one window, in
    the order of the calls, and the generator output behind the jitter's
    [random.randint]. *)
Record Draws := mkDraws {
  u_style : float;        (* for [beatmap_idx_token] *)
  u_diff : float;         (* for [difficulty_token] *)
  u_idx : float;          (* for [beatmap_idx] *)
  u_other_style : float;  (* for [other_beatmap_idx_token] *)
  u_other_diff : float;   (* for [other_difficulty_token] *)
  raw_jitter : Z
}.

Definition tokenize_sequence (self : It.t) (sequence : Sequence unit) (d : Draws)
  : Tokenized Array2 :=
  let tokenizer := It.tokenizer self in
  let args := It.args self in
  {| tk_frames := frames sequence;
     tokens := [Tok.sos_id tokenizer]
                 ++ (Tok.encode tokenizer <$> events sequence)
                 ++ [Tok.eos_id tokenizer];
     pre_tokens := fmap (M := list) (Tok.encode tokenizer) <$> pre_events sequence;
     beatmap_idx_token :=
       if Random.at_least (u_style d) (Args.class_dropout_prob args)
       then Tok.encode_style_idx tokenizer (beatmap_idx sequence)
       else Tok.style_unk tokenizer;
     difficulty_token :=
       if Random.at_least (u_diff d) (Args.diff_dropout_prob args)
       then Tok.encode_diff tokenizer (difficulty sequence)
       else Tok.diff_unk tokenizer;
     tk_beatmap_idx :=
       if Random.at_least (u_idx d) (Args.class_dropout_prob args)
       then beatmap_idx sequence
       else Tok.num_classes tokenizer;
     tk_difficulty := difficulty sequence;
     tk_other :=
       (fun g =>
          {| other_tokens := Tok.encode tokenizer <$> other_events g;
             other_beatmap_idx_token :=
               if Random.at_least (u_other_style d) (Args.class_dropout_prob args)
               then Tok.encode_style_idx tokenizer (other_beatmap_idx g)
               else Tok.style_unk tokenizer;
             other_difficulty_token :=
               if Random.at_least (u_other_diff d) (Args.diff_dropout_prob args)
               then Tok.encode_diff tokenizer (other_difficulty g)
               else Tok.diff_unk tokenizer |}) <$> other sequence |}.

(** ** [_pad_frame_sequence] *)

(** [frames.to(torch.float32)]: every sample is rounded to binary32. *)
Definition to_float32 (a : Array2) : Array2 :=
  {| rows := fmap (M := list) Float64.to_float32 <$> rows a; ncols := ncols a |}.

Definition pad_frame_sequence (self : It.t) (sequence : Tokenized Array2)
  : option (Tokenized (list float)) :=
  let frames := to_float32 (tk_frames sequence) in
  let len := Z.of_nat (length (rows frames)) in
  flat ←
    (if negb (len =? It.frame_seq_len self) then
       if It.frame_seq_len self <? 0 then None (* [torch.zeros]: negative size *)
       else
         let n := Z.min (It.frame_seq_len self) len in
         let zeros :=
           replicate (Z.to_nat (It.frame_seq_len self))
                     (replicate (ncols frames) Float64.zero) in
         (* [padded_frames[:n] = frames[:n]]: both slices have [n] rows *)
         let kept := Py.slice_to (rows frames) n in
         let padded_frames :=
           {| rows := kept ++ drop (length kept) zeros; ncols := ncols frames |} in
         Some (flatten padded_frames)
     else Some (flatten frames));
  Some {| tk_frames := flat;
          tokens := tokens sequence;
          pre_tokens := pre_tokens sequence;
          beatmap_idx_token := beatmap_idx_token sequence;
          difficulty_token := difficulty_token sequence;
          tk_beatmap_idx := tk_beatmap_idx sequence;
          tk_difficulty := tk_difficulty sequence;
          tk_other := tk_other sequence |}.

(** ** Tensor operations of [_pad_and_split_token_sequence] *)

Module Torch.

(** [torch.full((size,), fill)]; [RuntimeError] on a negative size. *)
Definition full (size fill : Z) : option (list Z) :=
  if size <? 0 then None else Some (replicate (Z.to_nat size) fill).

(** [t[a:b] = src] on 1-D tensors: the slice is taken as Python takes it,
    and [src] must have the slice's length or a single element, which is
    then broadcast; any other shape is a [RuntimeError]. *)
Definition setslice (t : list Z) (a b : Z) (src : list Z) : option (list Z) :=
  let len := Z.of_nat (length t) in
  let lo := Z.to_nat (Py.clamp_index len a) in
  let k := Z.to_nat (Py.clamp_index len b - Py.clamp_index len a) in
  if decide (length src = k) then Some (take lo t ++ src ++ drop (lo + k) t)
  else
    match src with
    | [x] => Some (take lo t ++ replicate k x ++ drop (lo + k) t)
    | _ => None
    end.

(** [torch.clamp(x, lo, hi)]: [min(max(x, lo), hi)]. *)
Definition clamp (x lo hi : Z) : Z := Z.min (Z.max x lo) hi.

(** The value of a 64-bit two's complement integer: [torch.long] arithmetic
    wraps around. *)
Definition wrap64 (z : Z) : Z := (z + 2 ^ 63) `mod` 2 ^ 64 - 2 ^ 63.

(** [x + y] on [torch.long]. *)
Definition add64 (x y : Z) : Z := wrap64 (x + y).

End Torch.

(** The jitter of one input id: [torch.where(start <= x < end,
    clamp(x + offset, start, end - 1), x)] for the [TIME_SHIFT] id range;
    the sum is one of [torch.long] values and wraps around. *)
Definition jitter (tokenizer : Tok.t) (offset x : Z) : Z :=
  let event_start := Tok.event_start tokenizer TIME_SHIFT in
  let event_end := Tok.event_end tokenizer TIME_SHIFT in
  if (event_start <=? x) && (x <? event_end)
  then Torch.clamp (Torch.add64 x offset) event_start (event_end - 1)
  else x.

(** ** [_pad_and_split_token_sequence] *)

(** The budget [(n, m, o, start_index)] of the two packing modes. *)
Definition budget (self : It.t) (len_tokens num_pre_tokens num_other_tokens : Z)
  : Z * Z * Z * Z :=
  let args := It.args self in
  let stl := Args.special_token_len args in
  if Args.center_pad_decoder args then
    let n := Z.min (Args.tgt_seq_len args - It.pre_token_len self) (len_tokens - 1) in
    let m := Z.min (It.pre_token_len self - stl) num_pre_tokens in
    let o := Z.min (It.pre_token_len self - m - stl) num_other_tokens in
    (n, m, o, It.pre_token_len self - m - stl - o)
  else
    let n := Z.min (Args.tgt_seq_len args - stl
                    - Z.min (It.min_pre_token_len self) num_pre_tokens)
                   (len_tokens - 1) in
    let m := Z.min (Args.tgt_seq_len args - n - stl) num_pre_tokens in
    let o := Z.min (Args.tgt_seq_len args - n - stl - m) num_other_tokens in
    (n, m, o, 0).

(** The two side-channel ids of a segment that starts at [start_index]. *)
Definition write_side_tokens (args : Args.t) (input_tokens : list Z)
    (start_index difficulty_token beatmap_idx_token : Z) : option (list Z) :=
  input_tokens ←
    (if 0 <=? Args.diff_token_index args
     then Py.setitem input_tokens (start_index + Args.diff_token_index args)
                     difficulty_token
     else Some input_tokens);
  if 0 <=? Args.style_token_index args
  then Py.setitem input_tokens (start_index + Args.style_token_index args)
                  beatmap_idx_token
  else Some input_tokens.

(** The writes into the two buffers, once [(n, m, o, start_index)] is known. *)
Definition pack (self : It.t) (sequence : Tokenized (list float)) (d : Draws)
    (pre_tokens other_tokens : list Z) (n m o start_index : Z)
    (input_tokens label_tokens : list Z) : option Example :=
  let args := It.args self in
  let tokenizer := It.tokenizer self in
  let stl := Args.special_token_len args in
  let tokens := tokens sequence in
  input_tokens ←
    (if 0 <? o then
       g ← tk_other sequence;  (* [KeyError] without the guide keys *)
       input_tokens ← write_side_tokens args input_tokens start_index
                        (other_difficulty_token g) (other_beatmap_idx_token g);
       if stl <? o
       then Torch.setslice input_tokens (start_index + stl) (start_index + o)
                           (Py.slice_to other_tokens (o - stl))
       else Some input_tokens
     else Some input_tokens);
  let start_index := start_index + o in
  input_tokens ← write_side_tokens args input_tokens start_index
                   (difficulty_token sequence) (beatmap_idx_token sequence);
  input_tokens ←
    (if 0 <? m
     then Torch.setslice input_tokens (start_index + stl) (start_index + m + stl)
                         (Py.slice_from pre_tokens (- m))
     else Some input_tokens);
  input_tokens ← Torch.setslice input_tokens (start_index + m + stl)
                   (start_index + m + stl + n) (Py.slice_to tokens n);
  label_tokens ← Torch.setslice label_tokens (start_index + m + stl)
                   (start_index + m + stl + n) (Py.slice tokens 1 (n + 1));
  input_tokens ←
    (if 0 <? Args.timing_random_offset args then
       offset ← Random.randint (- Args.timing_random_offset args)
                               (It.frame_seq_len self) (raw_jitter d);
       Some (fmap (M := list) (jitter tokenizer offset) input_tokens)
     else Some input_tokens);
  Some {| ex_frames := tk_frames sequence;
          decoder_input_ids := input_tokens;
          decoder_attention_mask :=
            fmap (M := list) (fun x => negb (x =? Tok.pad_id tokenizer)) input_tokens;
          labels := label_tokens;
          ex_beatmap_idx := tk_beatmap_idx sequence |}.

(** [num_pre_tokens], which reads [args.add_pre_tokens]. *)
Definition num_pre_tokens (args : Args.t) (pre_tokens : list Z) : Z :=
  let num_pre_tokens :=
    if Args.add_pre_tokens args then Z.of_nat (length pre_tokens) else 0 in
  if 0 <? Args.max_pre_token_len args
  then Z.min num_pre_tokens (Args.max_pre_token_len args)
  else num_pre_tokens.

Definition pad_and_split_token_sequence (self : It.t)
    (sequence : Tokenized (list float)) (d : Draws) : option Example :=
  let args := It.args self in
  let tokenizer := It.tokenizer self in
  let stl := Args.special_token_len args in
  let pre_tokens := default [] (pre_tokens sequence) in
  let num_pre_tokens := num_pre_tokens args pre_tokens in
  let other_tokens := default [] (other_tokens <$> tk_other sequence) in
  let num_other_tokens :=
    match tk_other sequence with
    | Some _ => Z.of_nat (length other_tokens) + stl
    | None => 0
    end in
  input_tokens ← Torch.full (Args.tgt_seq_len args) (Tok.pad_id tokenizer);
  label_tokens ← Torch.full (Args.tgt_seq_len args) LABEL_IGNORE_ID;
  let b := budget self (Z.of_nat (length (tokens sequence)))
                  num_pre_tokens num_other_tokens in
  pack self sequence d pre_tokens other_tokens
       b.1.1.1 b.1.1.2 b.1.2 b.2 input_tokens label_tokens.

(** ** [maybe_change_dataset] and [_get_next_beatmap] *)

(** [shared] is [None] when [self.shared] is, and otherwise the value of
    [self.shared.current_train_step] at the moment of the call. *)
Definition maybe_change_dataset (self : It.t) (shared : option Z) : It.t :=
  match shared with
  | None => self
  | Some step =>
      let args := It.args self in
      let self :=
        if (0 <=? Args.add_empty_sequences_at_step args)
           && (Args.add_empty_sequences_at_step args <=? step)
           && negb (It.add_empty_sequences self)
        then It.set_add_empty_sequences self true else self in
      if (0 <=? Args.add_pre_tokens_at_step args)
         && (Args.add_pre_tokens_at_step args <=? step)
         && negb (It.add_pre_tokens self)
      then It.set_add_pre_tokens self true else self
  end.

(** The filter's test: [((labels == eos_id) | (labels == pad_id)).all()]. *)
Definition labels_all_eos_or_pad (tokenizer : Tok.t) (labels : list Z) : bool :=
  forallb (fun x => (x =? Tok.eos_id tokenizer) || (x =? Tok.pad_id tokenizer)) labels.

(** What one round of the loop over [sequences] does. *)
Inductive Outcome :=
  | Yielded (example : Example)
  | Skipped.

(** The four stages that turn a window into a packed example. *)
Definition pack_window (self : It.t) (sequence : Sequence float) (d : Draws)
  : option Example :=
  sequence ← trim_time_shifts sequence;
  let sequence := tokenize_sequence self sequence d in
  sequence ← pad_frame_sequence self sequence;
  pad_and_split_token_sequence self sequence d.

(** One round of [for sequence in sequences]: the iterator after
    [maybe_change_dataset], and the example or the [continue]. *)
Definition step_sequence (self : It.t) (shared : option Z)
    (sequence : Sequence float) (d : Draws) : option (It.t * Outcome) :=
  let self := maybe_change_dataset self shared in
  sequence ← pack_window self sequence d;
  if negb (It.add_empty_sequences self)
     && labels_all_eos_or_pad (It.tokenizer self) (labels sequence)
  then Some (self, Skipped)
  else Some (self, Yielded sequence).

(** The generator's loop: the examples yielded so far, and the iterator at
    the end, or [None] when a round raised (what was yielded before stays
    yielded). Each window comes with the curriculum step read for it and
    with its random draws. *)
Fixpoint run_sequences (self : It.t) (work : list (Sequence float * option Z * Draws))
  : list Example * option It.t :=
  match work with
  | [] => ([], Some self)
  | (sequence, shared, d) :: later =>
      match step_sequence self shared sequence d with
      | None => ([], None)
      | Some (self', Yielded example) =>
          let '(yielded, final) := run_sequences self' later in
          (example :: yielded, final)
      | Some (self', Skipped) => run_sequences self' later
      end
  end.

(** The inputs of one beatmap that come from outside this module: the audio
    samples, the parsed events, the metadata of the beatmap and of the guide
    beatmap (when [add_gd_context] is set), the generator output behind the
    window offset, and per window the curriculum step and the draws. *)
Record BeatmapInput := mkBeatmapInput {
  audio_samples : list float;
  parsed_events : list Event;
  current_idx : Z;
  star_rating : float;
  guide : option (Guide (list Event));
  raw_offset : Z;
  per_window : nat -> option Z * Draws
}.

(** [_get_next_beatmap], from the audio samples on. *)
Definition get_next_beatmap (self : It.t) (input : BeatmapInput)
  : list Example * option It.t :=
  match
    (fr ← FrameSegmenter.get_frames self (audio_samples input);
     Windower.create_sequences self fr.1 fr.2 (parsed_events input)
       (current_idx input) (star_rating input) (guide input) (raw_offset input))
  with
  | None => ([], None)
  | Some sequences =>
      run_sequences self
        (imap (fun k sequence => (sequence, (per_window input k).1, (per_window input k).2))
              sequences)
  end.

(** ** [InterleavingBeatmapDatasetIterable] *)

Module Interleaving.
Section Items.
Context {A : Type}.

(** A sub-iterator: a generator object, which [list.remove] finds by
    its identity [ident], and the items it has yet to yield. *)
Record Worker := mkWorker { ident : nat; pending : list A }.

(** The slots [workers] and [index] ([cycle_length] is never read
    after [__init__]). *)
Record t := mk { workers : list Worker; index : nat }.

Inductive Result :=
  | Item (item : A)
  | StopIteration
  | OtherError.

(** [self.workers.remove(target)]: the first element that is [target];
    [ValueError] when there is none. *)
Fixpoint remove (target : Worker) (ws : list Worker) : option (list Worker) :=
  match ws with
  | [] => None
  | w :: ws' =>
      if decide (ident w = ident target) then Some ws'
      else cons w <$> remove target ws'
  end.

(** The [for _ in range(num)] loop of [__next__]. *)
Fixpoint next_loop (num : nat) (workers : list Worker) (index : nat)
  : Result * t :=
  match num with
  | O => (StopIteration, mk workers index)
  | S num' =>
      if decide (length workers = 0%nat)
      then (OtherError, mk workers index)        (* [ZeroDivisionError] *)
      else
        let index := (index `mod` length workers)%nat in
        match workers !! index with
        | None => (OtherError, mk workers index) (* [IndexError] *)
        | Some w =>
            match pending w with
            | item :: rest =>
                (Item item,
                 mk (<[index := mkWorker (ident w) rest]> workers) (index + 1)%nat)
            | [] =>
                match remove w workers with
                | None => (OtherError, mk workers index) (* [ValueError] *)
                | Some workers' => next_loop num' workers' index
                end
            end
        end
  end.

(** [__next__] *)
Definition next (self : t) : Result * t :=
  next_loop (length (workers self)) (workers self) (index self).

(** How a consumer's [for item in iterable] ends. *)
Inductive Ending :=
  | Exhausted (final : t)
  | Failed
  | OutOfFuel.

(** The consumer's loop: [__next__] until it raises. *)
Fixpoint drain (fuel : nat) (self : t) : list A * Ending :=
  match fuel with
  | O => ([], OutOfFuel)
  | S fuel' =>
      match next self with
      | (Item item, self') =>
          let '(items, ending) := drain fuel' self' in (item :: items, ending)
      | (StopIteration, self') => ([], Exhausted self')
      | (OtherError, _) => ([], Failed)
      end
  end.

(** Everything the sub-iterators have yet to yield. *)
Definition all_pending (ws : list Worker) : list A :=
  concat (pending <$> ws).

End Items.
Arguments Worker : clear implicits.
Arguments t : clear implicits.
Arguments Result : clear implicits.
Arguments Ending : clear implicits.
End Interleaving.

(** ** [InterleavingBeatmapDatasetIterable.__init__] *)

Module Sharding.

(** The magnitude of a finite spec float [m * 2^e], rounded up. *)
Definition ceil_mag (m : positive) (e : Z) : Z :=
  match e with
  | Z0 => Zpos m
  | Zpos p => Zpos m * 2 ^ Zpos p
  | Zneg p => (Zpos m + 2 ^ Zpos p - 1) / 2 ^ Zpos p
  end.

(** [int(np.ceil(x))]: the least integer not below [x]; [OverflowError] on
    an infinity and [ValueError] on a NaN. *)
Definition ceil_int (x : float) : option Z :=
  match FloatOps.Prim2SF x with
  | SpecFloat.S754_zero _ => Some 0
  | SpecFloat.S754_finite s m e =>
      Some (if s then - Float64.trunc_mag m e else ceil_mag m e)
  | _ => None
  end.

(** [int(np.ceil(len(beatmap_files) / float(cycle_length)))]: both [int]s
    are converted ([OverflowError] beyond the doubles) and the division is
    one of floats, [ZeroDivisionError] on a zero [cycle_length]. *)
Definition per_worker (len cycle_length : Z) : option Z :=
  if cycle_length =? 0 then None
  else
    divisor ← Float64.of_int cycle_length;
    dividend ← Float64.of_int len;
    ceil_int (PrimFloat.div dividend divisor).

(** [beatmap_files[i * per_worker : min(len(beatmap_files), (i + 1) * per_worker)]] *)
Definition shard {F} (beatmap_files : list F) (per_worker i : Z) : list F :=
  Py.slice beatmap_files (i * per_worker)
           (Z.min (Z.of_nat (length beatmap_files)) ((i + 1) * per_worker)).

(** [__init__]: one generator per [i] of [range(cycle_length)], each a new
    object (its identity is its rank of creation), which will yield what
    [iterable_factory] yields for its shard. *)
Definition init {F A} (beatmap_files : list F) (iterable_factory : list F -> list A)
    (cycle_length : Z) : option (Interleaving.t A) :=
  per_worker ← per_worker (Z.of_nat (length beatmap_files)) cycle_length;
  indices ← py_range 0 cycle_length 1;
  Some (Interleaving.mk
          (imap (fun k i =>
                   Interleaving.mkWorker k
                     (iterable_factory (shard beatmap_files per_worker i)))
                indices)
          0%nat).

End Sharding.

(** ** The guide beatmap of [_get_next_beatmap] *)

Module GuideChoice.
Section Names.
Context {K : Type} `{EqDecision K}.

(** [random.choice(seq)]: the element at the drawn position; [IndexError]
    on an empty sequence. *)
Definition choice (seq : list K) (raw : Z) : option K :=
  if decide (seq = []) then None
  else seq !! Z.to_nat (raw `mod` Z.of_nat (length seq)).

(** [[k for k in metadata["Beatmaps"] if k != beatmap_name]], over the keys
    of the dictionary in their order. *)
Definition other_beatmaps (names : list K) (beatmap_name : K) : list K :=
  filter (fun k => k <> beatmap_name) names.

(** The guard of [_get_next_beatmaps] and [_get_next_tracks]:
    [self.args.add_gd_context and len(metadata["Beatmaps"]) <= 1]. *)
Definition skips_track (add_gd_context : bool) (names : list K) : bool :=
  add_gd_context && (Z.of_nat (length names) <=? 1).

(** [other_name], drawn in [_get_next_beatmap] under [add_gd_context]. *)
Definition other_name (names : list K) (beatmap_name : K) (raw : Z) : option K :=
  choice (other_beatmaps names beatmap_name) raw.

End Names.
End GuideChoice.

(** ** A small configuration to run the pipeline on *)

Module Demo.

Definition half : float := PrimFloat.div (Float64.nearest 1) (Float64.nearest 2).
Definition quarter : float := PrimFloat.div (Float64.nearest 1) (Float64.nearest 4).
Definition three_quarters : float := PrimFloat.div (Float64.nearest 3) (Float64.nearest 4).
Definition one : float := Float64.nearest 1.

(** Time shifts are the ids 10..29, the anchors 30..33, every other event
    type 40 and up; the reserved ids lie below 10. *)
Definition tokenizer : Tok.t :=
  {| Tok.encode := fun e =>
       match type e with
       | TIME_SHIFT => 10 + value e
       | BEZIER_ANCHOR => 30
       | PERFECT_ANCHOR => 31
       | CATMULL_ANCHOR => 32
       | RED_ANCHOR => 33
       | OTHER_TYPE tag => 40 + Z.of_nat tag
       end;
     Tok.encode_style_idx := fun i => 100 + i;
     Tok.encode_diff := fun _ => 200;
     Tok.sos_id := 1;
     Tok.eos_id := 2;
     Tok.pad_id := 0;
     Tok.style_unk := 3;
     Tok.diff_unk := 4;
     Tok.num_classes := 50;
     Tok.event_start := fun ty => match ty with TIME_SHIFT => 10 | _ => 30 end;
     Tok.event_end := fun ty => match ty with TIME_SHIFT => 30 | _ => 60 end |}.

(** [src_seq_len = 3], [tgt_seq_len], [hop_length = 2], one frame every
    eighth of a millisecond; the remaining options are arguments. *)
Definition args (tgt_seq_len special_token_len : Z) (class_dropout_prob : float)
    (diff_token_index style_token_index timing_random_offset : Z) : Args.t :=
  {| Args.src_seq_len := 3;
     Args.tgt_seq_len := tgt_seq_len;
     Args.sample_rate := 16000;
     Args.hop_length := 2;
     Args.special_token_len := special_token_len;
     Args.class_dropout_prob := class_dropout_prob;
     Args.diff_dropout_prob := Float64.zero;
     Args.add_pre_tokens := false;
     Args.add_pre_tokens_at_step := -1;
     Args.max_pre_token_len := 0;
     Args.add_empty_sequences := false;
     Args.add_empty_sequences_at_step := -1;
     Args.center_pad_decoder := false;
     Args.diff_token_index := diff_token_index;
     Args.style_token_index := style_token_index;
     Args.timing_random_offset := timing_random_offset |}.

Definition plain : It.t := It.init (args 8 0 Float64.zero (-1) (-1) 0) tokenizer false.
Definition jittering : It.t := It.init (args 8 0 Float64.zero (-1) (-1) 5) tokenizer false.
Definition dropping : It.t := It.init (args 8 2 half 0 1 0) tokenizer false.
Definition cramped : It.t := It.init (args 2 2 Float64.zero 0 1 0) tokenizer false.
Definition single : It.t := It.init (args 1 0 Float64.zero (-1) (-1) 0) tokenizer false.

Definition draws (u_style u_idx : float) (raw_jitter : Z) : Draws :=
  {| u_style := u_style; u_diff := half; u_idx := u_idx;
     u_other_style := half; u_other_diff := half; raw_jitter := raw_jitter |}.

(** Nine samples, six events, class 7; the window offset comes out as 1. *)
Definition input (d : Draws) : BeatmapInput :=
  {| audio_samples := replicate 9 one;
     parsed_events :=
       [mkEvent TIME_SHIFT 0; mkEvent (OTHER_TYPE 0) 1; mkEvent TIME_SHIFT 20;
        mkEvent BEZIER_ANCHOR 3; mkEvent TIME_SHIFT 30; mkEvent (OTHER_TYPE 1) 1];
     current_idx := 7;
     star_rating := one;
     guide := None;
     raw_offset := 1;
     per_window := fun _ => (None, d) |}.

(** A window without events. *)
Definition empty_window : Sequence float :=
  {| time := Float64.zero;
     frames := mkArray2 [[one; one]; [one; one]] 2;
     events := [];
     beatmap_idx := 7;
     difficulty := one;
     pre_events := None;
     other := None |}.

End Demo.

(** A window with a time shift 17 ms after its start and one 25 ms before,
    and what [_trim_time_shifts] makes of it. *)
Definition window_17 : Sequence float :=
  {| time := Float64.zero;
     frames := mkArray2 [] 0;
     events := [mkEvent TIME_SHIFT 17; mkEvent (OTHER_TYPE 0) 4];
     beatmap_idx := 0;
     difficulty := Float64.zero;
     pre_events := Some [mkEvent TIME_SHIFT (-25)];
     other := None |}.

Definition window_17_trimmed : Sequence unit :=
  {| time := tt;
     frames := mkArray2 [] 0;
     events := [mkEvent TIME_SHIFT 1; mkEvent (OTHER_TYPE 0) 4];
     beatmap_idx := 0;
     difficulty := Float64.zero;
     pre_events := Some [mkEvent TIME_SHIFT (-2)];
     other := None |}.

(** The empty window as the [dropping] demo iterator packs it when the
    style draw is above and the class draw below the dropout probability. *)
Definition disagreeing_example : Example :=
  {| ex_frames := [Demo.one; Demo.one; Demo.one; Demo.one];
     decoder_input_ids := [200; 107; 1; 0; 0; 0; 0; 0];
     decoder_attention_mask := [true; true; true; false; false; false; false; false];
     labels := [-100; -100; 2; -100; -100; -100; -100; -100];
     ex_beatmap_idx := 50 |}.

(** Following the specification's words: [ceil(L / hop_length)]. *)
Definition spec_frame_count (L hop_length : Z) : Z :=
  (L + hop_length - 1) `div` hop_length.

(** Demo data for the windows: the segmented nine samples of the demo
    beatmap, and an iterator that keeps the pre-context. *)
Definition demo_segments : Array2 * list float :=
  default (mkArray2 [] 0, [])
          (FrameSegmenter.get_frames Demo.plain (replicate 9 Demo.one)).

Definition demo_with_pre : It.t :=
  It.init
    {| Args.src_seq_len := 3; Args.tgt_seq_len := 16; Args.sample_rate := 16000;
       Args.hop_length := 2; Args.special_token_len := 2;
       Args.class_dropout_prob := Float64.zero; Args.diff_dropout_prob := Float64.zero;
       Args.add_pre_tokens := true; Args.add_pre_tokens_at_step := -1;
       Args.max_pre_token_len := 0; Args.add_empty_sequences := false;
       Args.add_empty_sequences_at_step := -1; Args.center_pad_decoder := true;
       Args.diff_token_index := 0; Args.style_token_index := 1;
       Args.timing_random_offset := 0 |}
    Demo.tokenizer false.

(** A tokenized window with three main tokens, two pre-context tokens and
    two reserved slots, for a 12-slot decoder buffer. *)
Definition demo_tokenized : Tokenized (list float) :=
  {| tk_frames := [];
     tokens := [1; 41; 2];
     pre_tokens := Some [42; 43];
     beatmap_idx_token := 107;
     difficulty_token := 200;
     tk_beatmap_idx := 7;
     tk_difficulty := Demo.one;
     tk_other := None |}.

Definition demo_packer (center_pad_decoder : bool) : It.t :=
  It.init {| Args.src_seq_len := 3;
             Args.tgt_seq_len := 12;
             Args.sample_rate := 16000;
             Args.hop_length := 2;
             Args.special_token_len := 2;
             Args.class_dropout_prob := Float64.zero;
             Args.diff_dropout_prob := Float64.zero;
             Args.add_pre_tokens := true;
             Args.add_pre_tokens_at_step := -1;
             Args.max_pre_token_len := 0;
             Args.add_empty_sequences := false;
             Args.add_empty_sequences_at_step := -1;
             Args.center_pad_decoder := center_pad_decoder;
             Args.diff_token_index := 0;
             Args.style_token_index := 1;
             Args.timing_random_offset := 0 |}
          Demo.tokenizer false.

(** An iterator whose empty-window switch is due at step 3. *)
Definition demo_curriculum : It.t :=
  It.init {| Args.src_seq_len := 3;
             Args.tgt_seq_len := 8;
             Args.sample_rate := 16000;
             Args.hop_length := 2;
             Args.special_token_len := 0;
             Args.class_dropout_prob := Float64.zero;
             Args.diff_dropout_prob := Float64.zero;
             Args.add_pre_tokens := false;
             Args.add_pre_tokens_at_step := -1;
             Args.max_pre_token_len := 0;
             Args.add_empty_sequences := false;
             Args.add_empty_sequences_at_step := 3;
             Args.center_pad_decoder := false;
             Args.diff_token_index := -1;
             Args.style_token_index := -1;
             Args.timing_random_offset := 0 |}
          Demo.tokenizer false.


(** * Properties *)

(** ** Time normalisation *)

Module TimeNormalizerFacts.
Import TimeNormalizer.

(** The flag of the reverse scan, generalised to a scan that starts with
    [flag] already set at the end of the list. *)
Fixpoint ahead (flag : bool) (rest : list Event) : bool :=
  match rest with
  | [] => flag
  | e :: rest' =>
      if is_time_shift e then false
      else if is_anchor e then true
      else ahead flag rest'
  end.

Fixpoint sweep (flag : bool) (l : list Event) : list Event :=
  match l with
  | [] => []
  | e :: rest =>
      if is_time_shift e && ahead flag rest then sweep flag rest
      else e :: sweep flag rest
  end.

(** The flag after the scan has passed [e]. *)
Definition flag_after (e : Event) (flag : bool) : bool :=
  if is_time_shift e then false else if is_anchor e then true else flag.

Lemma ahead_false rest : ahead false rest = anchor_ahead rest.
Proof. induction rest as [|e rest IH]; simpl; [done|]. by rewrite IH. Qed.

Lemma sweep_false l : sweep false l = drop_shifts_before_anchors l.
Proof.
  induction l as [|e rest IH]; simpl; [done|].
  by rewrite IH, ahead_false.
Qed.

Lemma ahead_snoc flag p e : ahead flag (p ++ [e]) = ahead (flag_after e flag) p.
Proof.
  induction p as [|x p IH]; simpl.
  - unfold flag_after. by repeat case_match.
  - by rewrite IH.
Qed.

Lemma sweep_snoc flag p e :
  sweep flag (p ++ [e])
  = sweep (flag_after e flag) p ++ (if is_time_shift e && flag then [] else [e]).
Proof.
  induction p as [|x p IH]; simpl.
  - by destruct (is_time_shift e), flag.
  - rewrite IH, ahead_snoc.
    by destruct (is_time_shift x && ahead (flag_after e flag) p).
Qed.

Lemma time_shift_not_anchor e : is_time_shift e = true -> is_anchor e = false.
Proof.
  unfold is_time_shift, is_anchor. intros H%bool_decide_eq_true.
  rewrite H. apply bool_decide_eq_false.
  rewrite !elem_of_cons, elem_of_nil. intuition congruence.
Qed.

(** The reverse loop over a prefix [pre] leaves what lies behind it alone
    and sweeps the prefix. *)
Lemma anchor_loop_sweep pre behind flag :
  anchor_loop (length pre) (pre ++ behind) flag = Some (sweep flag pre ++ behind).
Proof.
  revert behind flag.
  induction pre as [|e p IH] using rev_ind; intros behind flag; [done|].
  rewrite length_app, Nat.add_1_r. simpl.
  rewrite <- (assoc_L (++)). simpl.
  rewrite list_lookup_middle by done. simpl.
  rewrite sweep_snoc. unfold flag_after.
  destruct (is_time_shift e) eqn:Hts; simpl.
  - destruct flag; simpl.
    + rewrite delete_middle, IH. by rewrite app_nil_r.
    + rewrite (time_shift_not_anchor e Hts), IH.
      by rewrite <- (assoc_L (++)).
  - destruct (is_anchor e); rewrite IH; by rewrite <- (assoc_L (++)).
Qed.

Lemma anchor_loop_whole l :
  anchor_loop (length l) l false = Some (drop_shifts_before_anchors l).
Proof.
  pose proof (anchor_loop_sweep l [] false) as H.
  by rewrite !app_nil_r, sweep_false in H.
Qed.

Lemma list_insert_middle {A} (l1 l2 : list A) x y :
  <[length l1 := y]> (l1 ++ x :: l2) = l1 ++ y :: l2.
Proof. rewrite insert_app_r_alt by lia. by rewrite Nat.sub_diag. Qed.

Lemma mapM_cons_eq {A B} (f : A -> option B) x l :
  mapM f (x :: l) = (y ← f x; k ← mapM f l; Some (y :: k)).
Proof. done. Qed.

Lemma rewrite_event_shift start_time e :
  is_time_shift e = true ->
  rewrite_event start_time e
  = (v ← steps start_time (value e); Some (mkEvent TIME_SHIFT v)).
Proof. unfold rewrite_event. by intros ->. Qed.

Lemma rewrite_event_other start_time e :
  is_time_shift e = false -> rewrite_event start_time e = Some e.
Proof. unfold rewrite_event. by intros ->. Qed.

(** The forward loop has rewritten the positions before [i] and will
    rewrite the rest. *)
Lemma rewrite_loop_mapM seen rest start_time :
  rewrite_loop (length rest) (length seen) (seen ++ rest) start_time
  = (rest' ← mapM (rewrite_event start_time) rest; Some (seen ++ rest')).
Proof.
  revert seen. induction rest as [|e rest IH]; intros seen; [done|].
  cbn [length rewrite_loop]. rewrite list_lookup_middle by done.
  rewrite mapM_cons_eq.
  destruct (is_time_shift e) eqn:Hts.
  - rewrite rewrite_event_shift by done.
    destruct (steps start_time (value e)) as [v|]; simpl; [|done].
    rewrite list_insert_middle.
    specialize (IH (seen ++ [mkEvent TIME_SHIFT v])).
    rewrite length_app, Nat.add_1_r, <- (assoc_L (++)) in IH. simpl in IH.
    rewrite IH. destruct (mapM _ rest); simpl; [|done].
    by rewrite <- (assoc_L (++)).
  - rewrite rewrite_event_other by done. simpl.
    specialize (IH (seen ++ [e])).
    rewrite length_app, Nat.add_1_r, <- (assoc_L (++)) in IH. simpl in IH.
    rewrite IH. destruct (mapM _ rest); simpl; [|done].
    by rewrite <- (assoc_L (++)).
Qed.

Lemma rewrite_loop_whole events start_time :
  rewrite_loop (length events) 0 events start_time
  = mapM (rewrite_event start_time) events.
Proof.
  pose proof (rewrite_loop_mapM [] events start_time) as H. simpl in H.
  rewrite H. by destruct (mapM _ events).
Qed.

(** [process] is the rewriting of every event followed by the sweep. *)
Lemma process_eq events start_time :
  process events start_time
  = (rewritten ← mapM (rewrite_event start_time) events;
     Some (drop_shifts_before_anchors rewritten)).
Proof.
  unfold process. rewrite rewrite_loop_whole.
  destruct (mapM _ events) as [rewritten|]; simpl; [|done].
  apply anchor_loop_whole.
Qed.

(** [int()] truncates: the magnitude [m * 2^e] is rounded down, and the
    sign is put back, so the result is the integer next to the value on
    the side of zero. *)
Lemma trunc_mag_toward_zero m p :
  Float64.trunc_mag m (Zneg p) * 2 ^ Zpos p <= Zpos m
  < (Float64.trunc_mag m (Zneg p) + 1) * 2 ^ Zpos p.
Proof.
  unfold Float64.trunc_mag.
  assert (0 < 2 ^ Zpos p) by (apply Z.pow_pos_nonneg; lia).
  pose proof (Z.mul_div_le (Zpos m) (2 ^ Zpos p)).
  pose proof (Z.mul_succ_div_gt (Zpos m) (2 ^ Zpos p)).
  lia.
Qed.

(** What [process] does to one list, as a relation: every event is
    rewritten, a time shift to the truncated step count and any other event
    to itself, and the sweep runs over the rewritten list. *)
Definition truncated_shift (start_time : float) (e e' : Event) : Prop :=
  (type e = TIME_SHIFT /\
   exists x v,
     Float64.of_int (value e) = Some x
     /\ Float64.to_int
          (PrimFloat.mul (PrimFloat.sub x start_time) STEPS_PER_MILLISECOND) = Some v
     /\ e' = mkEvent TIME_SHIFT v)
  \/ (type e <> TIME_SHIFT /\ e' = e).

Definition normalized (start_time : float) (l l' : list Event) : Prop :=
  exists rewritten,
    Forall2 (truncated_shift start_time) l rewritten
    /\ l' = drop_shifts_before_anchors rewritten.

Lemma rewrite_event_truncated start_time e e' :
  rewrite_event start_time e = Some e' <-> truncated_shift start_time e e'.
Proof.
  unfold rewrite_event, truncated_shift, is_time_shift, steps.
  case_bool_decide as Hty; split.
  - intros Hv. left. split; [done|].
    destruct (Float64.of_int (value e)) as [x|]; simpl in Hv; [|done].
    destruct (Float64.to_int _) as [v|] eqn:Hto; simpl in Hv; [|done].
    exists x, v. split; [done|]. split; [done|]. congruence.
  - intros [[_ (x & v & -> & Hv & ->)]|[? _]]; [|done]. simpl. by rewrite Hv.
  - intros [= ->]. by right.
  - intros [[? _]|[_ ->]]; done.
Qed.

Lemma process_normalized events start_time out :
  process events start_time = Some out <-> normalized start_time events out.
Proof.
  rewrite process_eq. unfold normalized. split.
  - destruct (mapM _ events) as [rewritten|] eqn:Hm; simpl; [|done].
    intros [= <-]. exists rewritten. split; [|done].
    apply mapM_Some_1 in Hm.
    eapply Forall2_impl; [done|]. intros ? ?. apply rewrite_event_truncated.
  - intros (rewritten & Hf & ->).
    rewrite (mapM_Some_2 (rewrite_event start_time) events rewritten); [done|].
    eapply Forall2_impl; [done|]. intros ? ?. apply rewrite_event_truncated.
Qed.

(** The three event lists of a window, before and after [_trim_time_shifts]. *)
Definition window_normalized (sequence : Sequence float) (out : Sequence unit)
  : Prop :=
  normalized (time sequence) (events sequence) (events out)
  /\ option_Forall2 (normalized (time sequence))
       (pre_events sequence) (pre_events out)
  /\ option_Forall2 (normalized (time sequence))
       (other_events <$> other sequence) (other_events <$> other out).

(** Anchors ahead, spelled out. *)
Lemma anchor_ahead_spec rest :
  anchor_ahead rest = true
  <-> exists mid a behind,
        rest = mid ++ a :: behind
        /\ is_anchor a = true
        /\ Forall (fun e => is_time_shift e = false) mid.
Proof.
  induction rest as [|e rest IH]; simpl.
  - split; [done|]. intros (mid & a & behind & Heq & _). by destruct mid.
  - destruct (is_time_shift e) eqn:Hts.
    + split; [done|]. intros (mid & a & behind & Heq & Ha & Hmid).
      destruct mid as [|x mid]; simplify_eq/=.
      * by rewrite (time_shift_not_anchor _ Hts) in Ha.
      * apply Forall_cons in Hmid as [? _]. congruence.
    + destruct (is_anchor e) eqn:Han.
      * split; [|done]. intros _. by exists [], e, rest.
      * rewrite IH. split.
        -- intros (mid & a & behind & -> & Ha & Hmid).
           exists (e :: mid), a, behind. split_and!; [done..|].
           by apply Forall_cons.
        -- intros (mid & a & behind & Heq & Ha & Hmid).
           destruct mid as [|x mid]; simplify_eq/=; [congruence|].
           apply Forall_cons in Hmid as [_ ?]. by exists mid, a, behind.
Qed.

Lemma drop_shifts_length l :
  (length (drop_shifts_before_anchors l) <= length l)%nat.
Proof.
  induction l as [|e rest IH]; simpl; [done|].
  destruct (is_time_shift e && anchor_ahead rest); simpl; lia.
Qed.

(** A list that the sweep leaves alone: no time shift has an anchor ahead. *)
Definition settled (l : list Event) : Prop :=
  forall seen s behind,
    l = seen ++ s :: behind -> is_time_shift s = true -> anchor_ahead behind = false.

Lemma drop_shifts_fixed l : drop_shifts_before_anchors l = l <-> settled l.
Proof.
  unfold settled. induction l as [|e rest IH]; simpl.
  - split; [|done]. intros _ seen s behind Heq. by destruct seen.
  - destruct (is_time_shift e && anchor_ahead rest) eqn:Hdel.
    + split.
      * intros Heq. pose proof (drop_shifts_length rest) as Hlen.
        rewrite Heq in Hlen. simpl in Hlen. lia.
      * intros Hs. apply andb_true_iff in Hdel as [Hts Hah].
        specialize (Hs [] e rest eq_refl Hts). congruence.
    + split.
      * intros [= Heq]. pose proof (proj1 IH Heq) as Hrest.
        intros seen s behind Hl Hts. destruct seen as [|x seen]; simplify_eq/=.
        -- by rewrite Hts in Hdel.
        -- by eapply Hrest.
      * intros Hs. f_equal. apply IH. intros seen s behind -> Hts.
        by apply (Hs (e :: seen) s behind).
Qed.

Lemma drop_shifts_same_length l :
  length (drop_shifts_before_anchors l) = length l ->
  drop_shifts_before_anchors l = l.
Proof.
  induction l as [|e rest IH]; simpl; [done|].
  destruct (is_time_shift e && anchor_ahead rest); simpl.
  - pose proof (drop_shifts_length rest). lia.
  - intros [= Hlen]. by rewrite IH.
Qed.

Lemma anchor_ahead_app_shift seen s rest :
  is_time_shift s = true -> anchor_ahead (seen ++ s :: rest) = anchor_ahead seen.
Proof.
  intros Hts. induction seen as [|e seen IH]; simpl; [by rewrite Hts|].
  by rewrite IH.
Qed.

(** The sweep works on the stretches between time shifts independently. *)
Lemma drop_shifts_app_shift seen s rest :
  is_time_shift s = true ->
  drop_shifts_before_anchors (seen ++ s :: rest)
  = drop_shifts_before_anchors seen ++ drop_shifts_before_anchors (s :: rest).
Proof.
  intros Hts. induction seen as [|e seen IH]; [done|].
  cbn [app drop_shifts_before_anchors].
  rewrite anchor_ahead_app_shift, IH by done.
  by destruct (is_time_shift e && anchor_ahead seen).
Qed.

Lemma drop_shifts_no_shift mid rest :
  Forall (fun e => is_time_shift e = false) mid ->
  drop_shifts_before_anchors (mid ++ rest) = mid ++ drop_shifts_before_anchors rest.
Proof.
  induction 1 as [|e mid He _ IH]; [done|].
  cbn [app drop_shifts_before_anchors]. by rewrite He, IH.
Qed.

Lemma anchor_not_time_shift a : is_anchor a = true -> is_time_shift a = false.
Proof.
  intros Ha. destruct (is_time_shift a) eqn:Hts; [|done].
  by rewrite (time_shift_not_anchor _ Hts) in Ha.
Qed.

Lemma Forall2_diag {A} (R : A -> A -> Prop) (l : list A) :
  Forall2 R l l <-> Forall (fun x => R x x) l.
Proof.
  induction l as [|x l IH]; [by split; constructor|].
  rewrite Forall2_cons, Forall_cons. by rewrite IH.
Qed.

End TimeNormalizerFacts.

Section TimeNormalizerClaims.
Import TimeNormalizer TimeNormalizerFacts.

(** C4 (as amended): [_trim_time_shifts] rewrites every time shift of the
    window's main, pre-context and guide event lists to
    [int((value - start_time) * 0.1)], the step count truncated toward zero
    (not rounded to the nearest integer), leaves every other event as it
    is, and then runs the anchor sweep over each rewritten list. *)
Theorem trim_time_shifts_truncates (sequence : Sequence float) (out : Sequence unit) :
  trim_time_shifts sequence = Some out -> window_normalized sequence out.
Proof.
  unfold trim_time_shifts, window_normalized. intros H.
  destruct (process (events sequence) (time sequence)) as [ev|] eqn:Hev;
    simpl in H; [|done].
  apply process_normalized in Hev.
  destruct (pre_events sequence) as [pre|] eqn:Hpre; simpl in H.
  - destruct (process pre (time sequence)) as [pre'|] eqn:Hp; simpl in H; [|done].
    apply process_normalized in Hp.
    destruct (other sequence) as [g|] eqn:Hg; simpl in H.
    + destruct (process (other_events g) (time sequence)) as [oe|] eqn:Ho;
        simpl in H; [|done].
      apply process_normalized in Ho. simplify_eq/=.
      split_and!; [done|by constructor|by constructor].
    + simplify_eq/=. split_and!; [done|by constructor|by constructor].
  - destruct (other sequence) as [g|] eqn:Hg; simpl in H.
    + destruct (process (other_events g) (time sequence)) as [oe|] eqn:Ho;
        simpl in H; [|done].
      apply process_normalized in Ho. simplify_eq/=.
      split_and!; [done|by constructor|by constructor].
    + simplify_eq/=. split_and!; [done|by constructor|by constructor].
Qed.

(** C6 (as amended): the anchor sweep deletes, for an anchor, the nearest
    time shift before it in forward order (no other time shift lies
    between the two); it deletes exactly the time shifts so placed. The time
    shift that follows an anchor stays, unless an anchor lies ahead of it
    in the same way. *)
Theorem anchor_sweep_deletes_preceding_shift (l : list Event) :
  anchor_loop (length l) l false = Some (drop_shifts_before_anchors l)
  /\ (forall seen s mid a behind,
        l = seen ++ s :: mid ++ a :: behind ->
        is_time_shift s = true ->
        Forall (fun e => is_time_shift e = false) mid ->
        is_anchor a = true ->
        drop_shifts_before_anchors l
        = drop_shifts_before_anchors seen ++ mid
            ++ a :: drop_shifts_before_anchors behind)
  /\ (forall seen a s behind,
        l = seen ++ a :: s :: behind ->
        is_anchor a = true ->
        is_time_shift s = true ->
        anchor_ahead behind = false ->
        drop_shifts_before_anchors l
        = drop_shifts_before_anchors (seen ++ [a])
            ++ s :: drop_shifts_before_anchors behind).
Proof.
  split_and!.
  - apply anchor_loop_whole.
  - intros seen s mid a behind -> Hts Hmid Ha.
    rewrite drop_shifts_app_shift by done.
    cbn [drop_shifts_before_anchors]. rewrite Hts.
    assert (anchor_ahead (mid ++ a :: behind) = true) as ->.
    { apply anchor_ahead_spec. by exists mid, a, behind. }
    simpl. f_equal.
    rewrite drop_shifts_no_shift by done. f_equal.
    cbn [drop_shifts_before_anchors].
    by rewrite (anchor_not_time_shift a Ha).
  - intros seen a s behind -> Ha Hts Hah.
    replace (seen ++ a :: s :: behind) with ((seen ++ [a]) ++ s :: behind)
      by by rewrite <- (assoc_L (++)).
    rewrite drop_shifts_app_shift by done.
    cbn [drop_shifts_before_anchors]. by rewrite Hts, Hah.
Qed.

(** C7 (as amended): running [process] again with start time [0] leaves a
    list unchanged exactly when every time shift value [v] satisfies
    [int(v * 0.1) = v] and no time shift has an anchor ahead of it;
    otherwise the second run scales the values down again and deletes
    further time shifts. *)
Theorem renormalize_noop_iff (l : list Event) :
  process l Float64.zero = Some l
  <-> Forall (fun e => is_time_shift e = true ->
                       steps Float64.zero (value e) = Some (value e)) l
      /\ settled l.
Proof.
  rewrite process_eq, <- drop_shifts_fixed. split.
  - destruct (mapM _ l) as [rewritten|] eqn:Hm; simpl; [|done].
    intros [= Hd]. apply mapM_Some_1 in Hm.
    assert (rewritten = l) as ->.
    { rewrite <- Hd. symmetry. apply drop_shifts_same_length.
      rewrite Hd. by eapply Forall2_length. }
    split; [|done]. apply Forall2_diag in Hm.
    eapply Forall_impl; [done|]. intros e He Hts. simpl in He.
    rewrite rewrite_event_shift in He by done.
    destruct (steps _ _) as [v|]; simpl in He; [|done].
    by simplify_eq/=.
  - intros [Hv Hs].
    rewrite (mapM_Some_2 (rewrite_event Float64.zero) l l); [by simpl; f_equal|].
    apply Forall2_diag. eapply Forall_impl; [done|]. intros e He. simpl in He.
    destruct (is_time_shift e) eqn:Hts.
    + rewrite rewrite_event_shift, He by done. simpl.
      destruct e as [ty v]. unfold is_time_shift in Hts.
      apply bool_decide_eq_true in Hts. simpl in *. by subst.
    + by rewrite rewrite_event_other.
Qed.

Lemma trim_time_shifts_truncates_witness :
  trim_time_shifts window_17 = Some window_17_trimmed
  /\ window_normalized window_17 window_17_trimmed.
Proof.
  split; [vm_compute; reflexivity|].
  apply (trim_time_shifts_truncates window_17 window_17_trimmed).
  vm_compute; reflexivity.
Defined.

(** C4 as stated fails: a time shift at 17 ms in a window that starts at
    0 ms becomes step 1, where rounding 1.7 would give 2. *)
Lemma time_shift_not_rounded :
  process [mkEvent TIME_SHIFT 17] Float64.zero = Some [mkEvent TIME_SHIFT 1]
  /\ spec_round_steps Float64.zero 17 = Some 2.
Proof. split; vm_compute; reflexivity. Qed.

Lemma anchor_sweep_deletes_preceding_shift_witness :
  drop_shifts_before_anchors
    [mkEvent TIME_SHIFT 10; mkEvent (OTHER_TYPE 0) 7; mkEvent BEZIER_ANCHOR 0;
     mkEvent TIME_SHIFT 20]
  = [mkEvent (OTHER_TYPE 0) 7; mkEvent BEZIER_ANCHOR 0; mkEvent TIME_SHIFT 20].
Proof.
  destruct (anchor_sweep_deletes_preceding_shift
              [mkEvent TIME_SHIFT 10; mkEvent (OTHER_TYPE 0) 7;
               mkEvent BEZIER_ANCHOR 0; mkEvent TIME_SHIFT 20]) as (_ & H & _).
  apply (H [] (mkEvent TIME_SHIFT 10) [mkEvent (OTHER_TYPE 0) 7]
           (mkEvent BEZIER_ANCHOR 0) [mkEvent TIME_SHIFT 20]).
  - reflexivity.
  - reflexivity.
  - repeat constructor.
  - reflexivity.
Defined.

(** C6 as stated fails: in [shift, anchor, shift] the sweep deletes the
    shift before the anchor and keeps the one that follows it. *)
Lemma shift_after_anchor_survives :
  anchor_loop 3 [mkEvent TIME_SHIFT 10; mkEvent BEZIER_ANCHOR 0; mkEvent TIME_SHIFT 20]
              false
  = Some [mkEvent BEZIER_ANCHOR 0; mkEvent TIME_SHIFT 20]
  /\ spec_drop_shift_after_anchor
       [mkEvent TIME_SHIFT 10; mkEvent BEZIER_ANCHOR 0; mkEvent TIME_SHIFT 20]
     = [mkEvent TIME_SHIFT 10; mkEvent BEZIER_ANCHOR 0].
Proof. split; vm_compute; reflexivity. Qed.

Lemma renormalize_noop_iff_witness :
  process [mkEvent TIME_SHIFT 0; mkEvent (OTHER_TYPE 0) 5] Float64.zero
  = Some [mkEvent TIME_SHIFT 0; mkEvent (OTHER_TYPE 0) 5].
Proof.
  apply (proj2 (renormalize_noop_iff
                  [mkEvent TIME_SHIFT 0; mkEvent (OTHER_TYPE 0) 5])).
  split.
  - repeat constructor. intros H; vm_compute in H; discriminate H.
  - apply drop_shifts_fixed. reflexivity.
Defined.

(** C7 as stated fails: a second run with start time [0] on a normalized
    list scales the remaining shift down again and deletes it, as it now
    is the nearest shift before the anchor. *)
Lemma renormalize_changes_window :
  process [mkEvent TIME_SHIFT 100; mkEvent TIME_SHIFT 205; mkEvent BEZIER_ANCHOR 0]
          Float64.zero
  = Some [mkEvent TIME_SHIFT 10; mkEvent BEZIER_ANCHOR 0]
  /\ process [mkEvent TIME_SHIFT 10; mkEvent BEZIER_ANCHOR 0] Float64.zero
     = Some [mkEvent BEZIER_ANCHOR 0]
  /\ process [mkEvent TIME_SHIFT 10] Float64.zero = Some [mkEvent TIME_SHIFT 1].
Proof. split_and!; vm_compute; reflexivity. Qed.

End TimeNormalizerClaims.

(** ** The interleaving multiplexer *)

Module InterleavingFacts.
Import Interleaving.
Section Items.
Context {A : Type}.
Implicit Types (ws : list (Worker A)) (w : Worker A).

(** With distinct identities, [remove] takes out the slot it was given. *)
Lemma remove_at ws i w :
  NoDup (ident <$> ws) -> ws !! i = Some w -> remove w ws = Some (delete i ws).
Proof.
  revert i. induction ws as [|w0 ws IH]; intros i Hnd Hi; [done|].
  apply NoDup_cons in Hnd as [Hw0 Hnd].
  destruct i as [|i]; simpl in *.
  - simplify_eq. by rewrite decide_True.
  - rewrite decide_False.
    + by rewrite (IH i).
    + intros Heq. apply Hw0. rewrite Heq.
      apply list_elem_of_fmap. exists w. split; [done|].
      by eapply list_elem_of_lookup_2.
Qed.

Lemma all_pending_delete ws i w :
  ws !! i = Some w -> pending w = [] ->
  all_pending (delete i ws) = all_pending ws.
Proof.
  intros Hi Hw. unfold all_pending.
  rewrite <- (take_drop_middle ws i w Hi) at 2.
  rewrite delete_take_drop, !fmap_app, !concat_app. simpl. by rewrite Hw.
Qed.

Lemma all_pending_insert ws i w item rest :
  ws !! i = Some w -> pending w = item :: rest ->
  all_pending ws ≡ₚ item :: all_pending (<[i := mkWorker (ident w) rest]> ws).
Proof.
  intros Hi Hw. unfold all_pending.
  rewrite <- (take_drop_middle ws i w Hi) at 1.
  rewrite insert_take_drop by by eapply lookup_lt_Some.
  rewrite !fmap_app, !concat_app. simpl. rewrite Hw. simpl.
  symmetry. apply Permutation_middle.
Qed.

Lemma ident_insert ws i w rest :
  ws !! i = Some w ->
  ident <$> <[i := mkWorker (ident w) rest]> ws = ident <$> ws.
Proof.
  intros Hi. rewrite list_fmap_insert. simpl.
  apply list_insert_id. by rewrite list_lookup_fmap, Hi.
Qed.

Lemma ident_delete_NoDup ws i :
  NoDup (ident <$> ws) -> NoDup (ident <$> delete i ws).
Proof.
  intros Hnd. eapply sublist_NoDup; [done|].
  apply fmap_sublist, sublist_delete.
Qed.

(** One call of [__next__]: either it hands out an item that was pending
    and keeps the rest, or nothing was pending and no worker is left. *)
Definition next_ok ws (r : Result A * t A) : Prop :=
  match r with
  | (Item item, self') =>
      all_pending ws ≡ₚ item :: all_pending (workers self')
      /\ NoDup (ident <$> workers self')
  | (StopIteration, self') => all_pending ws = [] /\ workers self' = []
  | (OtherError, _) => False
  end.

Lemma next_loop_ok num ws index :
  length ws = num -> NoDup (ident <$> ws) -> next_ok ws (next_loop num ws index).
Proof.
  revert ws index. induction num as [|num IH]; intros ws index Hlen Hnd.
  - by destruct ws.
  - cbn [next_loop]. rewrite decide_False by lia.
    destruct (lookup_lt_is_Some_2 ws (index `mod` length ws)%nat) as [w Hw].
    { apply Nat.mod_upper_bound. lia. }
    rewrite Hw. destruct (pending w) as [|item rest] eqn:Hp.
    + rewrite (remove_at ws _ w Hnd Hw).
      assert (length (delete (index `mod` length ws)%nat ws) = num) as Hlen'.
      { rewrite length_delete by done. lia. }
      specialize (IH _ (index `mod` length ws)%nat Hlen'
                     (ident_delete_NoDup _ _ Hnd)).
      unfold next_ok in *.
      by rewrite (all_pending_delete ws _ w Hw Hp) in IH.
    + simpl. split; [by apply all_pending_insert|].
      by rewrite ident_insert.
Qed.

Lemma next_step_ok (self : t A) :
  NoDup (ident <$> workers self) -> next_ok (workers self) (next self).
Proof. intros Hnd. by apply next_loop_ok. Qed.

(** The consumer's loop ends regularly once the fuel exceeds the number
    of pending items, with every pending item handed out once. *)
Lemma drain_ok fuel (self : t A) :
  NoDup (ident <$> workers self) ->
  (length (all_pending (workers self)) < fuel)%nat ->
  exists items final,
    drain fuel self = (items, Exhausted final)
    /\ items ≡ₚ all_pending (workers self)
    /\ workers final = [].
Proof.
  revert self. induction fuel as [|fuel IH]; intros self Hnd Hfuel; [lia|].
  pose proof (next_step_ok self Hnd) as Hok. cbn [drain].
  destruct (next self) as [[item| |] self']; simpl in Hok; [| |done].
  - destruct Hok as [Hperm Hnd'].
    destruct (IH self' Hnd') as (items & final & Hd & Hp & Hf).
    { apply Permutation_length in Hperm. simpl in Hperm. lia. }
    rewrite Hd. exists (item :: items), final.
    split_and!; [done| |done]. by rewrite Hperm, Hp.
  - destruct Hok as [Hnil Hws]. exists [], self'. by rewrite Hnil.
Qed.

End Items.
End InterleavingFacts.

Section InterleavingClaims.
Import Interleaving InterleavingFacts.

(** C8: sub-iterators (distinct generator objects) with [T] items to
    yield in total: at most [T + 1] calls of [__next__] hand out every one
    of the [T] items exactly once (the items yielded are a permutation of
    the items pending) and then raise [StopIteration]; no other error is
    raised, no worker is left, and a further call raises [StopIteration]
    again. This holds from every value of [index] and for every way the
    items are spread over the workers. *)
Theorem interleaving_yields_all_once {A} (self : Interleaving.t A) :
  NoDup (ident <$> workers self) ->
  exists items final,
    drain (S (length (all_pending (workers self)))) self = (items, Exhausted final)
    /\ items ≡ₚ all_pending (workers self)
    /\ workers final = []
    /\ (next final).1 = StopIteration.
Proof.
  intros Hnd.
  destruct (drain_ok (S (length (all_pending (workers self)))) self Hnd)
    as (items & final & Hd & Hp & Hf); [lia|].
  exists items, final. split_and!; [done..|].
  unfold next. by rewrite Hf.
Qed.

Lemma interleaving_yields_all_once_witness :
  exists items final,
    drain 7 (mk [mkWorker 0 [1; 2; 3]; mkWorker 1 []; mkWorker 2 [10; 11; 12]] 0%nat)
    = (items, Exhausted final)
    /\ items ≡ₚ [1; 2; 3; 10; 11; 12]
    /\ workers final = []
    /\ (next final).1 = StopIteration.
Proof.
  apply (interleaving_yields_all_once
           (mk [mkWorker 0 [1; 2; 3]; mkWorker 1 []; mkWorker 2 [10; 11; 12]] 0%nat)).
  simpl.
  repeat (apply NoDup_cons; split; [rewrite ?elem_of_cons, elem_of_nil; lia|]).
  apply NoDup_nil_2.
Defined.

End InterleavingClaims.

(** ** Frames: segmenting, windowing and padding *)

Module FrameFacts.

Lemma clamp_index_range len i :
  0 <= len -> 0 <= Py.clamp_index len i <= len.
Proof. unfold Py.clamp_index. intros. destruct (Z.ltb_spec i 0); lia. Qed.

Lemma slice_length {A} (l : list A) a b :
  Z.of_nat (length (Py.slice l a b))
  = Z.max 0 (Py.clamp_index (Z.of_nat (length l)) b
             - Py.clamp_index (Z.of_nat (length l)) a).
Proof.
  unfold Py.slice. rewrite length_take, length_drop.
  pose proof (clamp_index_range (Z.of_nat (length l)) a).
  pose proof (clamp_index_range (Z.of_nat (length l)) b).
  lia.
Qed.

Lemma slice_Forall {A} (P : A -> Prop) (l : list A) a b :
  Forall P l -> Forall P (Py.slice l a b).
Proof. intros H. unfold Py.slice. by apply Forall_take, Forall_drop. Qed.

(** Reading a slice is reading the list from the slice's lower bound on. *)
Lemma slice_lookup {A} (l : list A) a b j x :
  Py.slice l a b !! j = Some x ->
  l !! (Z.to_nat (Py.clamp_index (Z.of_nat (length l)) a) + j)%nat = Some x.
Proof.
  unfold Py.slice. intros H.
  apply lookup_take_Some in H as [H _]. by rewrite lookup_drop in H.
Qed.

Lemma concat_length_uniform {A} (ls : list (list A)) c :
  Forall (fun r => length r = c) ls -> length (concat ls) = (length ls * c)%nat.
Proof.
  induction 1 as [|r ls Hr _ IH]; [done|].
  simpl. rewrite length_app, Hr, IH. lia.
Qed.

Lemma reshape_spec samples hop_length frames :
  0 < hop_length ->
  FrameSegmenter.reshape samples hop_length = Some frames ->
  ncols frames = Z.to_nat hop_length
  /\ Array2_wf frames
  /\ Z.of_nat (length (rows frames)) = Z.of_nat (length samples) `div` hop_length.
Proof.
  intros Hhop. unfold FrameSegmenter.reshape.
  destruct (Z.eqb_spec (Z.of_nat (length samples) `mod` hop_length) 0) as [Hmod|];
    [|done].
  intros [= <-]. unfold Array2_wf. simpl. split_and!; [done| |].
  - apply Forall_fmap, Forall_seq. intros i Hi. simpl.
    rewrite length_take, length_drop.
    pose proof (Z.mul_div_le (Z.of_nat (length samples)) hop_length Hhop).
    assert (0 <= Z.of_nat (length samples) `div` hop_length)
      by (apply Z.div_pos; lia).
    nia.
  - rewrite length_fmap, length_seq.
    rewrite Z2Nat.id; [done|]. apply Z.div_pos; lia.
Qed.

(** What [_get_frames] returns: rows of [hop_length] samples, one more than
    the whole number of hops in the input, and a time for every row. *)
Lemma get_frames_spec self samples frames frame_times :
  FrameSegmenter.get_frames self samples = Some (frames, frame_times) ->
  0 < Args.hop_length (It.args self)
  /\ ncols frames = Z.to_nat (Args.hop_length (It.args self))
  /\ Array2_wf frames
  /\ Z.of_nat (length (rows frames))
     = Z.of_nat (length samples) `div` Args.hop_length (It.args self) + 1
  /\ length frame_times = length (rows frames).
Proof.
  unfold FrameSegmenter.get_frames.
  set (hop := Args.hop_length (It.args self)).
  destruct (Z.eqb_spec hop 0) as [|Hne]; [done|].
  destruct (Z.ltb_spec (hop - Z.of_nat (length samples) `mod` hop) 0) as [|Hpad];
    [done|].
  assert (0 < hop) as Hpos.
  { destruct (Z.lt_trichotomy hop 0) as [Hneg|[?|?]]; [|done..].
    pose proof (Z.mod_neg_bound (Z.of_nat (length samples)) hop Hneg). lia. }
  pose proof (Z.mod_pos_bound (Z.of_nat (length samples)) hop Hpos) as Hmod.
  destruct (FrameSegmenter.reshape _ hop) as [fr|] eqn:Hr; simpl; [|done].
  destruct (Float64.int_truediv _ hop) as [fps|]; simpl; [|done].
  intros [= <- <-].
  apply reshape_spec in Hr as (Hc & Hwf & Hlen); [|done].
  split_and!; [done..| |by rewrite length_fmap, length_seq].
  rewrite Hlen, length_app, length_replicate.
  rewrite Nat2Z.inj_add, Z2Nat.id by lia.
  rewrite (Z.div_mod (Z.of_nat (length samples)) hop) at 1 by lia.
  replace (hop * (Z.of_nat (length samples) `div` hop)
           + Z.of_nat (length samples) `mod` hop
           + (hop - Z.of_nat (length samples) `mod` hop))
    with ((Z.of_nat (length samples) `div` hop + 1) * hop) by lia.
  by rewrite Z.div_mul by lia.
Qed.

(** Every start index that [range(offset, n_frames, step)] visits. *)
Lemma py_range_bounds start stop step l :
  0 < step -> py_range start stop step = Some l ->
  Forall (fun x => start <= x < stop) l.
Proof.
  intros Hstep. unfold py_range.
  destruct (Z.eqb_spec step 0); [lia|].
  destruct (Z.ltb_spec 0 step); [|lia].
  intros [= <-]. apply Forall_fmap, Forall_seq. intros k Hk. simpl.
  set (count := (stop - start + step - 1) `div` step) in *.
  pose proof (Z.mul_div_le (stop - start + step - 1) step Hstep).
  assert (Z.of_nat k < count) by lia.
  nia.
Qed.

End FrameFacts.

(** ** Token packing *)

Module PackFacts.

Lemma full_length size fill t :
  Torch.full size fill = Some t -> Z.of_nat (length t) = size /\ t = replicate (Z.to_nat size) fill.
Proof.
  unfold Torch.full. destruct (Z.ltb_spec size 0); [done|].
  intros [= <-]. rewrite length_replicate. split; [lia|done].
Qed.

Lemma setitem_length {A} (l : list A) i x l' :
  Py.setitem l i x = Some l' -> length l' = length l.
Proof.
  unfold Py.setitem. destruct (Py.index_of _ i); simpl; [|done].
  intros [= <-]. apply length_insert.
Qed.

Lemma setslice_length t a b src t' :
  Torch.setslice t a b src = Some t' -> length t' = length t.
Proof.
  unfold Torch.setslice.
  pose proof (FrameFacts.clamp_index_range (Z.of_nat (length t)) a).
  pose proof (FrameFacts.clamp_index_range (Z.of_nat (length t)) b).
  set (lo := Py.clamp_index (Z.of_nat (length t)) a) in *.
  set (hi := Py.clamp_index (Z.of_nat (length t)) b) in *.
  case_decide as Hlen.
  - intros [= <-]. rewrite !length_app, length_take, length_drop. lia.
  - destruct src as [|x [|]]; [done| |done].
    intros [= <-].
    rewrite !length_app, length_take, length_drop, length_replicate. lia.
Qed.

Lemma write_side_tokens_length args t start_index dt bt t' :
  write_side_tokens args t start_index dt bt = Some t' -> length t' = length t.
Proof.
  unfold write_side_tokens. intros H.
  destruct (0 <=? Args.diff_token_index args).
  - destruct (Py.setitem t _ dt) as [t1|] eqn:H1; simpl in H; [|done].
    apply setitem_length in H1. rewrite <- H1.
    destruct (0 <=? Args.style_token_index args); [|congruence].
    by apply setitem_length in H.
  - simpl in H. destruct (0 <=? Args.style_token_index args); [|congruence].
    by apply setitem_length in H.
Qed.

(** The input ids as the jitter leaves them: [offset] is the drawn offset,
    and nothing changes unless [timing_random_offset] is positive. *)
Definition jittered (self : It.t) (offset x : Z) : Z :=
  if 0 <? Args.timing_random_offset (It.args self)
  then jitter (It.tokenizer self) offset x
  else x.

(** [offset] is what the jitter of a window with the draws [d] drew:
    [random.randint(-timing_random_offset, frame_seq_len)], drawn only when
    [timing_random_offset] is positive. *)
Definition drawn_offset (self : It.t) (d : Draws) (offset : Z) : Prop :=
  0 < Args.timing_random_offset (It.args self) ->
  Random.randint (- Args.timing_random_offset (It.args self))
                 (It.frame_seq_len self) (raw_jitter d) = Some offset
  /\ - Args.timing_random_offset (It.args self) <= offset <= It.frame_seq_len self.

Lemma randint_range a b raw x :
  Random.randint a b raw = Some x -> a <= x <= b.
Proof.
  unfold Random.randint. destruct (Z.ltb_spec b a); [done|].
  intros [= <-]. pose proof (Z.mod_pos_bound raw (b - a + 1)). lia.
Qed.

(** What [pack] has done when it returns: the last two writes put the main
    tokens and their successors at the same positions of the two buffers,
    and the jitter then maps the input ids by the drawn offset. *)
Lemma pack_inv self sequence d pre oth n m o start_index input_tokens label_tokens ex :
  pack self sequence d pre oth n m o start_index input_tokens label_tokens = Some ex ->
  let stl := Args.special_token_len (It.args self) in
  let a := start_index + o + m + stl in
  exists base inputs offset,
    length base = length input_tokens
    /\ Torch.setslice base a (a + n) (Py.slice_to (tokens sequence) n) = Some inputs
    /\ Torch.setslice label_tokens a (a + n) (Py.slice (tokens sequence) 1 (n + 1))
       = Some (labels ex)
    /\ decoder_input_ids ex = jittered self offset <$> inputs
    /\ decoder_attention_mask ex
       = (fun x => negb (x =? Tok.pad_id (It.tokenizer self))) <$> decoder_input_ids ex
    /\ ex_frames ex = tk_frames sequence
    /\ ex_beatmap_idx ex = tk_beatmap_idx sequence
    /\ drawn_offset self d offset.
Proof.
  unfold pack. intros H. cbn zeta.
  match type of H with (?e ≫= _) = _ => destruct e as [t1|] eqn:H1 end;
    simpl in H; [|done].
  assert (length t1 = length input_tokens) as Hl1.
  { destruct (0 <? o); [|congruence].
    destruct (tk_other sequence) as [g|]; simpl in H1; [|done].
    destruct (write_side_tokens _ _ _ _ _) as [t0|] eqn:H0; simpl in H1; [|done].
    apply write_side_tokens_length in H0. rewrite <- H0.
    destruct (_ <? o); [|congruence]. by apply setslice_length in H1. }
  destruct (write_side_tokens _ t1 _ _ _) as [t2|] eqn:H2; simpl in H; [|done].
  apply write_side_tokens_length in H2.
  match type of H with (?e ≫= _) = _ => destruct e as [t3|] eqn:H3 end;
    simpl in H; [|done].
  assert (length t3 = length t2) as Hl3.
  { destruct (0 <? m); [|congruence]. by apply setslice_length in H3. }
  destruct (Torch.setslice t3 _ _ _) as [t4|] eqn:H4; simpl in H; [|done].
  destruct (Torch.setslice label_tokens _ _ _) as [lab|] eqn:H5; simpl in H; [|done].
  unfold jittered, drawn_offset.
  destruct (Z.ltb_spec 0 (Args.timing_random_offset (It.args self))).
  - destruct (Random.randint _ _ _) as [offset|] eqn:Hdraw; simpl in H; [|done].
    simplify_eq/=. exists t3, t4, offset. split_and!; try done; [congruence|].
    intros _. split; [done|]. by apply randint_range in Hdraw.
  - simplify_eq/=. exists t3, t4, 0. split_and!; try done; [congruence| |lia].
    by rewrite list_fmap_id.
Qed.

(** The shape of a tensor after a slice assignment. *)
Lemma setslice_result t a b src t' :
  Torch.setslice t a b src = Some t' ->
  let lo := Z.to_nat (Py.clamp_index (Z.of_nat (length t)) a) in
  let k := Z.to_nat (Py.clamp_index (Z.of_nat (length t)) b
                     - Py.clamp_index (Z.of_nat (length t)) a) in
  exists mid,
    length mid = k
    /\ (lo + k <= length t)%nat
    /\ t' = take lo t ++ mid ++ drop (lo + k) t
    /\ (mid = src \/ exists x, src = [x] /\ mid = replicate k x).
Proof.
  unfold Torch.setslice. cbn zeta.
  pose proof (FrameFacts.clamp_index_range (Z.of_nat (length t)) a).
  pose proof (FrameFacts.clamp_index_range (Z.of_nat (length t)) b).
  case_decide as Hlen.
  - intros [= <-]. exists src. split_and!; [done|lia|done|by left].
  - destruct src as [|x [|]]; [done| |done].
    intros [= <-]. eexists. split_and!; [apply length_replicate|lia|done|].
    right. by exists x.
Qed.

(** Reading a tensor after a slice assignment: outside the slice it is the
    old tensor, inside it is the middle part. *)
Lemma lookup_spliced {A} (t mid : list A) lo k i :
  length mid = k ->
  (lo + k <= length t)%nat ->
  (take lo t ++ mid ++ drop (lo + k) t) !! i
  = if decide (lo <= i < lo + k)%nat then mid !! (i - lo)%nat else t !! i.
Proof.
  intros <- Hle.
  destruct (decide (i < lo)%nat) as [Hlt|Hge].
  - rewrite lookup_app_l by (rewrite length_take; lia).
    rewrite lookup_take_lt by done. by rewrite decide_False by lia.
  - rewrite lookup_app_r by (rewrite length_take; lia).
    rewrite length_take, Nat.min_l by lia.
    destruct (decide (i < lo + length mid)%nat) as [Hin|Hout].
    + rewrite lookup_app_l by lia. by rewrite decide_True by lia.
    + rewrite lookup_app_r by lia. rewrite lookup_drop, decide_False by lia.
      f_equal. lia.
Qed.

(** The width of the slice [a : a + n] is at most [n]. *)
Lemma slice_width_le len a n :
  0 <= len -> 0 <= n ->
  Py.clamp_index len (a + n) - Py.clamp_index len a <= n.
Proof.
  unfold Py.clamp_index. intros.
  destruct (Z.ltb_spec (a + n) 0), (Z.ltb_spec a 0); lia.
Qed.

(** The next-token relation between the two buffers, on the positions of
    the main segment: where a label and the label after it were both
    written, the input id after the first is the token of that label. *)
Lemma main_segment_shift (T base : list Z) (size : nat) (a n : Z) (I L : list Z) :
  length base = size ->
  Torch.setslice base a (a + n) (Py.slice_to T n) = Some I ->
  Torch.setslice (replicate size LABEL_IGNORE_ID) a (a + n) (Py.slice T 1 (n + 1))
  = Some L ->
  n <= Z.of_nat (length T) - 1 ->
  (n < 0 ->
   Py.clamp_index (Z.of_nat size) (a + n) - Py.clamp_index (Z.of_nat size) a <= 1) ->
  forall i x y,
    L !! i = Some x -> x <> LABEL_IGNORE_ID ->
    L !! S i = Some y -> y <> LABEL_IGNORE_ID ->
    I !! S i = Some x.
Proof.
  intros Hbase HI HL Hn Hneg i x y Hx Hxi Hy Hyi.
  apply setslice_result in HI as (midI & HlenI & HleI & -> & HmidI).
  apply setslice_result in HL as (midL & HlenL & HleL & -> & HmidL).
  cbn zeta in *. rewrite Hbase in *. rewrite length_replicate in *.
  set (lo := Z.to_nat (Py.clamp_index (Z.of_nat size) a)) in *.
  set (k := Z.to_nat (Py.clamp_index (Z.of_nat size) (a + n)
                      - Py.clamp_index (Z.of_nat size) a)) in *.
  rewrite (lookup_spliced _ _ _ k) in Hx, Hy
    by (rewrite ?length_replicate; done || lia).
  destruct (decide (lo <= i < lo + k)%nat) as [Hi|];
    [|by apply lookup_replicate_1 in Hx as [? _]].
  destruct (decide (lo <= S i < lo + k)%nat) as [HSi|];
    [|by apply lookup_replicate_1 in Hy as [? _]].
  assert (0 <= n) as Hn0.
  { destruct (Z.lt_ge_cases n 0) as [Hlt|]; [|done]. specialize (Hneg Hlt). lia. }
  pose proof (slice_width_le (Z.of_nat size) a n ltac:(lia) Hn0) as Hk.
  pose proof (FrameFacts.slice_length T 0 n) as HsI.
  pose proof (FrameFacts.slice_length T 1 (n + 1)) as HsL.
  unfold Py.clamp_index in HsI, HsL.
  destruct (Z.ltb_spec n 0); [lia|].
  destruct (Z.ltb_spec (n + 1) 0); [lia|].
  simpl in HsI, HsL.
  assert (midI = Py.slice_to T n) as HeqI.
  { destruct HmidI as [->|(z & Hsrc & _)]; [done|].
    unfold Py.slice_to in *. rewrite Hsrc in HsI. simpl in HsI. lia. }
  assert (midL = Py.slice T 1 (n + 1)) as HeqL.
  { destruct HmidL as [->|(z & Hsrc & _)]; [done|].
    rewrite Hsrc in HsL. simpl in HsL. lia. }
  rewrite (lookup_spliced _ _ _ k) by (done || lia).
  rewrite decide_True by done.
  subst midI midL.
  apply FrameFacts.slice_lookup in Hx.
  unfold Py.clamp_index in Hx. simpl in Hx.
  assert (Py.slice_to T n !! (S i - lo)%nat = T !! (S i - lo)%nat) as ->.
  { unfold Py.slice_to, Py.slice, Py.clamp_index.
    destruct (Z.ltb_spec n 0); [lia|]. change (0 <? 0) with false. cbn iota.
    replace (Z.to_nat (0 `min` Z.of_nat (length T))) with 0%nat by lia.
    rewrite drop_0. apply lookup_take_lt. lia. }
  rewrite <- Hx. f_equal. lia.
Qed.

(** The slots that [__init__] sets and nothing changes afterwards. *)
Definition initialized (self : It.t) : Prop :=
  It.frame_seq_len self = Args.src_seq_len (It.args self) - 1
  /\ It.min_pre_token_len self = 4
  /\ It.pre_token_len self = Args.tgt_seq_len (It.args self) `div` 2.

Lemma init_initialized args tokenizer test :
  initialized (It.init args tokenizer test).
Proof. done. Qed.

Lemma num_pre_tokens_nonneg args pre : 0 <= num_pre_tokens args pre.
Proof.
  unfold num_pre_tokens.
  destruct (Args.add_pre_tokens args), (Z.ltb_spec 0 (Args.max_pre_token_len args));
    lia.
Qed.

(** The main segment never leaves room for two labels when the budget [n]
    is negative, and [n] never exceeds the number of tokens after [SOS]. *)
Lemma budget_main_segment self len_tokens npre nother :
  It.min_pre_token_len self = 4 ->
  2 <= len_tokens ->
  0 <= npre ->
  0 <= Args.tgt_seq_len (It.args self) ->
  nother = 0 \/ Args.special_token_len (It.args self) <= nother ->
  let b := budget self len_tokens npre nother in
  let n := b.1.1.1 in
  let a := b.2 + b.1.2 + b.1.1.2 + Args.special_token_len (It.args self) in
  n <= len_tokens - 1
  /\ (n < 0 ->
      Py.clamp_index (Args.tgt_seq_len (It.args self)) (a + n)
      - Py.clamp_index (Args.tgt_seq_len (It.args self)) a <= 1).
Proof.
  intros Hmin Hlen Hpre Htgt Hother. unfold budget. rewrite Hmin.
  destruct (Args.center_pad_decoder (It.args self)); cbn zeta; simpl;
    unfold Py.clamp_index.
  - split; [lia|]. intros Hn.
    repeat match goal with |- context [Z.ltb ?u ?v] => destruct (Z.ltb_spec u v) end;
      lia.
  - split; [lia|]. intros Hn.
    repeat match goal with |- context [Z.ltb ?u ?v] => destruct (Z.ltb_spec u v) end;
      lia.
Qed.

(** The lengths of the packed tensors, and the fields that are carried over. *)
Lemma pad_and_split_lengths self sequence d ex :
  pad_and_split_token_sequence self sequence d = Some ex ->
  Z.of_nat (length (decoder_input_ids ex)) = Args.tgt_seq_len (It.args self)
  /\ Z.of_nat (length (labels ex)) = Args.tgt_seq_len (It.args self)
  /\ Z.of_nat (length (decoder_attention_mask ex)) = Args.tgt_seq_len (It.args self)
  /\ ex_frames ex = tk_frames sequence
  /\ ex_beatmap_idx ex = tk_beatmap_idx sequence.
Proof.
  unfold pad_and_split_token_sequence. intros H.
  destruct (Torch.full _ (Tok.pad_id _)) as [inp|] eqn:Hinp; simpl in H; [|done].
  destruct (Torch.full _ LABEL_IGNORE_ID) as [lab|] eqn:Hlab; simpl in H; [|done].
  apply full_length in Hinp as [Hinp _]. apply full_length in Hlab as [Hlab _].
  apply pack_inv in H
    as (base & inputs & offset & Hb & HI & HL & Hids & Hmask & Hfr & Hidx & _).
  apply setslice_length in HI, HL.
  rewrite Hmask, Hids, !length_fmap. split_and!; [lia..|done|done].
Qed.

(** The next-token relation of one packed window. *)
Lemma pad_and_split_shift self sequence d ex :
  It.min_pre_token_len self = 4 ->
  (2 <= length (tokens sequence))%nat ->
  pad_and_split_token_sequence self sequence d = Some ex ->
  exists offset,
    drawn_offset self d offset
    /\ forall i x y,
         labels ex !! i = Some x -> x <> LABEL_IGNORE_ID ->
         labels ex !! S i = Some y -> y <> LABEL_IGNORE_ID ->
         decoder_input_ids ex !! S i = Some (jittered self offset x).
Proof.
  intros Hmin Htok. unfold pad_and_split_token_sequence. intros H.
  destruct (Torch.full _ (Tok.pad_id _)) as [inp|] eqn:Hinp; simpl in H; [|done].
  destruct (Torch.full _ LABEL_IGNORE_ID) as [lab|] eqn:Hlab; simpl in H; [|done].
  apply full_length in Hinp as [Hinp _]. apply full_length in Hlab as [Hlab ->].
  apply pack_inv in H
    as (base & inputs & offset & Hb & HI & HL & Hids & _ & _ & _ & Hdraw).
  exists offset. split; [done|]. intros i x y Hx Hxi Hy Hyi.
  rewrite Hids, list_lookup_fmap.
  set (npre := num_pre_tokens _ _) in *.
  set (nother := match tk_other sequence with Some _ => _ | None => _ end) in *.
  destruct (budget_main_segment self (Z.of_nat (length (tokens sequence))) npre nother)
    as [Hn Hneg]; [done|lia|apply num_pre_tokens_nonneg|lia| |].
  { subst nother. destruct (tk_other sequence); [right; lia|by left]. }
  cbn zeta in Hn, Hneg.
  erewrite (main_segment_shift (tokens sequence) base _ _ _ inputs (labels ex));
    [done| |done|done|done| |done|done|done|done].
  - rewrite Hb. apply Nat2Z.inj. rewrite Hinp. by rewrite Z2Nat.id by lia.
  - by rewrite Z2Nat.id by lia.
Qed.

End PackFacts.

(** ** The pipeline of [_get_next_beatmap] *)

Module PipelineFacts.
Import FrameFacts PackFacts.

(** The slots that the loop never assigns. *)
Definition same_config (self0 self : It.t) : Prop :=
  It.args self = It.args self0
  /\ It.tokenizer self = It.tokenizer self0
  /\ It.frame_seq_len self = It.frame_seq_len self0
  /\ It.min_pre_token_len self = It.min_pre_token_len self0
  /\ It.pre_token_len self = It.pre_token_len self0.

Lemma same_config_refl self : same_config self self.
Proof. done. Qed.

Lemma same_config_trans self0 self1 self2 :
  same_config self0 self1 -> same_config self1 self2 -> same_config self0 self2.
Proof. unfold same_config. intuition congruence. Qed.

Lemma maybe_change_dataset_config self shared :
  same_config self (maybe_change_dataset self shared).
Proof.
  unfold maybe_change_dataset. destruct shared as [step|]; [|done].
  by repeat case_match.
Qed.

(** A window whose frames are rows of [hop_length] samples, at most
    [frame_seq_len] of them. *)
Definition window_ok (self : It.t) (sequence : Sequence float) : Prop :=
  Array2_wf (frames sequence)
  /\ ncols (frames sequence) = Z.to_nat (Args.hop_length (It.args self))
  /\ 0 < Args.hop_length (It.args self)
  /\ Z.of_nat (length (rows (frames sequence))) <= It.frame_seq_len self.

Lemma trim_time_shifts_keeps sequence out :
  trim_time_shifts sequence = Some out ->
  frames out = frames sequence /\ beatmap_idx out = beatmap_idx sequence.
Proof.
  unfold trim_time_shifts. intros H.
  destruct (TimeNormalizer.process (events sequence) _); simpl in H; [|done].
  match type of H with (?e ≫= _) = _ => destruct e end; simpl in H; [|done].
  match type of H with (?e ≫= _) = _ => destruct e end; simpl in H; [|done].
  by simplify_eq/=.
Qed.

Lemma pad_frame_sequence_keeps self sequence out :
  pad_frame_sequence self sequence = Some out ->
  tokens out = tokens sequence
  /\ tk_beatmap_idx out = tk_beatmap_idx sequence
  /\ beatmap_idx_token out = beatmap_idx_token sequence.
Proof.
  unfold pad_frame_sequence. intros H.
  match type of H with (?e ≫= _) = _ => destruct e end; simpl in H; [|done].
  by simplify_eq/=.
Qed.

(** The cast keeps the shape. *)
Lemma to_float32_shape (a : Array2) :
  length (rows (to_float32 a)) = length (rows a)
  /\ ncols (to_float32 a) = ncols a
  /\ (Array2_wf a -> Array2_wf (to_float32 a)).
Proof.
  unfold to_float32, Array2_wf. simpl. split; [by rewrite length_fmap|].
  split; [done|]. intros Hwf. apply Forall_fmap.
  eapply Forall_impl; [done|]. intros r Hr. simpl. by rewrite length_fmap.
Qed.

Lemma pad_frame_sequence_spec self sequence out :
  Array2_wf (tk_frames sequence) ->
  pad_frame_sequence self sequence = Some out ->
  Z.of_nat (length (tk_frames out))
  = It.frame_seq_len self * Z.of_nat (ncols (tk_frames sequence))
  /\ tokens out = tokens sequence
  /\ tk_beatmap_idx out = tk_beatmap_idx sequence
  /\ beatmap_idx_token out = beatmap_idx_token sequence.
Proof.
  intros Hwf0. unfold pad_frame_sequence. intros H.
  destruct (to_float32_shape (tk_frames sequence)) as (_ & Hcols & Hwf').
  specialize (Hwf' Hwf0). rewrite <- Hcols.
  set (fr := to_float32 (tk_frames sequence)) in *. clearbody fr.
  match type of H with (?e ≫= _) = _ => destruct e as [flat|] eqn:Hflat end;
    simpl in H; [|done].
  simplify_eq/=. split_and!; [|done..].
  destruct (Z.eqb_spec (Z.of_nat (length (rows fr))) (It.frame_seq_len self))
    as [Heq|Hne]; simpl in Hflat.
  - simplify_eq. unfold flatten.
    rewrite (concat_length_uniform _ _ Hwf'). lia.
  - destruct (Z.ltb_spec (It.frame_seq_len self) 0); [done|].
    simplify_eq. unfold flatten. simpl.
    pose proof (slice_length (rows fr) 0
                  (It.frame_seq_len self `min` Z.of_nat (length (rows fr)))) as Hk.
    unfold Py.clamp_index in Hk. simpl in Hk.
    destruct (Z.ltb_spec (It.frame_seq_len self `min` Z.of_nat (length (rows fr))) 0);
      [lia|].
    fold (Py.slice_to (rows fr)
            (It.frame_seq_len self `min` Z.of_nat (length (rows fr)))) in Hk.
    rewrite (concat_length_uniform _ (ncols fr)).
    + rewrite length_app, length_drop, length_replicate. lia.
    + apply Forall_app. split; [by apply slice_Forall|].
      apply Forall_drop, Forall_replicate, length_replicate.
Qed.

Lemma pack_window_inv self sequence d ex :
  pack_window self sequence d = Some ex ->
  exists trimmed padded,
    trim_time_shifts sequence = Some trimmed
    /\ pad_frame_sequence self (tokenize_sequence self trimmed d) = Some padded
    /\ pad_and_split_token_sequence self padded d = Some ex.
Proof.
  unfold pack_window. intros H.
  destruct (trim_time_shifts sequence) as [trimmed|]; simpl in H; [|done].
  destruct (pad_frame_sequence _ _) as [padded|] eqn:Hp; simpl in H; [|done].
  by exists trimmed, padded.
Qed.

(** One round of the loop, taken apart. *)
Lemma step_sequence_inv self shared sequence d self' outcome :
  step_sequence self shared sequence d = Some (self', outcome) ->
  self' = maybe_change_dataset self shared
  /\ exists ex,
       pack_window self' sequence d = Some ex
       /\ outcome
          = if negb (It.add_empty_sequences self')
               && labels_all_eos_or_pad (It.tokenizer self') (labels ex)
            then Skipped else Yielded ex.
Proof.
  unfold step_sequence. intros H.
  destruct (pack_window _ sequence d) as [ex|] eqn:He; simpl in H; [|done].
  destruct (negb _ && _) eqn:Hf; simplify_eq/=.
  - split; [done|]. exists ex. by rewrite Hf.
  - split; [done|]. exists ex. by rewrite Hf.
Qed.

Lemma step_sequence_yielded self shared sequence d self' ex :
  step_sequence self shared sequence d = Some (self', Yielded ex) ->
  self' = maybe_change_dataset self shared /\ pack_window self' sequence d = Some ex.
Proof.
  intros H. apply step_sequence_inv in H as (-> & ex' & Hp & Ho).
  split; [done|]. destruct (negb _ && _); by simplify_eq.
Qed.

(** A property of every yielded example follows from the property of one
    round, for windows that satisfy [W]. *)
Lemma run_sequences_Forall (self0 : It.t) (W : Sequence float -> Prop)
    (P : Example -> Prop) :
  (forall self shared sequence d self' ex,
     same_config self0 self -> W sequence ->
     step_sequence self shared sequence d = Some (self', Yielded ex) -> P ex) ->
  forall work self,
    same_config self0 self ->
    Forall (fun w => W w.1.1) work ->
    Forall P (run_sequences self work).1.
Proof.
  intros Hstep work. induction work as [|[[sequence shared] d] work IH];
    intros self Hcfg Hw; [by constructor|].
  apply Forall_cons in Hw as [Hs Hw]. cbn [run_sequences].
  destruct (step_sequence self shared sequence d) as [[self' outcome]|] eqn:Hst;
    [|by constructor].
  assert (same_config self0 self') as Hcfg'.
  { apply step_sequence_inv in Hst as [-> _].
    eapply same_config_trans; [done|]. apply maybe_change_dataset_config. }
  specialize (IH self' Hcfg' Hw).
  destruct outcome as [ex|]; [|done].
  destruct (run_sequences self' work) as [yielded final]. simpl in *.
  constructor; [|done]. exact (Hstep _ _ _ _ _ _ Hcfg Hs Hst).
Qed.

(** The windows of [_create_sequences]: the offset is one of
    [0..frame_seq_len], and every window holds at most [frame_seq_len] rows
    of the segmented audio, from a start index inside it. *)
Lemma create_sequences_spec self audio_frames frame_times events idx diff other raw sequences :
  Windower.create_sequences self audio_frames frame_times events idx diff other raw
  = Some sequences ->
  exists offset,
    0 <= offset <= It.frame_seq_len self
    /\ Windower.sequences_from self audio_frames frame_times events idx diff other offset
       = Some sequences
    /\ Forall (fun sequence =>
                 exists frame_start_idx,
                   offset <= frame_start_idx < Z.of_nat (length (rows audio_frames))
                   /\ frames sequence
                      = Array2_slice audio_frames frame_start_idx
                          (Z.min (frame_start_idx + It.frame_seq_len self)
                                 (Z.of_nat (length (rows audio_frames)))))
              sequences.
Proof.
  unfold Windower.create_sequences, Random.randint. intros H.
  destruct (Z.ltb_spec (It.frame_seq_len self) 0) as [|Hfsl]; [done|].
  simpl in H. eexists. split_and!; [| |done|].
  { pose proof (Z.mod_pos_bound raw (It.frame_seq_len self - 0 + 1)). lia. }
  { pose proof (Z.mod_pos_bound raw (It.frame_seq_len self - 0 + 1)). lia. }
  unfold Windower.sequences_from in H.
  destruct (Windower.get_event_indices frame_times events) as [indices|];
    simpl in H; [|done].
  match type of H with (?e ≫= _) = _ => destruct e as [other_indices|] end;
    simpl in H; [|done].
  destruct (py_range _ _ _) as [starts|] eqn:Hr; simpl in H; [|done].
  assert (0 < It.frame_seq_len self) as Hpos.
  { unfold py_range in Hr. destruct (Z.eqb_spec (It.frame_seq_len self) 0); [done|lia]. }
  apply py_range_bounds in Hr; [|done].
  apply mapM_Some_1 in H.
  induction H as [|fs sequence starts sequences Hm _ IH]; [by constructor|].
  apply Forall_cons in Hr as [Hfs Hr].
  constructor; [|by apply IH].
  exists fs. split; [done|].
  unfold Windower.make_sequence in Hm.
  repeat (match type of Hm with (?e ≫= _) = _ => destruct e end;
          simpl in Hm; [|done]).
  by simplify_eq/=.
Qed.

Lemma create_sequences_windows self samples frames frame_times events idx diff other
    raw sequences :
  FrameSegmenter.get_frames self samples = Some (frames, frame_times) ->
  Windower.create_sequences self frames frame_times events idx diff other raw
  = Some sequences ->
  Forall (window_ok self) sequences.
Proof.
  intros Hf Hc.
  apply get_frames_spec in Hf as (Hhop & Hcols & Hwf & _ & _).
  apply create_sequences_spec in Hc as (offset & Hoff & _ & Hall).
  eapply Forall_impl; [done|]. intros sequence (fs & Hfs & Heq).
  unfold window_ok, Array2_wf. rewrite Heq. simpl. split_and!; [by apply slice_Forall|done..|].
  rewrite slice_length. unfold Py.clamp_index.
  repeat match goal with |- context [Z.ltb ?u ?v] => destruct (Z.ltb_spec u v) end;
    lia.
Qed.

Lemma imap_work_Forall (W : Sequence float -> Prop) (f : nat -> option Z * Draws)
    (sequences : list (Sequence float)) :
  Forall W sequences ->
  Forall (fun w : Sequence float * option Z * Draws => W w.1.1)
         (imap (fun k sequence => (sequence, (f k).1, (f k).2)) sequences).
Proof.
  intros H. revert f. induction H as [|x l Hx _ IH]; intros f; [by constructor|].
  simpl. constructor; [done|]. apply (IH (f ∘ S)).
Qed.

(** Every example that [_get_next_beatmap] yields satisfies [P], when one
    round of the loop over a well-formed window gives [P]. *)
Lemma get_next_beatmap_Forall (self : It.t) (P : Example -> Prop) input :
  (forall self1 shared sequence d self' ex,
     same_config self self1 -> window_ok self sequence ->
     step_sequence self1 shared sequence d = Some (self', Yielded ex) -> P ex) ->
  Forall P (get_next_beatmap self input).1.
Proof.
  intros Hstep. unfold get_next_beatmap.
  destruct (FrameSegmenter.get_frames self (audio_samples input))
    as [[frames frame_times]|] eqn:Hf; simpl; [|by constructor].
  destruct (Windower.create_sequences _ _ _ _ _ _ _ _) as [sequences|] eqn:Hc;
    [|by constructor].
  eapply (run_sequences_Forall self (window_ok self)); [done|apply same_config_refl|].
  apply imap_work_Forall. by eapply create_sequences_windows.
Qed.

(** The same for a property that names the draws of the window that an
    example comes from. *)
Lemma run_sequences_Forall_draws (self0 : It.t) (W : Sequence float -> Prop)
    (P : Draws -> Example -> Prop) :
  (forall self shared sequence d self' ex,
     same_config self0 self -> W sequence ->
     step_sequence self shared sequence d = Some (self', Yielded ex) -> P d ex) ->
  forall work self,
    same_config self0 self ->
    Forall (fun w => W w.1.1) work ->
    Forall (fun ex => exists w, w ∈ work /\ P w.2 ex) (run_sequences self work).1.
Proof.
  intros Hstep work. induction work as [|[[sequence shared] d] work IH];
    intros self Hcfg Hw; [by constructor|].
  apply Forall_cons in Hw as [Hs Hw]. cbn [run_sequences].
  destruct (step_sequence self shared sequence d) as [[self' outcome]|] eqn:Hst;
    [|by constructor].
  assert (same_config self0 self') as Hcfg'.
  { apply step_sequence_inv in Hst as [-> _].
    eapply same_config_trans; [done|]. apply maybe_change_dataset_config. }
  specialize (IH self' Hcfg' Hw).
  assert (Forall (fun ex => exists w, w ∈ (sequence, shared, d) :: work /\ P w.2 ex)
                 (run_sequences self' work).1) as Hrest.
  { eapply Forall_impl; [done|]. intros ex (w & Hin & Hp).
    exists w. split; [|done]. apply elem_of_cons. by right. }
  destruct outcome as [ex|]; [|done].
  destruct (run_sequences self' work) as [yielded final]. simpl in *.
  constructor; [|done].
  exists (sequence, shared, d). split; [apply elem_of_cons; by left|].
  exact (Hstep _ _ _ _ _ _ Hcfg Hs Hst).
Qed.

(** Every example that [_get_next_beatmap] yields comes from a window [k],
    and satisfies [P] with the draws of that window. *)
Lemma get_next_beatmap_Forall_draws (self : It.t) (P : Draws -> Example -> Prop) input :
  (forall self1 shared sequence d self' ex,
     same_config self self1 -> window_ok self sequence ->
     step_sequence self1 shared sequence d = Some (self', Yielded ex) -> P d ex) ->
  Forall (fun ex => exists k : nat, P (per_window input k).2 ex)
         (get_next_beatmap self input).1.
Proof.
  intros Hstep. unfold get_next_beatmap.
  destruct (FrameSegmenter.get_frames self (audio_samples input))
    as [[frames frame_times]|] eqn:Hf; simpl; [|by constructor].
  destruct (Windower.create_sequences _ _ _ _ _ _ _ _) as [sequences|] eqn:Hc;
    [|by constructor].
  eapply Forall_impl.
  - eapply (run_sequences_Forall_draws self (window_ok self) P);
      [done|apply same_config_refl|].
    apply imap_work_Forall. by eapply create_sequences_windows.
  - intros ex (w & Hin & Hp). simpl in Hin.
    apply elem_of_lookup_imap_1 in Hin as (k & sequence & -> & _).
    by exists k.
Qed.

(** The lengths of a packed window. *)
Lemma pack_window_lengths self0 self sequence d ex :
  same_config self0 self -> window_ok self0 sequence ->
  pack_window self sequence d = Some ex ->
  Z.of_nat (length (decoder_input_ids ex)) = Args.tgt_seq_len (It.args self0)
  /\ Z.of_nat (length (labels ex)) = Args.tgt_seq_len (It.args self0)
  /\ Z.of_nat (length (decoder_attention_mask ex)) = Args.tgt_seq_len (It.args self0)
  /\ Z.of_nat (length (ex_frames ex))
     = It.frame_seq_len self0 * Args.hop_length (It.args self0).
Proof.
  intros (Hargs & _ & Hfsl & _) (Hwf & Hcols & Hhop & _) H.
  apply pack_window_inv in H as (trimmed & padded & Ht & Hp & He).
  apply trim_time_shifts_keeps in Ht as [Hfr _].
  apply pad_frame_sequence_spec in Hp as (Hflat & _); [|simpl; by rewrite Hfr].
  apply pad_and_split_lengths in He as (Hi & Hl & Hm & Hf & _).
  simpl in Hflat. rewrite Hfr, Hcols, Hfsl in Hflat.
  rewrite Hargs in *. rewrite Hf. split_and!; [done..|]. lia.
Qed.

(** The next-token relation of a packed window. *)
Lemma pack_window_shift self sequence d ex :
  It.min_pre_token_len self = 4 ->
  pack_window self sequence d = Some ex ->
  exists offset,
    drawn_offset self d offset
    /\ forall i x y,
         labels ex !! i = Some x -> x <> LABEL_IGNORE_ID ->
         labels ex !! S i = Some y -> y <> LABEL_IGNORE_ID ->
         decoder_input_ids ex !! S i = Some (jittered self offset x).
Proof.
  intros Hmin H.
  apply pack_window_inv in H as (trimmed & padded & _ & Hp & He).
  eapply pad_and_split_shift; [done| |done].
  unfold pad_frame_sequence in Hp.
  match type of Hp with (?e ≫= _) = _ => destruct e end; simpl in Hp; [|done].
  simplify_eq/=. rewrite length_app, length_fmap. simpl. lia.
Qed.

Lemma labels_all_eos_or_pad_true tokenizer (l : list Z) :
  Forall (fun x => x = Tok.eos_id tokenizer \/ x = Tok.pad_id tokenizer) l ->
  labels_all_eos_or_pad tokenizer l = true.
Proof.
  unfold labels_all_eos_or_pad.
  induction 1 as [|x l [->| ->] _ IH]; simpl; [done|..];
    by rewrite Z.eqb_refl, ?orb_true_r.
Qed.

End PipelineFacts.

(** ** The packed examples *)

Section PipelineClaims.
Import FrameFacts PackFacts PipelineFacts.

(** What holds between the labels and the input ids of an example that
    comes from a window with the draws [d]: [offset] is the offset that the
    jitter drew for that window. *)
Definition label_shift (self : It.t) (d : Draws) (ex : Example) : Prop :=
  exists offset,
    drawn_offset self d offset
    /\ forall i x y,
         labels ex !! i = Some x -> x <> LABEL_IGNORE_ID ->
         labels ex !! S i = Some y -> y <> LABEL_IGNORE_ID ->
         decoder_input_ids ex !! S i = Some (jittered self offset x).

(** The example is what a round of the loop, run with the draws [d] on an
    iterator of the same configuration, has yielded. *)
Definition yielded_with (self : It.t) (d : Draws) (ex : Example) : Prop :=
  exists self1 shared sequence self',
    same_config self self1
    /\ step_sequence self1 shared sequence d = Some (self', Yielded ex).

(** C1 (as amended): every yielded example comes from the round of a
    window [k], run with the draws of that window, and at
    every position [i] whose label and whose next label are both written
    (so [i] is a position of the main segment other than the last copied
    one), the input id at [i + 1] is the label at [i] as the timing jitter
    maps it: the label itself when [timing_random_offset] is not positive,
    and otherwise, for a label of the [TIME_SHIFT] id range, the 64-bit sum
    of the label and the offset that [random.randint(-timing_random_offset,
    frame_seq_len)] drew for window [k], clamped to that range. *)
Theorem labels_are_next_inputs (self : It.t) (input : BeatmapInput) :
  initialized self ->
  Forall (fun ex =>
            exists k : nat,
              yielded_with self (per_window input k).2 ex
              /\ label_shift self (per_window input k).2 ex)
         (get_next_beatmap self input).1.
Proof.
  intros (_ & Hmin & _).
  apply (get_next_beatmap_Forall_draws self
           (fun d ex => yielded_with self d ex /\ label_shift self d ex)).
  intros self1 shared sequence d self' ex Hcfg _ Hst.
  split; [by exists self1, shared, sequence, self'|].
  destruct Hcfg as (Hargs & Htok & Hfsl & Hmin1 & _).
  apply step_sequence_yielded in Hst as [-> Hp].
  destruct (maybe_change_dataset_config self1 shared)
    as (Hargs' & Htok' & Hfsl' & Hmin' & _).
  apply pack_window_shift in Hp as (offset & Hdraw & Hp); [|congruence].
  exists offset. split.
  - unfold drawn_offset in *. by rewrite Hargs', Hargs, Hfsl', Hfsl in Hdraw.
  - intros i x y Hx Hxi Hy Hyi.
    rewrite (Hp i x y Hx Hxi Hy Hyi). unfold jittered, jitter.
    by rewrite Hargs', Hargs, Htok', Htok.
Qed.

Lemma labels_are_next_inputs_witness :
  length (get_next_beatmap Demo.jittering (Demo.input (Demo.draws Demo.half Demo.half 7))).1
  = 2%nat
  /\ Forall (fun ex =>
               exists k : nat,
                 yielded_with Demo.jittering
                   (per_window (Demo.input (Demo.draws Demo.half Demo.half 7)) k).2 ex
                 /\ label_shift Demo.jittering
                      (per_window (Demo.input (Demo.draws Demo.half Demo.half 7)) k).2 ex)
       (get_next_beatmap Demo.jittering (Demo.input (Demo.draws Demo.half Demo.half 7))).1.
Proof.
  split; [vm_compute; reflexivity|].
  apply (labels_are_next_inputs Demo.jittering).
  apply init_initialized.
Defined.

(** C1 as stated fails. Without jitter, the second example of the demo
    beatmap has the labels [30; 12; 41; 2] on the inputs [1; 30; 12; 41]: the
    label of the last copied token is [EOS], and the input after it is the
    pad id. With jitter (offset 2), the label 12 is followed by the input
    14. *)
Lemma last_label_and_jitter_break_shift :
  (fun ex => (labels ex, decoder_input_ids ex))
    <$> (get_next_beatmap Demo.plain (Demo.input (Demo.draws Demo.half Demo.half 0))).1 !! 1%nat
  = Some ([30; 12; 41; 2; -100; -100; -100; -100], [1; 30; 12; 41; 0; 0; 0; 0])
  /\ (fun ex => (labels ex, decoder_input_ids ex))
       <$> (get_next_beatmap Demo.jittering
              (Demo.input (Demo.draws Demo.half Demo.half 7))).1 !! 1%nat
     = Some ([30; 12; 41; 2; -100; -100; -100; -100], [1; 30; 14; 41; 0; 0; 0; 0]).
Proof. split; vm_compute; reflexivity. Qed.

(** The lengths of an example. *)
Definition fixed_lengths (self : It.t) (ex : Example) : Prop :=
  Z.of_nat (length (decoder_input_ids ex)) = Args.tgt_seq_len (It.args self)
  /\ Z.of_nat (length (labels ex)) = Args.tgt_seq_len (It.args self)
  /\ Z.of_nat (length (decoder_attention_mask ex)) = Args.tgt_seq_len (It.args self)
  /\ Z.of_nat (length (ex_frames ex))
     = It.frame_seq_len self * Args.hop_length (It.args self).

Lemma get_next_beatmap_lengths (self : It.t) (input : BeatmapInput) :
  Forall (fixed_lengths self) (get_next_beatmap self input).1.
Proof.
  apply get_next_beatmap_Forall.
  intros self1 shared sequence d self' ex Hcfg Hw Hst.
  apply step_sequence_yielded in Hst as [-> Hp].
  eapply pack_window_lengths; [|done..].
  eapply same_config_trans; [done|]. apply maybe_change_dataset_config.
Qed.

(** C2: in every yielded example [decoder_input_ids], [labels] and
    [decoder_attention_mask] have length [tgt_seq_len], and the flattened
    frames have length [frame_seq_len * hop_length], whatever the window
    held. *)
Theorem emitted_lengths_are_fixed (self : It.t) (input : BeatmapInput) :
  Forall (fixed_lengths self) (get_next_beatmap self input).1.
Proof. apply get_next_beatmap_lengths. Qed.

Lemma emitted_lengths_are_fixed_witness :
  length (get_next_beatmap Demo.plain (Demo.input (Demo.draws Demo.half Demo.half 0))).1
  = 2%nat
  /\ Forall (fixed_lengths Demo.plain)
       (get_next_beatmap Demo.plain (Demo.input (Demo.draws Demo.half Demo.half 0))).1.
Proof.
  split; [vm_compute; reflexivity|].
  apply (emitted_lengths_are_fixed Demo.plain).
Defined.

(** Following the specification's words: a window is discarded when
    [add_empty_sequences] is not set and its entire label array is the
    ignore marker or the pad id. *)
Definition spec_discards (tokenizer : Tok.t) (add_empty_sequences : bool)
    (labels : list Z) : bool :=
  negb add_empty_sequences
  && forallb (fun x => (x =? LABEL_IGNORE_ID) || (x =? Tok.pad_id tokenizer)) labels.

Lemma labels_all_eos_or_pad_Forall tokenizer (l : list Z) :
  labels_all_eos_or_pad tokenizer l = true ->
  Forall (fun x => x = Tok.eos_id tokenizer \/ x = Tok.pad_id tokenizer) l.
Proof.
  unfold labels_all_eos_or_pad. induction l as [|x l IH]; simpl; [done|].
  intros [Hx Hl]%andb_prop. constructor; [|by apply IH].
  apply orb_prop in Hx as [Hx|Hx]; apply Z.eqb_eq in Hx; tauto.
Qed.

(** C3, the code where the label array holds nothing but the ignore
    marker: with [tgt_seq_len = 2] and two reserved slots, and
    [add_empty_sequences] false, the labels of a window are
    [[-100; -100]] and the window is yielded, where the claim discards it.
    The filter of the code compares the labels with [eos_id] and [pad_id],
    while the label buffer is filled with [LABEL_IGNORE_ID]: in every
    round, the window is skipped exactly when the flag (after the
    curriculum update of the round) is false and every label is the
    end-of-sequence id or the pad id. *)
Theorem empty_filter_tests_eos_and_pad :
  It.add_empty_sequences Demo.cramped = false
  /\ (fun r => match r.2 with Yielded ex => Some (labels ex) | Skipped => None end)
       <$> step_sequence Demo.cramped None Demo.empty_window
             (Demo.draws Demo.half Demo.half 0)
     = Some (Some [LABEL_IGNORE_ID; LABEL_IGNORE_ID])
  /\ spec_discards Demo.tokenizer (It.add_empty_sequences Demo.cramped)
       [LABEL_IGNORE_ID; LABEL_IGNORE_ID] = true
  /\ forall (self : It.t) (shared : option Z) (sequence : Sequence float) (d : Draws)
        (self' : It.t) (outcome : Outcome),
       step_sequence self shared sequence d = Some (self', outcome) ->
       exists ex,
         pack_window self' sequence d = Some ex
         /\ (outcome = Skipped \/ outcome = Yielded ex)
         /\ (outcome = Skipped
             <-> It.add_empty_sequences self' = false
                 /\ Forall (fun x => x = Tok.eos_id (It.tokenizer self')
                                     \/ x = Tok.pad_id (It.tokenizer self'))
                           (labels ex)).
Proof.
  split_and!; [vm_compute; reflexivity..|].
  intros self shared sequence d self' outcome H.
  apply step_sequence_inv in H as (_ & ex & Hp & ->).
  exists ex. split; [done|].
  destruct (It.add_empty_sequences self'); simpl.
  - split; [by right|]. split; [done|]. by intros [? _].
  - destruct (labels_all_eos_or_pad _ _) eqn:Hall.
    + split; [by left|]. split; [|done]. intros _. split; [done|].
      by apply labels_all_eos_or_pad_Forall.
    + split; [by right|]. split; [done|]. intros [_ Hl].
      apply labels_all_eos_or_pad_true in Hl. congruence.
Qed.

(** The filter in two small configurations, with [add_empty_sequences]
    false: with [tgt_seq_len = 2] and two reserved slots the labels of a
    window are all the ignore marker and the window is yielded; with
    [tgt_seq_len = 1] the only label of an empty window is [EOS], neither
    the ignore marker nor the pad id, and the window is skipped. *)
Lemma ignored_labels_are_not_filtered :
  It.add_empty_sequences Demo.cramped = false
  /\ (fun r => match r.2 with Yielded ex => Some (labels ex) | Skipped => None end)
       <$> step_sequence Demo.cramped None Demo.empty_window
             (Demo.draws Demo.half Demo.half 0)
     = Some (Some [LABEL_IGNORE_ID; LABEL_IGNORE_ID])
  /\ labels <$> pack_window Demo.single Demo.empty_window
                  (Demo.draws Demo.half Demo.half 0)
     = Some [Tok.eos_id Demo.tokenizer]
  /\ snd <$> step_sequence Demo.single None Demo.empty_window
               (Demo.draws Demo.half Demo.half 0)
     = Some Skipped.
Proof. split_and!; vm_compute; reflexivity. Qed.

(** C5, the code at a length that is a multiple of [hop_length]: four
    samples and [hop_length = 2] give three frames, the last one all zeros,
    where [ceil(4 / 2)] is two. [_get_frames] always returns
    [L // hop_length + 1] frames, which is [ceil(L / hop_length)] for every
    other length and one frame more for a multiple. *)
Theorem get_frames_adds_a_frame_on_multiples :
  (fun r => rows r.1) <$> FrameSegmenter.get_frames Demo.plain (replicate 4 Demo.one)
  = Some [[Demo.one; Demo.one]; [Demo.one; Demo.one]; [Float64.zero; Float64.zero]]
  /\ spec_frame_count 4 2 = 2
  /\ forall self samples frames frame_times,
       FrameSegmenter.get_frames self samples = Some (frames, frame_times) ->
       let L := Z.of_nat (length samples) in
       let hop_length := Args.hop_length (It.args self) in
       Z.of_nat (length (rows frames)) = L `div` hop_length + 1
       /\ (L `mod` hop_length <> 0 ->
           Z.of_nat (length (rows frames)) = spec_frame_count L hop_length)
       /\ (L `mod` hop_length = 0 ->
           Z.of_nat (length (rows frames)) = spec_frame_count L hop_length + 1).
Proof.
  split_and!; [vm_compute; reflexivity..|].
  intros self samples frames frame_times H. cbn zeta.
  apply get_frames_spec in H as (Hhop & _ & _ & Hcount & _).
  set (L := Z.of_nat (length samples)) in *.
  set (hop := Args.hop_length (It.args self)) in *.
  pose proof (Z.div_mod L hop ltac:(lia)) as Hdm.
  pose proof (Z.mod_pos_bound L hop Hhop) as Hm.
  unfold spec_frame_count. split_and!; [done|..]; intros Hr; rewrite Hcount.
  - apply (Z.div_unique _ _ _ (L `mod` hop - 1)); lia.
  - f_equal. apply (Z.div_unique _ _ _ (hop - 1)); lia.
Qed.

(** C10: an iterator built by [__init__] has the window length
    [src_seq_len - 1]; [_create_sequences] draws its offset from
    [0..src_seq_len - 1] and gives windows of at most [src_seq_len - 1]
    frames; and the flattened frames of every yielded example have length
    [(src_seq_len - 1) * hop_length]. *)
Theorem frame_window_is_src_seq_len_minus_one (args : Args.t) (tokenizer : Tok.t)
    (test : bool) :
  let self := It.init args tokenizer test in
  It.frame_seq_len self = Args.src_seq_len args - 1
  /\ (forall audio_frames frame_times events idx diff other raw sequences,
        Windower.create_sequences self audio_frames frame_times events idx diff other raw
        = Some sequences ->
        exists offset,
          0 <= offset <= Args.src_seq_len args - 1
          /\ Windower.sequences_from self audio_frames frame_times events idx diff
               other offset = Some sequences
          /\ Forall (fun sequence =>
                       Z.of_nat (length (rows (frames sequence)))
                       <= Args.src_seq_len args - 1) sequences)
  /\ (forall input,
        Forall (fun ex => Z.of_nat (length (ex_frames ex))
                          = (Args.src_seq_len args - 1) * Args.hop_length args)
               (get_next_beatmap self input).1).
Proof.
  cbn zeta. split_and!; [done| |].
  - intros audio_frames frame_times events idx diff other raw sequences H.
    apply create_sequences_spec in H as (offset & Hoff & Hs & Hall).
    simpl in Hoff, Hall.
    exists offset. split; [done|]. split; [done|].
    eapply Forall_impl; [done|]. intros sequence (fs & Hfs & Heq).
    simpl in Heq. rewrite Heq. simpl.
    rewrite slice_length. unfold Py.clamp_index.
    repeat match goal with |- context [Z.ltb ?u ?v] => destruct (Z.ltb_spec u v) end;
      lia.
  - intros input.
    eapply Forall_impl; [apply get_next_beatmap_lengths|].
    by intros ex (_ & _ & _ & ?).
Qed.

Lemma frame_window_is_src_seq_len_minus_one_witness :
  (fun ex => length (ex_frames ex))
    <$> (get_next_beatmap Demo.plain (Demo.input (Demo.draws Demo.half Demo.half 0))).1
  = [4%nat; 4%nat]
  /\ Forall (fun ex => Z.of_nat (length (ex_frames ex)) = (3 - 1) * 2)
       (get_next_beatmap Demo.plain (Demo.input (Demo.draws Demo.half Demo.half 0))).1.
Proof.
  split; [vm_compute; reflexivity|].
  apply (frame_window_is_src_seq_len_minus_one
           (Demo.args 8 0 Float64.zero (-1) (-1) 0) Demo.tokenizer false).
Defined.

End PipelineClaims.

(** ** Scenarios of the specification, run on the embedding *)

Section Scenarios.

Definition scenario_args (tgt_seq_len hop_length : Z) : Args.t :=
  {| Args.src_seq_len := 3;
     Args.tgt_seq_len := tgt_seq_len;
     Args.sample_rate := 16000;
     Args.hop_length := hop_length;
     Args.special_token_len := 2;
     Args.class_dropout_prob := Float64.zero;
     Args.diff_dropout_prob := Float64.zero;
     Args.add_pre_tokens := false;
     Args.add_pre_tokens_at_step := -1;
     Args.max_pre_token_len := 0;
     Args.add_empty_sequences := false;
     Args.add_empty_sequences_at_step := -1;
     Args.center_pad_decoder := false;
     Args.diff_token_index := 0;
     Args.style_token_index := 1;
     Args.timing_random_offset := 0 |}.

(** [hop_length = 128] at 16 kHz: one frame spans 8 ms. *)
Example frame_spans_eight_ms :
  snd <$> FrameSegmenter.get_frames
            (It.init (scenario_args 128 128) Demo.tokenizer false)
            (replicate 129 Demo.one)
  = Some [Float64.zero; Float64.nearest 8].
Proof. vm_compute. reflexivity. Qed.

(** [tgt_seq_len = 128], two reserved slots, 50 main tokens, no pre-context
    and no guide: left-aligned packing gives [n = 49], [m = 0], [o = 0] and
    starts at offset 0. *)
Example left_aligned_budget :
  budget (It.init (scenario_args 128 128) Demo.tokenizer false) 50 0 0
  = (49, 0, 0, 0).
Proof. reflexivity. Qed.

(** [random.randint] reaches both ends of its range. *)
Example randint_is_inclusive :
  Random.randint 0 2 0 = Some 0 /\ Random.randint 0 2 2 = Some 2.
Proof. split; reflexivity. Qed.

(** A length that is not a multiple of [hop_length]: five samples and
    [hop_length = 2] give [ceil(5 / 2) = 3] frames. *)
Example frames_of_five_samples :
  (fun r => length (rows r.1))
    <$> FrameSegmenter.get_frames Demo.plain (replicate 5 Demo.one)
  = Some 3%nat
  /\ spec_frame_count 5 2 = 3.
Proof. split; vm_compute; reflexivity. Qed.

End Scenarios.

(** * Further properties of the code *)

(** ** The event cursor and the windows of [_create_sequences] *)

Module WindowerFacts.
Import FrameFacts.

Lemma getitem_nonneg {A} (l : list A) (i : Z) :
  0 <= i -> Py.getitem l i = l !! Z.to_nat i.
Proof.
  intros Hi. unfold Py.getitem, Py.index_of.
  destruct (Z.ltb_spec i 0); [lia|].
  destruct (Z.leb_spec 0 i); [|lia].
  destruct (Z.ltb_spec i (Z.of_nat (length l))); simpl; [done|].
  symmetry. apply lookup_ge_None. lia.
Qed.

(** [l[a:b]] for bounds in order inside the list. *)
Lemma slice_inside {A} (l : list A) (a b : Z) :
  0 <= a <= b -> b <= Z.of_nat (length l) ->
  Py.slice l a b = take (Z.to_nat (b - a)) (drop (Z.to_nat a) l).
Proof.
  intros Hab Hb. unfold Py.slice, Py.clamp_index.
  destruct (Z.ltb_spec a 0), (Z.ltb_spec b 0); try lia.
  by rewrite !Z.min_l by lia.
Qed.

(** Two adjacent slices make up the slice over both. *)
Lemma slice_adjacent {A} (l : list A) (a b : Z) :
  0 <= a <= b -> b <= Z.of_nat (length l) ->
  Py.slice l a b ++ drop (Z.to_nat b) l = drop (Z.to_nat a) l.
Proof.
  intros Hab Hb. rewrite slice_inside by done.
  rewrite <- (take_drop (Z.to_nat (b - a)) (drop (Z.to_nat a) l)) at 2.
  rewrite drop_drop. do 2 f_equal. lia.
Qed.

Lemma slice_to_end {A} (l : list A) (a : Z) :
  0 <= a <= Z.of_nat (length l) ->
  Py.slice l a (Z.of_nat (length l)) = drop (Z.to_nat a) l.
Proof.
  intros Ha. rewrite slice_inside by lia.
  apply take_ge. rewrite length_drop. lia.
Qed.

(** The cursor only moves forward, and never past the end of the events. *)
Lemma advance_spec rest event_index event_time current_time rest' index' time' :
  Windower.advance rest event_index event_time current_time
  = Some (rest', index', time') ->
  exists j : nat,
    index' = event_index + Z.of_nat j /\ rest' = drop j rest /\ (j <= length rest)%nat.
Proof.
  revert event_index event_time.
  induction rest as [|e rest IH]; intros event_index event_time H; simpl in H.
  - simplify_eq. exists 0%nat. simpl. split_and!; [lia|done|lia].
  - destruct (PrimFloat.ltb event_time current_time).
    + match type of H with (?c ≫= _) = _ => destruct c as [t|] end;
        simpl in H; [|done].
      apply IH in H as (j & -> & -> & Hj). exists (S j). simpl. split_and!; [lia|done|lia].
    + simplify_eq. exists 0%nat. simpl. split_and!; [lia|done|lia].
Qed.

Definition nondecreasing (l : list Z) : Prop :=
  forall (i j : nat) a b,
    (i <= j)%nat -> l !! i = Some a -> l !! j = Some b -> a <= b.

Lemma nondecreasing_cons x l :
  Forall (fun y => x <= y) l -> nondecreasing l -> nondecreasing (x :: l).
Proof.
  intros Hall Hl i j a b Hij Ha Hb.
  destruct i as [|i], j as [|j]; simpl in *; simplify_eq; [lia| |lia|].
  - by eapply (Forall_lookup_1 _ _ _ _ Hall).
  - eapply (Hl i j); [lia|done..].
Qed.

(** The start indices: one per frame, non-decreasing, from one before the
    cursor to one before the end of the events. *)
Lemma start_indices_loop_spec frame_times rest event_index event_time l :
  Windower.start_indices_loop frame_times rest event_index event_time = Some l ->
  length l = length frame_times
  /\ Forall (fun s => event_index - 1 <= s <= event_index + Z.of_nat (length rest) - 1) l
  /\ nondecreasing l.
Proof.
  revert rest event_index event_time l.
  induction frame_times as [|t later IH]; intros rest event_index event_time l H;
    simpl in H.
  - simplify_eq. split_and!; [done|constructor|]. by intros i j a b _ ?.
  - destruct (Windower.advance rest event_index event_time t)
      as [[[rest' index'] time']|] eqn:Ha; simpl in H; [|done].
    destruct (Windower.start_indices_loop later rest' index' time') as [l'|] eqn:Hl;
      simpl in H; [|done].
    simplify_eq.
    apply advance_spec in Ha as (j & -> & -> & Hj).
    destruct (IH _ _ _ _ Hl) as (Hlen & Hall & Hsorted).
    rewrite length_drop in Hall.
    simpl. split_and!.
    + by rewrite Hlen.
    + constructor; [lia|]. eapply Forall_impl; [done|]. simpl. lia.
    + apply nondecreasing_cons; [|done]. eapply Forall_impl; [done|]. simpl. lia.
Qed.

Lemma slice_from_1 {A} (l : list A) : Py.slice_from l 1 = drop 1 l.
Proof.
  unfold Py.slice_from, Py.slice, Py.clamp_index. simpl.
  destruct (Z.ltb_spec (Z.of_nat (length l)) 0); [lia|].
  rewrite Z.min_id.
  destruct l as [|x l]; [done|].
  replace (Z.to_nat (1 `min` Z.of_nat (length (x :: l)))) with 1%nat
    by (simpl; lia).
  apply take_ge. rewrite length_drop. simpl. lia.
Qed.

(** An event whose time the loop can compare with a frame time: the value
    of a TIME_SHIFT within the doubles. *)
Definition time_converts (e : Event) : Prop :=
  is_time_shift e = true -> is_Some (Float64.of_int (value e)).

Lemma advance_some rest event_index event_time current_time :
  Forall time_converts rest ->
  is_Some (Windower.advance rest event_index event_time current_time).
Proof.
  intros Hall. revert event_index event_time.
  induction Hall as [|e rest He _ IH]; intros event_index event_time; simpl; [done|].
  destruct (PrimFloat.ltb event_time current_time); [|done].
  unfold time_converts in He.
  destruct (is_time_shift e); simpl; [|apply IH].
  destruct (He eq_refl) as [t ->]. simpl. apply IH.
Qed.

Lemma start_indices_loop_some frame_times rest event_index event_time :
  Forall time_converts rest ->
  is_Some (Windower.start_indices_loop frame_times rest event_index event_time).
Proof.
  revert rest event_index event_time.
  induction frame_times as [|t later IH]; intros rest event_index event_time Hall;
    simpl; [done|].
  destruct (advance_some rest event_index event_time t Hall)
    as [[[rest' index'] time'] Ha].
  rewrite Ha. simpl.
  apply advance_spec in Ha as (j & _ & -> & _).
  destruct (IH (drop j rest) index' time') as [l ->]; [by apply Forall_drop|].
  done.
Qed.

Lemma get_event_indices_some frame_times events2 :
  Forall time_converts events2 ->
  is_Some (Windower.get_event_indices frame_times events2).
Proof.
  intros Hall. unfold Windower.get_event_indices.
  by destruct (start_indices_loop_some frame_times events2 0 Float64.neg_infinity Hall)
    as [l ->].
Qed.

(** [get_event_indices], taken apart. *)
Lemma get_event_indices_inv frame_times events2 indices :
  Windower.get_event_indices frame_times events2 = Some indices ->
  Windower.start_indices_loop frame_times events2 0 Float64.neg_infinity
  = Some indices.1
  /\ indices.2 = drop 1 indices.1 ++ [Z.of_nat (length events2)]
  /\ length indices.1 = length frame_times.
Proof.
  unfold Windower.get_event_indices. intros H.
  destruct (Windower.start_indices_loop _ _ _ _) as [starts|] eqn:Hl; simpl in H;
    [|done].
  simplify_eq. simpl. split; [done|]. split; [by rewrite slice_from_1|].
  by apply start_indices_loop_spec in Hl as (? & _).
Qed.

(** The two index lists of [get_event_indices], position by position: the
    start of a frame is from [-1] to the last event, the end of a frame is
    the start of the next one, and the end of the last frame is the number
    of events. *)
Lemma get_event_indices_spec frame_times events2 indices (i : nat) :
  Windower.get_event_indices frame_times events2 = Some indices ->
  (i < length frame_times)%nat ->
  exists s e,
    indices.1 !! i = Some s
    /\ indices.2 !! i = Some e
    /\ -1 <= s <= e
    /\ e <= Z.of_nat (length events2)
    /\ e = match indices.1 !! S i with
           | Some next => next
           | None => Z.of_nat (length events2)
           end.
Proof.
  intros Hidx Hi.
  apply get_event_indices_inv in Hidx as (Hl & -> & _).
  destruct (start_indices_loop_spec _ _ _ _ _ Hl) as (Hlen & Hall & Hsorted).
  set (S := indices.1) in *.
  destruct (lookup_lt_is_Some_2 S i) as [s Hs]; [lia|].
  pose proof (Forall_lookup_1 _ _ _ _ Hall Hs) as Hsb. simpl in Hsb.
  destruct (S !! Datatypes.S i) as [next|] eqn:Hnext.
  - pose proof (Hsorted i (Datatypes.S i) s next ltac:(lia) Hs Hnext).
    pose proof (Forall_lookup_1 _ _ _ _ Hall Hnext) as Hb. simpl in Hb.
    exists s, next.
    split; [done|]. split; [|split; [lia|split; [lia|done]]].
    rewrite lookup_app_l by (rewrite length_drop; apply lookup_lt_Some in Hnext; lia).
    by rewrite lookup_drop.
  - apply lookup_ge_None in Hnext.
    exists s, (Z.of_nat (length events2)).
    split; [done|]. split; [|split; [lia|split; [lia|done]]].
    rewrite lookup_app_r by (rewrite length_drop; lia).
    rewrite length_drop. by replace (i - (length S - 1))%nat with 0%nat by lia.
Qed.

(** What one round of the loop over [frame_start_idx] puts into the window. *)
Lemma make_sequence_inv self audio_frames frame_times all_events idx diff indices other
    frame_start_idx sequence :
  Windower.make_sequence self audio_frames frame_times all_events idx diff indices other
                         frame_start_idx = Some sequence ->
  let n_frames := Z.of_nat (length (rows audio_frames)) in
  let frame_end_idx := Z.min (frame_start_idx + It.frame_seq_len self) n_frames in
  exists target_start_idx target_end_idx target_pre_idx,
    Py.getitem indices.1 frame_start_idx = Some target_start_idx
    /\ Py.getitem indices.2 (frame_end_idx - 1) = Some target_end_idx
    /\ Py.getitem indices.1 (Z.max (frame_start_idx - It.frame_seq_len self) 0)
       = Some target_pre_idx
    /\ Py.getitem frame_times frame_start_idx = Some (time sequence)
    /\ frames sequence = Array2_slice audio_frames frame_start_idx frame_end_idx
    /\ events sequence = Py.slice all_events target_start_idx target_end_idx
    /\ pre_events sequence
       = (if Args.add_pre_tokens (It.args self)
             || (0 <=? Args.add_pre_tokens_at_step (It.args self))
          then Some (Py.slice all_events target_pre_idx target_start_idx)
          else None)
    /\ beatmap_idx sequence = idx
    /\ difficulty sequence = diff.
Proof.
  unfold Windower.make_sequence. intros Hm. cbn zeta.
  repeat (match type of Hm with (?e ≫= _) = _ => destruct e eqn:? end;
          simpl in Hm; [|done]).
  simplify_eq/=. eexists _, _, _. by split_and!.
Qed.

(** [range(start, stop, step)] for a positive step, one element at a time. *)
Lemma py_range_unfold start stop step l :
  0 < step -> py_range start stop step = Some l ->
  if start <? stop
  then exists l', l = start :: l' /\ py_range (start + step) stop step = Some l'
  else l = [].
Proof.
  intros Hstep. unfold py_range.
  destruct (Z.eqb_spec step 0); [lia|].
  destruct (Z.ltb_spec 0 step); [|lia].
  intros [= <-]. destruct (Z.ltb_spec start stop) as [Hlt|Hge].
  - eexists. split; [|done].
    replace (stop - start + step - 1) with ((stop - start - 1) + 1 * step) by lia.
    rewrite Z.div_add by lia.
    replace (stop - (start + step) + step - 1) with (stop - start - 1) by lia.
    assert (0 <= (stop - start - 1) `div` step) by (apply Z.div_pos; lia).
    rewrite Z2Nat.inj_add by lia.
    rewrite Nat.add_comm. simpl. f_equal; [lia|].
    rewrite <- fmap_S_seq, <- list_fmap_compose.
    apply list_fmap_ext. intros i k _. simpl. lia.
  - assert ((stop - start + step - 1) `div` step <= 0) as Hc.
    { assert ((stop - start + step - 1) `div` step < 1); [|lia].
      apply Z.div_lt_upper_bound; lia. }
    by replace (Z.to_nat ((stop - start + step - 1) `div` step)) with 0%nat by lia.
Qed.

Lemma sequences_from_inv self audio_frames frame_times all_events idx diff other offset
    sequences :
  Windower.sequences_from self audio_frames frame_times all_events idx diff other offset
  = Some sequences ->
  exists indices other_indices starts,
    Windower.get_event_indices frame_times all_events = Some indices
    /\ py_range offset (Z.of_nat (length (rows audio_frames))) (It.frame_seq_len self)
       = Some starts
    /\ Forall2 (fun fs sequence =>
                  Windower.make_sequence self audio_frames frame_times all_events idx diff
                    indices other_indices fs = Some sequence)
               starts sequences.
Proof.
  unfold Windower.sequences_from. intros H.
  destruct (Windower.get_event_indices frame_times all_events) as [indices|];
    simpl in H; [|done].
  match type of H with (?e ≫= _) = _ => destruct e as [other_indices|] end;
    simpl in H; [|done].
  destruct (py_range _ _ _) as [starts|]; simpl in H; [|done].
  exists indices, other_indices, starts. split; [done|]. split; [done|].
  by apply mapM_Some_1.
Qed.

(** The frames of the windows, one after the other, are the frames of the
    audio from the offset on. *)
Lemma windows_tile_frames self audio_frames frame_times all_events idx diff indices other
    starts sequences offset :
  0 < It.frame_seq_len self -> 0 <= offset ->
  py_range offset (Z.of_nat (length (rows audio_frames))) (It.frame_seq_len self)
  = Some starts ->
  Forall2 (fun fs sequence =>
             Windower.make_sequence self audio_frames frame_times all_events idx diff
               indices other fs = Some sequence) starts sequences ->
  concat ((fun sequence => rows (frames sequence)) <$> sequences)
  = drop (Z.to_nat offset) (rows audio_frames).
Proof.
  intros Hfsl Hoff Hr Hall. revert offset Hoff Hr.
  induction Hall as [|fs sequence starts sequences Hm _ IH]; intros offset Hoff Hr;
    apply py_range_unfold in Hr; try done;
    destruct (Z.ltb_spec offset (Z.of_nat (length (rows audio_frames)))) as [Hlt|Hge].
  - by destruct Hr as (? & ? & _).
  - simpl. symmetry. apply drop_ge. lia.
  - destruct Hr as (l' & [= -> ->] & Hr).
    apply make_sequence_inv in Hm as (_ & _ & _ & _ & _ & _ & _ & Hfr & _).
    rewrite fmap_cons. cbn [concat]. cbn beta.
    rewrite Hfr, (IH (offset + It.frame_seq_len self)) by (done || lia). simpl.
    destruct (Z.le_gt_cases (offset + It.frame_seq_len self)
                (Z.of_nat (length (rows audio_frames)))).
    + rewrite Z.min_l by lia. apply slice_adjacent; lia.
    + rewrite Z.min_r by lia. rewrite slice_to_end by lia.
      rewrite (drop_ge _ (Z.to_nat (offset + _))) by lia. apply app_nil_r.
  - done.
Qed.

Lemma py_range_lookup start stop step l (k : nat) x :
  0 < step -> py_range start stop step = Some l -> l !! k = Some x ->
  x = start + Z.of_nat k * step /\ start <= x < stop.
Proof.
  intros Hstep Hr Hk. split.
  - unfold py_range in Hr. destruct (Z.eqb_spec step 0); [lia|].
    simplify_eq. rewrite list_lookup_fmap in Hk.
    destruct (seq _ _ !! k) as [k'|] eqn:Hs; simplify_eq/=.
    apply lookup_seq in Hs as [-> _]. done.
  - apply py_range_bounds in Hr; [|done].
    by apply (Forall_lookup_1 _ _ _ _ Hr Hk).
Qed.

(** The event range of the window that starts at frame [fs]: it begins at
    the start index of [fs] and ends at the start index of the next
    window's first frame, or at the end of the events for the last window. *)
Lemma window_event_range frame_times all_events indices (n : nat) fs fsl ts te :
  Windower.get_event_indices frame_times all_events = Some indices ->
  length frame_times = n ->
  0 <= fs < Z.of_nat n -> 0 < fsl ->
  Py.getitem indices.1 fs = Some ts ->
  Py.getitem indices.2 (Z.min (fs + fsl) (Z.of_nat n) - 1) = Some te ->
  -1 <= ts <= te
  /\ te <= Z.of_nat (length all_events)
  /\ ((fs + fsl < Z.of_nat n /\ indices.1 !! Z.to_nat (fs + fsl) = Some te)
      \/ (Z.of_nat n <= fs + fsl /\ te = Z.of_nat (length all_events))).
Proof.
  intros Hidx Hn Hfs Hfsl Hts Hte.
  rewrite getitem_nonneg in Hts, Hte by lia.
  pose proof (get_event_indices_inv _ _ _ Hidx) as (Hl & _ & Hlen1).
  destruct (start_indices_loop_spec _ _ _ _ _ Hl) as (Hlen & Hall & Hsorted).
  assert (Z.to_nat (Z.min (fs + fsl) (Z.of_nat n) - 1) < length frame_times)%nat
    as Hi by lia.
  destruct (get_event_indices_spec frame_times all_events indices _ Hidx Hi)
    as (s & e & Hs & He & Hse & Hle & Hnext).
  rewrite Hte in He. simplify_eq.
  assert (ts <= s).
  { apply (Hsorted (Z.to_nat fs) (Z.to_nat (Z.min (fs + fsl) (Z.of_nat (length frame_times)) - 1)));
      [lia|done..]. }
  pose proof (Forall_lookup_1 _ _ _ _ Hall Hts) as Hb. simpl in Hb.
  split; [lia|]. split; [done|].
  destruct (Z.lt_ge_cases (fs + fsl) (Z.of_nat (length frame_times))) as [Hlt|Hge].
  - left. split; [done|].
    replace (S (Z.to_nat (Z.min (fs + fsl) (Z.of_nat (length frame_times)) - 1)))
      with (Z.to_nat (fs + fsl)) in * by lia.
    destruct (lookup_lt_is_Some_2 indices.1 (Z.to_nat (fs + fsl))) as [next Hn];
      [lia|].
    by rewrite Hn in *.
  - right. split; [done|].
    rewrite (proj2 (lookup_ge_None indices.1 _)); [done|]. lia.
Qed.

(** The events of the windows, one after the other, are the events from
    the start index of the first window on. *)
Lemma windows_tile_events self audio_frames frame_times all_events idx diff indices other
    starts sequences offset first :
  Windower.get_event_indices frame_times all_events = Some indices ->
  length frame_times = length (rows audio_frames) ->
  0 < It.frame_seq_len self ->
  0 <= offset < Z.of_nat (length (rows audio_frames)) ->
  py_range offset (Z.of_nat (length (rows audio_frames))) (It.frame_seq_len self)
  = Some starts ->
  Forall2 (fun fs sequence =>
             Windower.make_sequence self audio_frames frame_times all_events idx diff
               indices other fs
             = Some sequence) starts sequences ->
  indices.1 !! Z.to_nat offset = Some first ->
  0 <= first ->
  concat (events <$> sequences) = drop (Z.to_nat first) all_events.
Proof.
  intros Hidx Hlen Hfsl Hoff Hr Hall. revert offset first Hoff Hr.
  induction Hall as [|fs sequence starts sequences Hm Hrest IH];
    intros offset first Hoff Hr Hfirst Hpos;
    apply py_range_unfold in Hr; try done;
    destruct (Z.ltb_spec offset (Z.of_nat (length (rows audio_frames)))) as [Hlt|Hge];
    try lia.
  - by destruct Hr as (? & ? & _).
  - destruct Hr as (l' & [= -> ->] & Hr).
    apply make_sequence_inv in Hm as (ts & te & _ & Hts & Hte & _ & _ & _ & Hev & _).
    pose proof Hts as Hts'. rewrite getitem_nonneg in Hts' by lia.
    rewrite Hfirst in Hts'. simplify_eq.
    destruct (window_event_range frame_times all_events indices
                (length (rows audio_frames))
                offset (It.frame_seq_len self) ts te Hidx Hlen Hoff Hfsl Hts Hte)
      as (Hle & Hte_le & [[Hin Hnext]|[Hout ->]]).
    + rewrite fmap_cons. cbn [concat]. rewrite Hev.
      rewrite (IH (offset + It.frame_seq_len self) te) by (done || lia).
      apply slice_adjacent; lia.
    + apply py_range_unfold in Hr; [|done].
      destruct (Z.ltb_spec (offset + It.frame_seq_len self)
                  (Z.of_nat (length (rows audio_frames)))); [lia|].
      subst l'. inversion Hrest; subst.
      rewrite fmap_cons. cbn [concat fmap list_fmap]. rewrite Hev, app_nil_r.
      apply slice_to_end. lia.
Qed.

(** From the second window on, the pre-context is the event list of the
    window before. *)
Lemma windows_pre_context self audio_frames frame_times all_events idx diff indices other
    starts sequences offset (k : nat) prev cur :
  Windower.get_event_indices frame_times all_events = Some indices ->
  length frame_times = length (rows audio_frames) ->
  0 < It.frame_seq_len self -> 0 <= offset ->
  py_range offset (Z.of_nat (length (rows audio_frames))) (It.frame_seq_len self)
  = Some starts ->
  Forall2 (fun fs sequence =>
             Windower.make_sequence self audio_frames frame_times all_events idx diff
               indices other fs
             = Some sequence) starts sequences ->
  sequences !! k = Some prev -> sequences !! S k = Some cur ->
  pre_events cur
  = if Args.add_pre_tokens (It.args self)
       || (0 <=? Args.add_pre_tokens_at_step (It.args self))
    then Some (events prev) else None.
Proof.
  intros Hidx Hlen Hfsl Hoff Hr Hall Hprev Hcur.
  destruct (Forall2_lookup_r _ _ _ _ _ Hall Hprev) as (fs & Hfs & Hm).
  destruct (Forall2_lookup_r _ _ _ _ _ Hall Hcur) as (fs' & Hfs' & Hm').
  destruct (py_range_lookup _ _ _ _ _ _ Hfsl Hr Hfs) as [-> Hb].
  destruct (py_range_lookup _ _ _ _ _ _ Hfsl Hr Hfs') as [-> Hb'].
  set (fs := offset + Z.of_nat k * It.frame_seq_len self) in *.
  replace (offset + Z.of_nat (S k) * It.frame_seq_len self)
    with (fs + It.frame_seq_len self) in * by lia.
  apply make_sequence_inv in Hm as (ts & te & _ & Hts & Hte & _ & _ & _ & Hev & _).
  apply make_sequence_inv in Hm'
    as (ts' & _ & tp' & Hts' & _ & Htp' & _ & _ & _ & Hpre & _).
  rewrite Hpre. destruct (_ || _); [|done]. f_equal. rewrite Hev.
  replace (Z.max (fs + It.frame_seq_len self - It.frame_seq_len self) 0) with fs
    in Htp' by lia.
  rewrite Hts in Htp'. simplify_eq.
  destruct (window_event_range frame_times all_events indices
              (length (rows audio_frames))
              fs (It.frame_seq_len self) tp' te Hidx Hlen ltac:(lia) Hfsl Hts Hte)
    as (_ & _ & [[_ Hnext]|[Hout _]]); [|lia].
  rewrite getitem_nonneg in Hts' by lia. rewrite Hnext in Hts'. by simplify_eq.
Qed.

(** The first start index is not negative once there is an event and the
    first frame time is above minus infinity. *)
Lemma first_start_nonneg frame_times all_events indices (i : nat) s :
  Windower.get_event_indices frame_times all_events = Some indices ->
  all_events <> [] ->
  (forall t, head frame_times = Some t -> PrimFloat.ltb Float64.neg_infinity t = true) ->
  indices.1 !! i = Some s ->
  0 <= s.
Proof.
  intros Hidx Hev Hhead Hs.
  apply get_event_indices_inv in Hidx as (Hl & _ & _).
  destruct (start_indices_loop_spec _ _ _ _ _ Hl) as (_ & _ & Hsorted).
  destruct frame_times as [|t later];
    [simpl in Hl; injection Hl as Hl; by rewrite <- Hl in Hs|].
  destruct all_events as [|e rest]; [done|].
  assert (exists s0, indices.1 !! 0%nat = Some s0 /\ 0 <= s0) as (s0 & Hs0 & Hpos).
  { simpl in Hl. rewrite (Hhead t eq_refl) in Hl.
    match type of Hl with
    | (?c ≫= _) ≫= _ = _ => destruct c as [t0|]
    end; simpl in Hl; [|done].
    destruct (Windower.advance rest (0 + 1) t0 t) as [[[rest' index'] time']|] eqn:Ha;
      simpl in Hl; [|done].
    destruct (Windower.start_indices_loop later rest' index' time') as [l'|];
      simpl in Hl; [|done].
    apply advance_spec in Ha as (j & -> & _).
    injection Hl as <-. eexists. split; [done|]. lia. }
  pose proof (Hsorted 0%nat i s0 s ltac:(lia) Hs0 Hs). lia.
Qed.

(** [_create_sequences], taken apart. *)
Lemma create_sequences_offset self audio_frames frame_times all_events idx diff other
    raw sequences :
  Windower.create_sequences self audio_frames frame_times all_events idx diff other raw
  = Some sequences ->
  exists offset indices other_indices starts,
    Random.randint 0 (It.frame_seq_len self) raw = Some offset
    /\ 0 <= offset <= It.frame_seq_len self
    /\ 0 < It.frame_seq_len self
    /\ Windower.get_event_indices frame_times all_events = Some indices
    /\ py_range offset (Z.of_nat (length (rows audio_frames))) (It.frame_seq_len self)
       = Some starts
    /\ Forall2 (fun fs sequence =>
                  Windower.make_sequence self audio_frames frame_times all_events idx diff
                    indices other_indices fs = Some sequence)
               starts sequences.
Proof.
  unfold Windower.create_sequences. intros H.
  destruct (Random.randint _ _ _) as [offset|] eqn:Hrand; simpl in H; [|done].
  apply sequences_from_inv in H as (indices & other_indices & starts & Hidx & Hr & Hall).
  exists offset, indices, other_indices, starts. split; [done|].
  unfold Random.randint in Hrand.
  destruct (Z.ltb_spec (It.frame_seq_len self) 0); [done|]. simplify_eq.
  pose proof (Z.mod_pos_bound raw (It.frame_seq_len self - 0 + 1) ltac:(lia)).
  split; [lia|]. split; [|done].
  unfold py_range in Hr. destruct (Z.eqb_spec (It.frame_seq_len self) 0); [done|lia].
Qed.

End WindowerFacts.

Section WindowerProperties.
Import FrameFacts PipelineFacts WindowerFacts.

(** X1: [get_event_indices] returns whenever the value of every TIME_SHIFT
    event is within the doubles, and what it returns gives every frame a
    start index from [-1] to the last event and an end index that is the
    start index of the next frame, or the number of events for the last
    frame; so start is at most end, and the ranges of successive frames
    follow one another without a gap. *)
Theorem event_indices_are_aligned frame_times events2 :
  (Forall time_converts events2 ->
   is_Some (Windower.get_event_indices frame_times events2))
  /\ forall indices (i : nat),
       Windower.get_event_indices frame_times events2 = Some indices ->
       (i < length frame_times)%nat ->
       exists s e,
         indices.1 !! i = Some s
         /\ indices.2 !! i = Some e
         /\ -1 <= s <= e
         /\ e <= Z.of_nat (length events2)
         /\ e = match indices.1 !! S i with
                | Some next => next
                | None => Z.of_nat (length events2)
                end.
Proof.
  split; [apply get_event_indices_some|].
  intros indices i Hidx Hi. by apply (get_event_indices_spec frame_times).
Qed.

Lemma event_indices_are_aligned_witness :
  exists indices s e,
    Windower.get_event_indices demo_segments.2
      (parsed_events (Demo.input (Demo.draws Demo.half Demo.half 0))) = Some indices
    /\ indices.1 !! 1%nat = Some s
    /\ indices.2 !! 1%nat = Some e
    /\ -1 <= s <= e
    /\ e <= 6
    /\ e = match indices.1 !! 2%nat with
           | Some next => next
           | None => 6
           end.
Proof.
  destruct (event_indices_are_aligned demo_segments.2
              (parsed_events (Demo.input (Demo.draws Demo.half Demo.half 0))))
    as [Hsome Hspec].
  destruct Hsome as [indices Hidx].
  { repeat constructor; intros _; vm_compute; eexists; reflexivity. }
  destruct (Hspec indices 1%nat Hidx) as (s & e & H); [vm_compute; lia|].
  exists indices, s, e. split; [exact Hidx|]. exact H.
Defined.

(** X2: the windows of [_create_sequences] partition the frames from the
    drawn offset on: their frame rows, one window after the other, are the
    rows of the audio without the first [offset] rows, and the number of
    windows is [ceil((n_frames - offset) / frame_seq_len)], none when the
    offset is not below the number of frames. *)
Theorem windows_partition_frames self audio_frames frame_times all_events idx diff other
    raw sequences :
  Windower.create_sequences self audio_frames frame_times all_events idx diff other raw
  = Some sequences ->
  exists offset,
    Random.randint 0 (It.frame_seq_len self) raw = Some offset
    /\ 0 <= offset <= It.frame_seq_len self
    /\ concat ((fun sequence => rows (frames sequence)) <$> sequences)
       = drop (Z.to_nat offset) (rows audio_frames)
    /\ Z.of_nat (length sequences)
       = Z.max 0 ((Z.of_nat (length (rows audio_frames)) - offset
                   + It.frame_seq_len self - 1) `div` It.frame_seq_len self).
Proof.
  intros H.
  apply create_sequences_offset in H
    as (offset & indices & other_indices & starts & Hrand & Hoff & Hpos & Hidx & Hr & Hall).
  exists offset. split; [done|]. split; [done|]. split.
  - eapply windows_tile_frames; [done| |done..]. lia.
  - rewrite <- (Forall2_length _ _ _ Hall).
    unfold py_range in Hr. destruct (_ =? _); [done|].
    destruct (Z.ltb_spec 0 (It.frame_seq_len self)); [|lia].
    simplify_eq. rewrite length_fmap, length_seq. lia.
Qed.

Lemma windows_partition_frames_witness :
  exists sequences,
    Windower.create_sequences Demo.plain demo_segments.1 demo_segments.2
      (parsed_events (Demo.input (Demo.draws Demo.half Demo.half 0))) 7 Demo.one None 1
    = Some sequences
    /\ concat ((fun sequence => rows (frames sequence)) <$> sequences)
       = drop 1 (rows demo_segments.1)
    /\ length sequences = 2%nat.
Proof.
  destruct (Windower.create_sequences Demo.plain demo_segments.1 demo_segments.2
              (parsed_events (Demo.input (Demo.draws Demo.half Demo.half 0)))
              7 Demo.one None 1) as [sequences|] eqn:H;
    [|vm_compute in H; discriminate H].
  exists sequences. split; [reflexivity|].
  destruct (windows_partition_frames _ _ _ _ _ _ _ _ _ H)
    as (offset & Hrand & _ & Hrows & Hlen).
  vm_compute in Hrand. injection Hrand as <-.
  split; [exact Hrows|]. apply Nat2Z.inj. rewrite Hlen. vm_compute. reflexivity.
Defined.

(** X3: with as many frame times as frames, at least one event and a first
    frame time above minus infinity, the event lists of the windows, one
    after the other, are a suffix of the parsed events, the one that begins
    at the start index of the first window's first frame: from there on no
    event is left out and none is in two windows. *)
Theorem windows_partition_events self audio_frames frame_times all_events idx diff other
    raw sequences :
  length frame_times = length (rows audio_frames) ->
  all_events <> [] ->
  (forall t, head frame_times = Some t -> PrimFloat.ltb Float64.neg_infinity t = true) ->
  Windower.create_sequences self audio_frames frame_times all_events idx diff other raw
  = Some sequences ->
  exists first : nat,
    concat (events <$> sequences) = drop first all_events
    /\ forall offset indices s,
         Random.randint 0 (It.frame_seq_len self) raw = Some offset ->
         Windower.get_event_indices frame_times all_events = Some indices ->
         indices.1 !! Z.to_nat offset = Some s ->
         s = Z.of_nat first.
Proof.
  intros Hlen Hev Hhead H.
  apply create_sequences_offset in H
    as (offset & indices & other_indices & starts & Hrand & Hoff & Hpos & Hidx & Hr & Hall).
  pose proof (get_event_indices_inv _ _ _ Hidx) as (_ & _ & Hl).
  destruct (indices.1 !! Z.to_nat offset) as [first|] eqn:Hfirst.
  - pose proof (first_start_nonneg _ _ _ _ _ Hidx Hev Hhead Hfirst) as Hnn.
    assert (offset < Z.of_nat (length (rows audio_frames))) as Hlt.
    { apply lookup_lt_Some in Hfirst. lia. }
    exists (Z.to_nat first). split.
    + eapply windows_tile_events; [done|done|done| |done|done|done|done]. lia.
    + intros offset' indices' s Hrand' Hidx' Hs.
      rewrite Hrand in Hrand'. rewrite Hidx in Hidx'. simplify_eq. lia.
  - exists (length all_events). split.
    + assert (Z.of_nat (length (rows audio_frames)) <= offset) as Hge.
      { apply lookup_ge_None in Hfirst. lia. }
      apply py_range_unfold in Hr; [|done].
      destruct (Z.ltb_spec offset (Z.of_nat (length (rows audio_frames)))); [lia|].
      subst starts. inversion Hall; subst. simpl. symmetry. by apply drop_ge.
    + intros offset' indices' s Hrand' Hidx' Hs.
      rewrite Hrand in Hrand'. rewrite Hidx in Hidx'. by simplify_eq.
Qed.

Lemma windows_partition_events_witness :
  exists sequences,
    Windower.create_sequences Demo.plain demo_segments.1 demo_segments.2
      (parsed_events (Demo.input (Demo.draws Demo.half Demo.half 0))) 7 Demo.one None 1
    = Some sequences
    /\ concat (events <$> sequences)
       = drop 2 (parsed_events (Demo.input (Demo.draws Demo.half Demo.half 0))).
Proof.
  destruct (Windower.create_sequences Demo.plain demo_segments.1 demo_segments.2
              (parsed_events (Demo.input (Demo.draws Demo.half Demo.half 0)))
              7 Demo.one None 1) as [sequences|] eqn:H;
    [|vm_compute in H; discriminate H].
  exists sequences. split; [reflexivity|].
  destruct (windows_partition_events Demo.plain demo_segments.1 demo_segments.2
              (parsed_events (Demo.input (Demo.draws Demo.half Demo.half 0)))
              7 Demo.one None 1 sequences)
    as (first & Hcat & Hfirst);
    [reflexivity|discriminate|intros t [= <-]; vm_compute; reflexivity|exact H|].
  rewrite Hcat. f_equal. apply Nat2Z.inj.
  destruct (Windower.get_event_indices demo_segments.2
              (parsed_events (Demo.input (Demo.draws Demo.half Demo.half 0))))
    as [indices|] eqn:Hidx; [|vm_compute in Hidx; discriminate Hidx].
  symmetry. apply (Hfirst 1 indices); [reflexivity|reflexivity|].
  vm_compute in Hidx. injection Hidx as <-. reflexivity.
Defined.

(** X4: with as many frame times as frames, the pre-context of every window
    after the first is the main event list of the window before it (and is
    absent when neither [add_pre_tokens] nor a curriculum step for it is
    configured). *)
Theorem pre_context_is_previous_window self audio_frames frame_times all_events idx diff
    other raw sequences (k : nat) prev cur :
  length frame_times = length (rows audio_frames) ->
  Windower.create_sequences self audio_frames frame_times all_events idx diff other raw
  = Some sequences ->
  sequences !! k = Some prev -> sequences !! S k = Some cur ->
  pre_events cur
  = if Args.add_pre_tokens (It.args self)
       || (0 <=? Args.add_pre_tokens_at_step (It.args self))
    then Some (events prev) else None.
Proof.
  intros Hlen H Hprev Hcur.
  apply create_sequences_offset in H
    as (offset & indices & other_indices & starts & Hrand & Hoff & Hpos & Hidx & Hr & Hall).
  eapply windows_pre_context; [done|done|done| |done..]. lia.
Qed.

Lemma pre_context_is_previous_window_witness :
  exists sequences prev cur,
    Windower.create_sequences demo_with_pre demo_segments.1 demo_segments.2
      (parsed_events (Demo.input (Demo.draws Demo.half Demo.half 0))) 7 Demo.one None 1
    = Some sequences
    /\ sequences !! 0%nat = Some prev
    /\ sequences !! 1%nat = Some cur
    /\ pre_events cur = Some (events prev).
Proof.
  destruct (Windower.create_sequences demo_with_pre demo_segments.1 demo_segments.2
              (parsed_events (Demo.input (Demo.draws Demo.half Demo.half 0)))
              7 Demo.one None 1) as [sequences|] eqn:H;
    [|vm_compute in H; discriminate H].
  destruct (sequences !! 0%nat) as [prev|] eqn:Hprev;
    [|vm_compute in H; injection H as <-; discriminate Hprev].
  destruct (sequences !! 1%nat) as [cur|] eqn:Hcur;
    [|vm_compute in H; injection H as <-; discriminate Hcur].
  exists sequences, prev, cur. split; [reflexivity|].
  split; [exact Hprev|]. split; [exact Hcur|].
  apply (pre_context_is_previous_window demo_with_pre demo_segments.1 demo_segments.2
           (parsed_events (Demo.input (Demo.draws Demo.half Demo.half 0)))
           7 Demo.one None 1 sequences 0%nat prev cur);
    [reflexivity|exact H|exact Hprev|exact Hcur].
Defined.

End WindowerProperties.

(** ** Segmenting and padding the frames *)

Module SegmentFacts.
Import FrameFacts.

(** Rows of [h] cut from a list, laid end to end again. *)
Lemma concat_rows {A} (l : list A) (h q : nat) :
  concat ((fun i => take h (drop (i * h) l)) <$> seq 0 q) = take (q * h) l.
Proof.
  induction q as [|q IH]; [done|].
  rewrite seq_S, fmap_app, concat_app, IH. simpl.
  rewrite app_nil_r, take_take_drop. f_equal. lia.
Qed.

Lemma reshape_flatten samples hop_length frames :
  0 < hop_length ->
  FrameSegmenter.reshape samples hop_length = Some frames ->
  flatten frames = samples.
Proof.
  intros Hhop. unfold FrameSegmenter.reshape.
  destruct (Z.eqb_spec (Z.of_nat (length samples) `mod` hop_length) 0) as [Hmod|];
    [|done].
  intros [= <-]. unfold flatten. simpl. rewrite concat_rows.
  apply take_ge.
  pose proof (Z.div_mod (Z.of_nat (length samples)) hop_length ltac:(lia)).
  assert (0 <= Z.of_nat (length samples) `div` hop_length) by (apply Z.div_pos; lia).
  nia.
Qed.

Lemma reshape_multiple samples hop_length :
  0 < hop_length ->
  Z.of_nat (length samples) `mod` hop_length = 0 ->
  is_Some (FrameSegmenter.reshape samples hop_length).
Proof.
  intros Hhop Hmod. unfold FrameSegmenter.reshape.
  rewrite Hmod. simpl. by eexists.
Qed.

Lemma padded_length_multiple (L hop : Z) :
  0 < hop -> (L + (hop - L `mod` hop)) `mod` hop = 0.
Proof.
  intros Hhop.
  rewrite (Z.div_mod L hop) at 1 by lia.
  replace (hop * (L `div` hop) + L `mod` hop + (hop - L `mod` hop))
    with ((L `div` hop + 1) * hop) by lia.
  apply Z.mod_mul. lia.
Qed.

Lemma concat_replicate_replicate {A} (k c : nat) (z : A) :
  concat (replicate k (replicate c z)) = replicate (k * c) z.
Proof.
  induction k as [|k IH]; [done|].
  simpl. by rewrite IH, replicate_add.
Qed.

Lemma concat_fmap_fmap {A B} (f : A -> B) (l : list (list A)) :
  concat (fmap (M := list) f <$> l) = f <$> concat l.
Proof.
  induction l as [|r l IH]; [done|]. rewrite fmap_cons. simpl. by rewrite IH, fmap_app.
Qed.

Lemma flatten_to_float32 (a : Array2) :
  flatten (to_float32 a) = Float64.to_float32 <$> flatten a.
Proof. unfold flatten, to_float32. simpl. apply concat_fmap_fmap. Qed.

(** When [_get_frames] raises. *)
Lemma get_frames_none_iff (self : It.t) (samples : list float) :
  FrameSegmenter.get_frames self samples = None
  <-> Args.hop_length (It.args self) <= 0
      \/ Float64.int_truediv (Args.sample_rate (It.args self))
                              (Args.hop_length (It.args self)) = None.
Proof.
  unfold FrameSegmenter.get_frames.
  set (hop := Args.hop_length (It.args self)).
  destruct (Z.eqb_spec hop 0) as [Hz|Hnz]; [split; [lia|done]|].
  destruct (Z.ltb_spec (hop - Z.of_nat (length samples) `mod` hop) 0) as [Hneg|Hpad].
  - split; [|done]. intros _. left.
    destruct (Z.lt_trichotomy hop 0) as [|[|Hpos]]; [lia..|].
    pose proof (Z.mod_pos_bound (Z.of_nat (length samples)) hop Hpos). lia.
  - assert (0 < hop) as Hpos.
    { destruct (Z.lt_trichotomy hop 0) as [Hlt|[|]]; [|lia|done].
      pose proof (Z.mod_neg_bound (Z.of_nat (length samples)) hop Hlt). lia. }
    destruct (reshape_multiple
                (samples ++ replicate (Z.to_nat (hop - Z.of_nat (length samples) `mod` hop))
                                      Float64.zero) hop Hpos) as [fr Hfr].
    { rewrite length_app, length_replicate, Nat2Z.inj_add, Z2Nat.id by lia.
      by apply padded_length_multiple. }
    rewrite Hfr. simpl.
    destruct (Float64.int_truediv (Args.sample_rate (It.args self)) hop) as [fps|];
      simpl.
    + split; [done|]. intros [?|?]; [lia|done].
    + split; [by right|done].
Qed.

End SegmentFacts.

(** A configuration whose [sample_rate] is a very large [int]. *)
Definition overflowing_rate_args (sample_rate : Z) : Args.t :=
  {| Args.src_seq_len := 3;
     Args.tgt_seq_len := 8;
     Args.sample_rate := sample_rate;
     Args.hop_length := 2;
     Args.special_token_len := 2;
     Args.class_dropout_prob := Float64.zero;
     Args.diff_dropout_prob := Float64.zero;
     Args.add_pre_tokens := false;
     Args.add_pre_tokens_at_step := -1;
     Args.max_pre_token_len := 0;
     Args.add_empty_sequences := false;
     Args.add_empty_sequences_at_step := -1;
     Args.center_pad_decoder := false;
     Args.diff_token_index := 0;
     Args.style_token_index := 1;
     Args.timing_random_offset := 0 |}.

Section SegmentProperties.
Import FrameFacts SegmentFacts PipelineFacts.

(** X5: [_get_frames] raises exactly when [hop_length] is not positive
    ([ZeroDivisionError] at zero, [ValueError] from [np.pad] below zero) or
    the quotient [sample_rate / hop_length] of the two [int]s is beyond the
    doubles ([OverflowError]); otherwise it returns frames for every sample
    array, the empty one included. *)
Theorem get_frames_raises_iff (self : It.t) (samples : list float) :
  FrameSegmenter.get_frames self samples = None
  <-> Args.hop_length (It.args self) <= 0
      \/ Float64.int_truediv (Args.sample_rate (It.args self))
                              (Args.hop_length (It.args self)) = None.
Proof. apply get_frames_none_iff. Qed.

Lemma get_frames_raises_iff_witness :
  FrameSegmenter.get_frames
    (It.init (overflowing_rate_args (10 ^ 400)) Demo.tokenizer false)
    (replicate 4 Demo.one)
  = None
  /\ FrameSegmenter.get_frames
       (It.init (scenario_args 8 0) Demo.tokenizer false) (replicate 4 Demo.one)
     = None.
Proof.
  split.
  - apply (get_frames_raises_iff
             (It.init (overflowing_rate_args (10 ^ 400)) Demo.tokenizer false)
             (replicate 4 Demo.one)).
    right. vm_compute. reflexivity.
  - apply (get_frames_raises_iff
             (It.init (scenario_args 8 0) Demo.tokenizer false) (replicate 4 Demo.one)).
    left. simpl. lia.
Defined.

(** X6: the frames of [_get_frames], laid end to end, are the samples
    followed by zeros only: between one and [hop_length] of them, a whole
    frame of zeros when the length is a multiple of [hop_length]; and there
    is one frame time per frame. *)
Theorem get_frames_keeps_samples (self : It.t) (samples : list float) frames frame_times :
  FrameSegmenter.get_frames self samples = Some (frames, frame_times) ->
  let hop_length := Args.hop_length (It.args self) in
  let pad := hop_length - Z.of_nat (length samples) `mod` hop_length in
  flatten frames = samples ++ replicate (Z.to_nat pad) Float64.zero
  /\ 1 <= pad <= hop_length
  /\ length frame_times = length (rows frames).
Proof.
  intros H. cbn zeta.
  pose proof (get_frames_spec _ _ _ _ H) as (Hpos & _ & _ & _ & Htimes).
  unfold FrameSegmenter.get_frames in H.
  set (hop := Args.hop_length (It.args self)) in *.
  destruct (Z.eqb_spec hop 0); [done|].
  destruct (Z.ltb_spec (hop - Z.of_nat (length samples) `mod` hop) 0); [done|].
  destruct (FrameSegmenter.reshape _ hop) as [fr|] eqn:Hr; simpl in H; [|done].
  destruct (Float64.int_truediv _ hop) as [fps|]; simpl in H; [|done].
  simplify_eq. apply reshape_flatten in Hr; [|done].
  pose proof (Z.mod_pos_bound (Z.of_nat (length samples)) hop Hpos).
  split; [done|]. split; [lia|done].
Qed.

Lemma get_frames_keeps_samples_witness :
  exists frames frame_times,
    FrameSegmenter.get_frames Demo.plain (replicate 4 Demo.one) = Some (frames, frame_times)
    /\ flatten frames = replicate 4 Demo.one ++ replicate 2 Float64.zero.
Proof.
  destruct (FrameSegmenter.get_frames Demo.plain (replicate 4 Demo.one))
    as [[frames frame_times]|] eqn:H; [|vm_compute in H; discriminate H].
  exists frames, frame_times. split; [reflexivity|].
  apply (get_frames_keeps_samples Demo.plain (replicate 4 Demo.one) frames frame_times H).
Defined.

(** X7: [_pad_frame_sequence] rounds every sample to single precision,
    keeps a window of at most [frame_seq_len] frames whole and fills up with
    zeros: the flat vector is the window's rounded samples followed by
    [(frame_seq_len - k) * width] zeros. A longer window is cut to its first
    [frame_seq_len] frames. *)
Theorem pad_frame_sequence_zero_fills (self : It.t) (sequence : Tokenized Array2) out :
  pad_frame_sequence self sequence = Some out ->
  let frames := tk_frames sequence in
  let k := Z.of_nat (length (rows frames)) in
  (k <= It.frame_seq_len self ->
   tk_frames out
   = (Float64.to_float32 <$> flatten frames)
       ++ replicate (Z.to_nat (It.frame_seq_len self - k) * ncols frames) Float64.zero)
  /\ (It.frame_seq_len self < k ->
      tk_frames out
      = Float64.to_float32
          <$> concat (take (Z.to_nat (It.frame_seq_len self)) (rows frames))).
Proof.
  unfold pad_frame_sequence. intros H. cbn zeta.
  rewrite <- flatten_to_float32, <- concat_fmap_fmap, fmap_take.
  change (fmap Float64.to_float32 <$> rows (tk_frames sequence))
    with (rows (to_float32 (tk_frames sequence))).
  replace (length (rows (tk_frames sequence)))
    with (length (rows (to_float32 (tk_frames sequence))))
    by apply to_float32_shape.
  change (ncols (tk_frames sequence)) with (ncols (to_float32 (tk_frames sequence))).
  set (frames := to_float32 (tk_frames sequence)) in *. clearbody frames.
  match type of H with (?e ≫= _) = _ => destruct e as [flat|] eqn:Hflat end;
    simpl in H; [|done].
  simplify_eq/=.
  destruct (Z.eqb_spec (Z.of_nat (length (rows frames))) (It.frame_seq_len self))
    as [Heq|Hne]; simpl in Hflat.
  - simplify_eq. split; [|lia]. intros _.
    rewrite <- Heq, Z.sub_diag. simpl. by rewrite app_nil_r.
  - destruct (Z.ltb_spec (It.frame_seq_len self) 0); [done|]. simplify_eq.
    unfold flatten. simpl. unfold Py.slice_to.
    split; intros Hk.
    + rewrite WindowerFacts.slice_inside by lia.
      rewrite Z.min_r by lia. simpl.
      rewrite Z.sub_0_r, Nat2Z.id, firstn_all.
      rewrite concat_app, drop_replicate, concat_replicate_replicate.
      f_equal. f_equal. f_equal. change (Z.to_nat 0) with 0%nat. rewrite drop_0. lia.
    + rewrite WindowerFacts.slice_inside by lia.
      rewrite Z.min_l by lia. simpl. rewrite Z.sub_0_r.
      change (Z.to_nat 0) with 0%nat. rewrite drop_0.
      rewrite drop_ge; [by rewrite app_nil_r|].
      rewrite length_replicate, length_take. lia.
Qed.

Lemma pad_frame_sequence_zero_fills_witness :
  exists out,
    pad_frame_sequence Demo.plain
      (tokenize_sequence Demo.plain
         {| time := tt; frames := mkArray2 [[STEPS_PER_MILLISECOND; Demo.one]] 2;
            events := [];
            beatmap_idx := 7; difficulty := Demo.one; pre_events := None;
            other := None |}
         (Demo.draws Demo.half Demo.half 0))
    = Some out
    /\ tk_frames out
       = [Float64.to_float32 STEPS_PER_MILLISECOND; Demo.one] ++ replicate 2 Float64.zero
    /\ Float64.to_float32 STEPS_PER_MILLISECOND <> STEPS_PER_MILLISECOND.
Proof.
  destruct (pad_frame_sequence Demo.plain
              (tokenize_sequence Demo.plain
                 {| time := tt; frames := mkArray2 [[STEPS_PER_MILLISECOND; Demo.one]] 2;
                    events := []; beatmap_idx := 7; difficulty := Demo.one;
                    pre_events := None; other := None |}
                 (Demo.draws Demo.half Demo.half 0))) as [out|] eqn:H;
    [|vm_compute in H; discriminate H].
  exists out. split; [reflexivity|]. split.
  - apply (pad_frame_sequence_zero_fills Demo.plain _ out H).
    simpl. lia.
  - vm_compute. discriminate.
Defined.

End SegmentProperties.

(** ** The layout of the packed buffers *)

Module LayoutFacts.
Import FrameFacts PackFacts WindowerFacts.

(** The budget that [_pad_and_split_token_sequence] computes for a
    tokenized window: [(n, m, o, start_index)]. *)
Definition packing (self : It.t) (sequence : Tokenized (list float)) : Z * Z * Z * Z :=
  budget self (Z.of_nat (length (tokens sequence)))
    (num_pre_tokens (It.args self) (default [] (pre_tokens sequence)))
    (match tk_other sequence with
     | Some _ =>
         Z.of_nat (length (default [] (other_tokens <$> tk_other sequence)))
         + Args.special_token_len (It.args self)
     | None => 0
     end).

(** The writes of [pack], one by one. *)
Lemma pack_layout self sequence d pre oth n m o start_index input_tokens label_tokens ex :
  pack self sequence d pre oth n m o start_index input_tokens label_tokens = Some ex ->
  let stl := Args.special_token_len (It.args self) in
  let s := start_index + o in
  exists t1 t2 t3 t4 offset,
    length t1 = length input_tokens
    /\ write_side_tokens (It.args self) t1 s (difficulty_token sequence)
         (beatmap_idx_token sequence) = Some t2
    /\ (if 0 <? m
        then Torch.setslice t2 (s + stl) (s + m + stl) (Py.slice_from pre (- m)) = Some t3
        else t3 = t2)
    /\ Torch.setslice t3 (s + m + stl) (s + m + stl + n) (Py.slice_to (tokens sequence) n)
       = Some t4
    /\ Torch.setslice label_tokens (s + m + stl) (s + m + stl + n)
         (Py.slice (tokens sequence) 1 (n + 1)) = Some (labels ex)
    /\ decoder_input_ids ex = jittered self offset <$> t4
    /\ drawn_offset self d offset.
Proof.
  unfold pack. intros H. cbn zeta.
  match type of H with (?e ≫= _) = _ => destruct e as [t1|] eqn:H1 end;
    simpl in H; [|done].
  assert (length t1 = length input_tokens) as Hl1.
  { destruct (0 <? o); [|congruence].
    destruct (tk_other sequence) as [g|]; simpl in H1; [|done].
    destruct (write_side_tokens _ _ _ _ _) as [t0|] eqn:H0; simpl in H1; [|done].
    apply write_side_tokens_length in H0. rewrite <- H0.
    destruct (_ <? o); [|congruence]. by apply setslice_length in H1. }
  destruct (write_side_tokens _ t1 _ _ _) as [t2|] eqn:H2; simpl in H; [|done].
  match type of H with (?e ≫= _) = _ => destruct e as [t3|] eqn:H3 end;
    simpl in H; [|done].
  destruct (Torch.setslice t3 _ _ _) as [t4|] eqn:H4; simpl in H; [|done].
  destruct (Torch.setslice label_tokens _ _ _) as [lab|] eqn:H5; simpl in H; [|done].
  assert (if 0 <? m
          then Torch.setslice t2 (start_index + o + Args.special_token_len (It.args self))
                 (start_index + o + m + Args.special_token_len (It.args self))
                 (Py.slice_from pre (- m)) = Some t3
          else t3 = t2) as H3'.
  { destruct (0 <? m); [done|congruence]. }
  unfold jittered, drawn_offset.
  destruct (Z.ltb_spec 0 (Args.timing_random_offset (It.args self))).
  - destruct (Random.randint _ _ _) as [offset|] eqn:Hdraw; simpl in H; [|done].
    simplify_eq/=. exists t1, t2, t3, t4, offset. split_and!; try done.
    intros _. split; [done|]. by apply randint_range in Hdraw.
  - simplify_eq/=. exists t1, t2, t3, t4, 0. split_and!; try done; [|lia].
    by rewrite list_fmap_id.
Qed.

(** A slice assignment whose source has the slice's length. *)
Lemma setslice_exact (t src t' : list Z) (a n : Z) :
  0 <= a -> 0 <= n -> a + n <= Z.of_nat (length t) ->
  length src = Z.to_nat n ->
  Torch.setslice t a (a + n) src = Some t' ->
  t' = take (Z.to_nat a) t ++ src ++ drop (Z.to_nat a + Z.to_nat n) t.
Proof.
  intros Ha Hn Hfit Hsrc. unfold Torch.setslice, Py.clamp_index.
  destruct (Z.ltb_spec a 0), (Z.ltb_spec (a + n) 0); try lia.
  rewrite !Z.min_l by lia.
  replace (a + n - a) with n by lia.
  destruct (decide _); [|done]. by intros [= <-].
Qed.

Lemma setslice_exact_lookup (t src t' : list Z) (a n : Z) (i : nat) :
  0 <= a -> 0 <= n -> a + n <= Z.of_nat (length t) ->
  length src = Z.to_nat n ->
  Torch.setslice t a (a + n) src = Some t' ->
  t' !! i = if decide (Z.to_nat a <= i < Z.to_nat a + Z.to_nat n)%nat
            then src !! (i - Z.to_nat a)%nat else t !! i.
Proof.
  intros Ha Hn Hfit Hsrc H.
  rewrite (setslice_exact _ _ _ _ _ Ha Hn Hfit Hsrc H).
  apply lookup_spliced; [done|lia].
Qed.

Lemma slice_to_take {A} (l : list A) (n : Z) :
  0 <= n <= Z.of_nat (length l) -> Py.slice_to l n = take (Z.to_nat n) l.
Proof.
  intros Hn. unfold Py.slice_to. rewrite slice_inside by lia.
  by rewrite Z.sub_0_r.
Qed.

Lemma slice_successors {A} (l : list A) (n : Z) :
  0 <= n -> n + 1 <= Z.of_nat (length l) ->
  Py.slice l 1 (n + 1) = take (Z.to_nat n) (drop 1 l).
Proof.
  intros Hn Hl. rewrite slice_inside by lia.
  by replace (n + 1 - 1) with n by lia.
Qed.

Lemma slice_last {A} (l : list A) (m : Z) :
  0 < m <= Z.of_nat (length l) ->
  Py.slice_from l (- m) = drop (length l - Z.to_nat m) l.
Proof.
  intros Hm. unfold Py.slice_from, Py.slice, Py.clamp_index.
  destruct (Z.ltb_spec (- m) 0); [|lia].
  destruct (Z.ltb_spec (Z.of_nat (length l)) 0); [lia|].
  rewrite Z.max_l, Z.min_l by lia.
  replace (Z.to_nat (- m + Z.of_nat (length l))) with (length l - Z.to_nat m)%nat by lia.
  apply take_ge. rewrite length_drop. lia.
Qed.

(** What the budget guarantees in both packing modes. *)
Lemma budget_bounds self len_tokens npre nother :
  PackFacts.initialized self ->
  0 <= Args.special_token_len (It.args self) ->
  Args.special_token_len (It.args self) + 4 <= Args.tgt_seq_len (It.args self) ->
  1 <= len_tokens -> 0 <= npre -> 0 <= nother ->
  let b := budget self len_tokens npre nother in
  let n := b.1.1.1 in
  let m := b.1.1.2 in
  let s := b.2 + b.1.2 in
  0 <= n <= len_tokens - 1
  /\ m <= npre
  /\ 0 <= s
  /\ 0 <= s + Args.special_token_len (It.args self)
     <= s + Z.max m 0 + Args.special_token_len (It.args self)
  /\ s + Z.max m 0 + Args.special_token_len (It.args self)
     <= Args.tgt_seq_len (It.args self)
  /\ 0 <= s + m + Args.special_token_len (It.args self)
  /\ s + m + Args.special_token_len (It.args self) + n <= Args.tgt_seq_len (It.args self)
  /\ (Args.center_pad_decoder (It.args self) = true ->
      s + m + Args.special_token_len (It.args self) = It.pre_token_len self)
  /\ (Args.center_pad_decoder (It.args self) = false -> b.2 = 0).
Proof.
  intros (_ & Hmin & Hpre) Hstl Htgt Hlen Hnpre Hnother.
  unfold budget. rewrite Hmin.
  assert (0 <= It.pre_token_len self <= Args.tgt_seq_len (It.args self)) as Hp.
  { rewrite Hpre.
    pose proof (Z.div_pos (Args.tgt_seq_len (It.args self)) 2).
    pose proof (Z.div_le_upper_bound (Args.tgt_seq_len (It.args self)) 2
                  (Args.tgt_seq_len (It.args self))).
    lia. }
  destruct (Args.center_pad_decoder (It.args self)); cbn zeta; simpl; lia.
Qed.

Lemma num_pre_tokens_le args pre : num_pre_tokens args pre <= Z.of_nat (length pre).
Proof.
  unfold num_pre_tokens.
  destruct (Args.add_pre_tokens args), (0 <? Args.max_pre_token_len args); lia.
Qed.

(** The buffers and the intermediate tensors of a successful packing. *)
Lemma pad_and_split_layout self sequence d ex :
  pad_and_split_token_sequence self sequence d = Some ex ->
  let stl := Args.special_token_len (It.args self) in
  let tgt := Args.tgt_seq_len (It.args self) in
  let b := packing self sequence in
  let s := b.2 + b.1.2 in
  let m := b.1.1.2 in
  let n := b.1.1.1 in
  0 <= tgt
  /\ exists t1 t2 t3 t4 offset,
       Z.of_nat (length t1) = tgt
       /\ write_side_tokens (It.args self) t1 s (difficulty_token sequence)
            (beatmap_idx_token sequence) = Some t2
       /\ (if 0 <? m
           then Torch.setslice t2 (s + stl) (s + m + stl)
                  (Py.slice_from (default [] (pre_tokens sequence)) (- m)) = Some t3
           else t3 = t2)
       /\ Torch.setslice t3 (s + m + stl) (s + m + stl + n)
            (Py.slice_to (tokens sequence) n) = Some t4
       /\ Torch.setslice (replicate (Z.to_nat tgt) LABEL_IGNORE_ID)
            (s + m + stl) (s + m + stl + n)
            (Py.slice (tokens sequence) 1 (n + 1)) = Some (labels ex)
       /\ decoder_input_ids ex = jittered self offset <$> t4
       /\ drawn_offset self d offset.
Proof.
  unfold pad_and_split_token_sequence. intros H. cbn zeta.
  destruct (Torch.full _ (Tok.pad_id _)) as [inp|] eqn:Hinp; simpl in H; [|done].
  destruct (Torch.full _ LABEL_IGNORE_ID) as [lab|] eqn:Hlab; simpl in H; [|done].
  assert (0 <= Args.tgt_seq_len (It.args self)) as Htgt.
  { unfold Torch.full in Hinp.
    by destruct (Z.ltb_spec (Args.tgt_seq_len (It.args self)) 0). }
  apply full_length in Hinp as [Hinp _]. apply full_length in Hlab as [_ ->].
  apply pack_layout in H
    as (t1 & t2 & t3 & t4 & offset & H1 & H2 & H3 & H4 & H5 & H6 & Hdrawn).
  split; [done|]. exists t1, t2, t3, t4, offset.
  split_and!; try done. by rewrite H1.
Qed.

Lemma setitem_inv {A} (l l' : list A) (i : Z) (x : A) :
  0 <= i -> Py.setitem l i x = Some l' ->
  (Z.to_nat i < length l)%nat /\ l' = <[Z.to_nat i := x]> l.
Proof.
  intros Hi. unfold Py.setitem, Py.index_of.
  destruct (Z.ltb_spec i 0); [lia|].
  destruct (Z.leb_spec 0 i); [|lia].
  destruct (Z.ltb_spec i (Z.of_nat (length l))); simpl; [|done].
  intros [= <-]. split; [lia|done].
Qed.

(** What [write_side_tokens] leaves at the two positions. *)
Lemma write_side_tokens_lookup args t s dt bt t' :
  0 <= s ->
  write_side_tokens args t s dt bt = Some t' ->
  (0 <= Args.style_token_index args ->
   t' !! Z.to_nat (s + Args.style_token_index args) = Some bt)
  /\ (0 <= Args.diff_token_index args ->
      Args.diff_token_index args <> Args.style_token_index args ->
      t' !! Z.to_nat (s + Args.diff_token_index args) = Some dt).
Proof.
  intros Hs. unfold write_side_tokens. intros H.
  match type of H with (?e ≫= _) = _ => destruct e as [t0|] eqn:H0 end;
    simpl in H; [|done].
  split.
  - intros Hst. destruct (Z.leb_spec 0 (Args.style_token_index args)); [|lia].
    apply setitem_inv in H as [Hlt ->]; [|lia].
    by apply list_lookup_insert_eq.
  - intros Hd Hne. destruct (Z.leb_spec 0 (Args.diff_token_index args)); [|lia].
    apply setitem_inv in H0 as [Hlt ->]; [|lia].
    destruct (Z.leb_spec 0 (Args.style_token_index args)).
    + apply setitem_inv in H as [_ ->]; [|lia].
      rewrite list_lookup_insert_ne by lia.
      by apply list_lookup_insert_eq.
    + simplify_eq. by apply list_lookup_insert_eq.
Qed.

(** The window without its pre-context tokens. *)
Definition without_pre_tokens (sequence : Tokenized (list float))
  : Tokenized (list float) :=
  {| tk_frames := tk_frames sequence;
     tokens := tokens sequence;
     pre_tokens := None;
     beatmap_idx_token := beatmap_idx_token sequence;
     difficulty_token := difficulty_token sequence;
     tk_beatmap_idx := tk_beatmap_idx sequence;
     tk_difficulty := tk_difficulty sequence;
     tk_other := tk_other sequence |}.

Lemma pack_without_pre self sequence d pre pre' oth n m o start_index inp lab :
  m <= 0 ->
  pack self sequence d pre oth n m o start_index inp lab
  = pack self (without_pre_tokens sequence) d pre' oth n m o start_index inp lab.
Proof.
  intros Hm. unfold pack.
  destruct (Z.ltb_spec 0 m); [lia|]. reflexivity.
Qed.

(** The side tokens of the main segment in the emitted input ids: the
    later writes start at [start_index + o + special_token_len] and leave
    the reserved slots alone. *)
Lemma side_tokens_lookup (self : It.t) (sequence : Tokenized (list float))
    (d : Draws) (ex : Example) :
  initialized self ->
  0 <= Args.special_token_len (It.args self) ->
  Args.special_token_len (It.args self) + 4 <= Args.tgt_seq_len (It.args self) ->
  2 * Args.special_token_len (It.args self) <= Args.tgt_seq_len (It.args self) ->
  (1 <= length (tokens sequence))%nat ->
  pad_and_split_token_sequence self sequence d = Some ex ->
  let b := packing self sequence in
  let s := b.2 + b.1.2 in
  exists offset,
    drawn_offset self d offset
    /\ (0 <= Args.style_token_index (It.args self)
          < Args.special_token_len (It.args self) ->
        decoder_input_ids ex !! Z.to_nat (s + Args.style_token_index (It.args self))
        = Some (jittered self offset (beatmap_idx_token sequence)))
    /\ (0 <= Args.diff_token_index (It.args self)
             < Args.special_token_len (It.args self) ->
        Args.diff_token_index (It.args self) <> Args.style_token_index (It.args self) ->
        decoder_input_ids ex !! Z.to_nat (s + Args.diff_token_index (It.args self))
        = Some (jittered self offset (difficulty_token sequence))).
Proof.
  intros Hinit Hstl Htgt Hhalf Htok H. cbn zeta.
  apply pad_and_split_layout in H
    as (_ & t1 & t2 & t3 & t4 & offset & H1 & H2 & H3 & H4 & H5 & H6 & Hdrawn).
  cbn zeta in *. unfold packing in *.
  set (b := budget _ _ _ _) in *.
  destruct (budget_bounds self (Z.of_nat (length (tokens sequence)))
              (num_pre_tokens (It.args self) (default [] (pre_tokens sequence)))
              (match tk_other sequence with
               | Some _ =>
                   Z.of_nat (length (default [] (other_tokens <$> tk_other sequence)))
                   + Args.special_token_len (It.args self)
               | None => 0
               end))
    as (Hn & Hmle & Hs & Hs1 & Hs2 & Ha & Hfit & Hc & Hl);
    [done|done|done|lia|apply num_pre_tokens_nonneg| |].
  { destruct (tk_other sequence); lia. }
  cbn zeta in Hn, Hmle, Hs, Hs1, Hs2, Ha, Hfit, Hc, Hl.
  fold b in Hn, Hmle, Hs, Hs1, Hs2, Ha, Hfit, Hc, Hl.
  pose proof (num_pre_tokens_le (It.args self) (default [] (pre_tokens sequence))) as Hle.
  assert (0 <= b.1.1.2) as Hm.
  { destruct Hinit as (_ & Hmin & Hpre).
    pose proof (num_pre_tokens_nonneg (It.args self) (default [] (pre_tokens sequence))).
    subst b. unfold budget. rewrite Hmin, Hpre.
    assert (Args.special_token_len (It.args self)
            <= Args.tgt_seq_len (It.args self) `div` 2)
      by (apply Z.div_le_lower_bound; lia).
    destruct (Args.center_pad_decoder (It.args self)); simpl; lia. }
  set (pre := default [] (pre_tokens sequence)) in *.
  set (n := b.1.1.1) in *. set (m := b.1.1.2) in *.
  set (s := b.2 + b.1.2) in *.
  set (stl := Args.special_token_len (It.args self)) in *.
  pose proof (write_side_tokens_length _ _ _ _ _ _ H2) as Hl2.
  pose proof (write_side_tokens_lookup _ _ _ _ _ _ Hs H2) as [Hstyle Hdiff].
  assert (forall j : nat, (j < Z.to_nat (s + stl))%nat ->
            decoder_input_ids ex !! j = jittered self offset <$> t2 !! j) as Hkeep.
  { intros j Hj. rewrite H6, list_lookup_fmap. f_equal.
    assert (length t3 = length t2 /\ t3 !! j = t2 !! j) as [Hl3 Hj3].
    { destruct (Z.ltb_spec 0 m) as [Hpos|]; [|by subst].
      split; [by apply setslice_length in H3|].
      replace (s + m + stl) with ((s + stl) + m) in H3 by lia.
      rewrite (setslice_exact_lookup t2 (Py.slice_from pre (- m)) t3 (s + stl) m);
        [|lia|lia|lia| |done].
      - by rewrite decide_False by lia.
      - rewrite slice_last by lia. rewrite length_drop. lia. }
    rewrite (setslice_exact_lookup t3 (Py.slice_to (tokens sequence) n) t4 (s + m + stl) n);
      [|lia|lia|lia| |done].
    - by rewrite decide_False by lia.
    - rewrite slice_to_take by lia. rewrite length_take. lia. }
  exists offset. split; [exact Hdrawn|]. split.
  - intros Hst. rewrite Hkeep by lia. by rewrite Hstyle by lia.
  - intros Hd Hne. rewrite Hkeep by lia. by rewrite Hdiff by lia.
Qed.

End LayoutFacts.

Section LayoutProperties.
Import FrameFacts PackFacts WindowerFacts LayoutFacts.

(** X8: the main segment. With the lengths the constructor sets, a reserved
    length of at least zero and a buffer of at least [special_token_len + 4]
    slots, the labels are the ignore marker everywhere but at the [n]
    positions from [a = start_index + o + m + special_token_len] on, which
    hold the successors of the first [n] main tokens; the input ids hold
    (up to the jitter) the first [n] main tokens at the same positions.
    The segment lies inside the buffer, and in centre-pad mode it starts
    at [pre_token_len] whatever the context. *)
Theorem main_segment_layout (self : It.t) (sequence : Tokenized (list float))
    (d : Draws) (ex : Example) :
  PackFacts.initialized self ->
  0 <= Args.special_token_len (It.args self) ->
  Args.special_token_len (It.args self) + 4 <= Args.tgt_seq_len (It.args self) ->
  (1 <= length (tokens sequence))%nat ->
  pad_and_split_token_sequence self sequence d = Some ex ->
  let b := packing self sequence in
  let n := b.1.1.1 in
  let a := b.2 + b.1.2 + b.1.1.2 + Args.special_token_len (It.args self) in
  0 <= a /\ 0 <= n <= Z.of_nat (length (tokens sequence)) - 1
  /\ a + n <= Args.tgt_seq_len (It.args self)
  /\ (Args.center_pad_decoder (It.args self) = true -> a = It.pre_token_len self)
  /\ labels ex
     = replicate (Z.to_nat a) LABEL_IGNORE_ID
         ++ take (Z.to_nat n) (drop 1 (tokens sequence))
         ++ replicate (Z.to_nat (Args.tgt_seq_len (It.args self) - a - n))
                      LABEL_IGNORE_ID
  /\ exists offset,
       forall i : nat,
         (i < Z.to_nat n)%nat ->
         decoder_input_ids ex !! (Z.to_nat a + i)%nat
         = jittered self offset <$> tokens sequence !! i.
Proof.
  intros Hinit Hstl Htgt Htok H. cbn zeta.
  apply pad_and_split_layout in H
    as (_ & t1 & t2 & t3 & t4 & offset & H1 & H2 & H3 & H4 & H5 & H6 & Hdrawn).
  cbn zeta in *. unfold packing in *.
  set (b := budget _ _ _ _) in *.
  destruct (budget_bounds self (Z.of_nat (length (tokens sequence)))
              (num_pre_tokens (It.args self) (default [] (pre_tokens sequence)))
              (match tk_other sequence with
               | Some _ =>
                   Z.of_nat (length (default [] (other_tokens <$> tk_other sequence)))
                   + Args.special_token_len (It.args self)
               | None => 0
               end))
    as (Hn & _ & _ & _ & _ & Ha & Hfit & Hc & _);
    [done|done|done|lia|apply num_pre_tokens_nonneg| |].
  { destruct (tk_other sequence); lia. }
  cbn zeta in Hn, Ha, Hfit, Hc. fold b in Hn, Ha, Hfit, Hc.
  set (n := b.1.1.1) in *.
  set (a := b.2 + b.1.2 + b.1.1.2 + Args.special_token_len (It.args self)) in *.
  split; [done|]. split; [done|]. split; [done|]. split; [done|].
  assert (length t3 = length t1) as Hl3.
  { apply write_side_tokens_length in H2.
    destruct (0 <? b.1.1.2); [|congruence].
    apply setslice_length in H3. congruence. }
  split.
  - apply setslice_exact in H5;
      [|done|lia|rewrite length_replicate; lia|].
    + rewrite H5, take_replicate, drop_replicate, slice_successors by lia.
      f_equal; [f_equal; lia|]. f_equal. f_equal. lia.
    + rewrite slice_successors by lia. rewrite length_take, length_drop. lia.
  - exists offset. intros i Hi.
    rewrite H6, list_lookup_fmap. f_equal.
    rewrite (setslice_exact_lookup t3 (Py.slice_to (tokens sequence) n) t4 a n);
      [|done|lia|lia| |done].
    + rewrite decide_True by lia.
      rewrite slice_to_take by lia.
      replace (Z.to_nat a + i - Z.to_nat a)%nat with i by lia.
      rewrite lookup_take. by rewrite decide_True by lia.
    + rewrite slice_to_take by lia. rewrite length_take. lia.
Qed.

Lemma main_segment_layout_witness :
  exists ex,
    pad_and_split_token_sequence (demo_packer true) demo_tokenized
      (Demo.draws Demo.half Demo.half 0) = Some ex
    /\ labels ex
       = replicate 6 LABEL_IGNORE_ID ++ [41; 2] ++ replicate 4 LABEL_IGNORE_ID.
Proof.
  destruct (pad_and_split_token_sequence (demo_packer true) demo_tokenized
              (Demo.draws Demo.half Demo.half 0)) as [ex|] eqn:H;
    [|vm_compute in H; discriminate H].
  exists ex. split; [reflexivity|].
  apply (main_segment_layout (demo_packer true) demo_tokenized
           (Demo.draws Demo.half Demo.half 0) ex);
    [apply init_initialized|simpl; lia|simpl; lia|simpl; lia|exact H].
Defined.

(** X9: the pre-context segment. With the lengths the constructor sets, a
    reserved length that is not negative and a buffer of at least
    [special_token_len + 4] slots: when [m > 0], the [m] slots right before
    the main segment hold (up to the jitter) the last [m] pre-context
    tokens, in order, and [m] is at most their number. *)
Theorem pre_tokens_precede_main (self : It.t) (sequence : Tokenized (list float))
    (d : Draws) (ex : Example) :
  PackFacts.initialized self ->
  0 <= Args.special_token_len (It.args self) ->
  Args.special_token_len (It.args self) + 4 <= Args.tgt_seq_len (It.args self) ->
  (1 <= length (tokens sequence))%nat ->
  pad_and_split_token_sequence self sequence d = Some ex ->
  let b := packing self sequence in
  let m := b.1.1.2 in
  let a := b.2 + b.1.2 + b.1.1.2 + Args.special_token_len (It.args self) in
  let pre := default [] (pre_tokens sequence) in
  0 < m ->
  m <= Z.of_nat (length pre) /\ m <= a
  /\ exists offset,
       forall i : nat,
         (i < Z.to_nat m)%nat ->
         decoder_input_ids ex !! (Z.to_nat (a - m) + i)%nat
         = jittered self offset <$> pre !! (length pre - Z.to_nat m + i)%nat.
Proof.
  intros Hinit Hstl Htgt Htok H. cbn zeta. intros Hm.
  apply pad_and_split_layout in H
    as (_ & t1 & t2 & t3 & t4 & offset & H1 & H2 & H3 & H4 & H5 & H6 & Hdrawn).
  cbn zeta in *. unfold packing in *.
  set (b := budget _ _ _ _) in *.
  destruct (budget_bounds self (Z.of_nat (length (tokens sequence)))
              (num_pre_tokens (It.args self) (default [] (pre_tokens sequence)))
              (match tk_other sequence with
               | Some _ =>
                   Z.of_nat (length (default [] (other_tokens <$> tk_other sequence)))
                   + Args.special_token_len (It.args self)
               | None => 0
               end))
    as (Hn & Hmle & Hs & Hs1 & Hs2 & Ha & Hfit & _ & _);
    [done|done|done|lia|apply num_pre_tokens_nonneg| |].
  { destruct (tk_other sequence); lia. }
  cbn zeta in Hn, Hmle, Hs, Hs1, Hs2, Ha, Hfit.
  fold b in Hn, Hmle, Hs, Hs1, Hs2, Ha, Hfit.
  pose proof (num_pre_tokens_le (It.args self) (default [] (pre_tokens sequence))) as Hle.
  set (pre := default [] (pre_tokens sequence)) in *.
  set (n := b.1.1.1) in *. set (m := b.1.1.2) in *.
  set (s := b.2 + b.1.2) in *.
  set (stl := Args.special_token_len (It.args self)) in *.
  split; [lia|]. split; [lia|].
  destruct (Z.ltb_spec 0 m) as [_|]; [|lia].
  pose proof (write_side_tokens_length _ _ _ _ _ _ H2) as Hl2.
  pose proof (setslice_length _ _ _ _ _ H3) as Hl3.
  exists offset. intros i Hi.
  rewrite H6, list_lookup_fmap. f_equal.
  rewrite (setslice_exact_lookup t3 (Py.slice_to (tokens sequence) n) t4 (s + m + stl) n);
    [|lia|lia|lia| |done].
  2:{ rewrite slice_to_take by lia. rewrite length_take. lia. }
  rewrite decide_False by lia.
  replace (s + m + stl) with ((s + stl) + m) in H3 by lia.
  rewrite (setslice_exact_lookup t2 (Py.slice_from pre (- m)) t3 (s + stl) m);
    [|lia|lia|lia| |done].
  2:{ rewrite slice_last by lia. rewrite length_drop. lia. }
  rewrite decide_True by lia.
  rewrite slice_last by lia. rewrite lookup_drop. f_equal. lia.
Qed.

Lemma pre_tokens_precede_main_witness :
  exists ex,
    pad_and_split_token_sequence (demo_packer false) demo_tokenized
      (Demo.draws Demo.half Demo.half 0) = Some ex
    /\ decoder_input_ids ex !! 2%nat = Some 42
    /\ decoder_input_ids ex !! 3%nat = Some 43.
Proof.
  destruct (pad_and_split_token_sequence (demo_packer false) demo_tokenized
              (Demo.draws Demo.half Demo.half 0)) as [ex|] eqn:H;
    [|vm_compute in H; discriminate H].
  exists ex. split; [reflexivity|].
  destruct (pre_tokens_precede_main (demo_packer false) demo_tokenized
              (Demo.draws Demo.half Demo.half 0) ex)
    as (_ & _ & offset & Hpre);
    [apply init_initialized|simpl; lia|simpl; lia|simpl; lia|exact H
    |vm_compute; reflexivity|].
  split; [exact (Hpre 0%nat ltac:(vm_compute; lia))
         |exact (Hpre 1%nat ltac:(vm_compute; lia))].
Defined.

End LayoutProperties.

Section ContextProperties.
Import FrameFacts PackFacts WindowerFacts LayoutFacts.

(** X10: the side tokens of the main segment. With the lengths the
    constructor sets, a reserved length that is not negative and a buffer
    of at least [special_token_len + 4] and at least
    [2 * special_token_len] slots: with an index inside the reserved
    slots, the style slot at [start_index + o + style_token_index] holds
    the window's style token, and the difficulty slot at
    [start_index + o + diff_token_index] holds its difficulty token unless
    the two indices coincide, in which case the style token wins. No later
    write touches them. *)
Theorem side_tokens_survive (self : It.t) (sequence : Tokenized (list float))
    (d : Draws) (ex : Example) :
  PackFacts.initialized self ->
  0 <= Args.special_token_len (It.args self) ->
  Args.special_token_len (It.args self) + 4 <= Args.tgt_seq_len (It.args self) ->
  2 * Args.special_token_len (It.args self) <= Args.tgt_seq_len (It.args self) ->
  (1 <= length (tokens sequence))%nat ->
  pad_and_split_token_sequence self sequence d = Some ex ->
  let b := packing self sequence in
  let s := b.2 + b.1.2 in
  exists offset,
    (0 <= Args.style_token_index (It.args self)
          < Args.special_token_len (It.args self) ->
     decoder_input_ids ex !! Z.to_nat (s + Args.style_token_index (It.args self))
     = Some (jittered self offset (beatmap_idx_token sequence)))
    /\ (0 <= Args.diff_token_index (It.args self)
             < Args.special_token_len (It.args self) ->
        Args.diff_token_index (It.args self) <> Args.style_token_index (It.args self) ->
        decoder_input_ids ex !! Z.to_nat (s + Args.diff_token_index (It.args self))
        = Some (jittered self offset (difficulty_token sequence))).
Proof.
  intros Hinit Hstl Htgt Hhalf Htok H. cbn zeta.
  destruct (side_tokens_lookup self sequence d ex Hinit Hstl Htgt Hhalf Htok H)
    as (offset & _ & Hstyle & Hdiff).
  by exists offset.
Qed.

Lemma side_tokens_survive_witness :
  exists ex,
    pad_and_split_token_sequence (demo_packer true) demo_tokenized
      (Demo.draws Demo.half Demo.half 0) = Some ex
    /\ decoder_input_ids ex !! 3%nat = Some 107
    /\ decoder_input_ids ex !! 2%nat = Some 200.
Proof.
  destruct (pad_and_split_token_sequence (demo_packer true) demo_tokenized
              (Demo.draws Demo.half Demo.half 0)) as [ex|] eqn:H;
    [|vm_compute in H; discriminate H].
  exists ex. split; [reflexivity|].
  destruct (side_tokens_survive (demo_packer true) demo_tokenized
              (Demo.draws Demo.half Demo.half 0) ex)
    as (offset & Hstyle & Hdiff);
    [apply init_initialized|simpl; lia|simpl; lia|simpl; lia|simpl; lia|exact H|].
  split; [exact (Hstyle ltac:(simpl; lia))
         |exact (Hdiff ltac:(simpl; lia) ltac:(simpl; lia))].
Defined.

(** X11: the packing reads [args.add_pre_tokens], not the iterator's own
    flag: while the argument is false no pre-context token is packed, and
    the example is the one of the window without its pre-context, whatever
    [maybe_change_dataset] did to [self.add_pre_tokens]. *)
Theorem pre_tokens_need_args_flag (self : It.t) (sequence : Tokenized (list float))
    (d : Draws) :
  Args.add_pre_tokens (It.args self) = false ->
  pad_and_split_token_sequence self sequence d
  = pad_and_split_token_sequence self (without_pre_tokens sequence) d.
Proof.
  intros Hflag. unfold pad_and_split_token_sequence.
  destruct (Torch.full _ (Tok.pad_id _)) as [inp|]; simpl; [|done].
  destruct (Torch.full _ LABEL_IGNORE_ID) as [lab|]; simpl; [|done].
  assert (forall pre, num_pre_tokens (It.args self) pre = 0) as Hzero.
  { intros pre. unfold num_pre_tokens. rewrite Hflag.
    destruct (Z.ltb_spec 0 (Args.max_pre_token_len (It.args self))); lia. }
  rewrite !Hzero.
  apply pack_without_pre.
  unfold budget.
  destruct (Args.center_pad_decoder (It.args self)); simpl; lia.
Qed.

Lemma pre_tokens_need_args_flag_witness :
  pad_and_split_token_sequence
    (It.set_add_pre_tokens Demo.plain true) demo_tokenized
    (Demo.draws Demo.half Demo.half 0)
  = pad_and_split_token_sequence
      (It.set_add_pre_tokens Demo.plain true) (without_pre_tokens demo_tokenized)
      (Demo.draws Demo.half Demo.half 0).
Proof.
  apply (pre_tokens_need_args_flag (It.set_add_pre_tokens Demo.plain true)).
  reflexivity.
Defined.

(** X12: the jitter keeps an id on its side of the [TIME_SHIFT] id range:
    an id of the range stays in it, any other id is left as it is; so with
    a pad id outside the range the jitter neither makes nor removes a
    padding position, and the attention mask is the one of the ids before
    the jitter. *)
Theorem jitter_keeps_id_class (tokenizer : Tok.t) (offset x : Z) (l : list Z) :
  let event_start := Tok.event_start tokenizer TIME_SHIFT in
  let event_end := Tok.event_end tokenizer TIME_SHIFT in
  (event_start <= jitter tokenizer offset x < event_end
   <-> event_start <= x < event_end)
  /\ (~ event_start <= x < event_end -> jitter tokenizer offset x = x)
  /\ (~ event_start <= Tok.pad_id tokenizer < event_end ->
      (fun y => negb (y =? Tok.pad_id tokenizer)) <$> (jitter tokenizer offset <$> l)
      = (fun y => negb (y =? Tok.pad_id tokenizer)) <$> l).
Proof.
  cbn zeta.
  assert (forall y,
            (Tok.event_start tokenizer TIME_SHIFT <= jitter tokenizer offset y
             < Tok.event_end tokenizer TIME_SHIFT
             <-> Tok.event_start tokenizer TIME_SHIFT <= y
                 < Tok.event_end tokenizer TIME_SHIFT)
            /\ (~ Tok.event_start tokenizer TIME_SHIFT <= y
                  < Tok.event_end tokenizer TIME_SHIFT ->
                jitter tokenizer offset y = y)) as Hj.
  { intros y. unfold jitter, Torch.clamp.
    destruct (Z.leb_spec (Tok.event_start tokenizer TIME_SHIFT) y),
             (Z.ltb_spec y (Tok.event_end tokenizer TIME_SHIFT)); simpl; lia. }
  split; [apply Hj|]. split; [apply Hj|].
  intros Hpad. rewrite <- list_fmap_compose.
  apply list_fmap_ext. intros _ y _. simpl. f_equal.
  destruct (Hj y) as [Hin Hout].
  destruct (Z.eqb_spec y (Tok.pad_id tokenizer)) as [->|Hne].
  - rewrite Hout by done. apply Z.eqb_refl.
  - apply Z.eqb_neq. intros Heq.
    destruct (decide (Tok.event_start tokenizer TIME_SHIFT <= y
                      < Tok.event_end tokenizer TIME_SHIFT)) as [Hy|Hy].
    + apply Hpad. rewrite <- Heq. by apply Hin.
    + rewrite Hout in Heq by done. done.
Qed.

Lemma jitter_keeps_id_class_witness :
  10 <= jitter Demo.tokenizer 5 28 < 30 /\ jitter Demo.tokenizer 5 40 = 40.
Proof.
  split.
  - apply (jitter_keeps_id_class Demo.tokenizer 5 28 []). simpl. lia.
  - apply (jitter_keeps_id_class Demo.tokenizer 5 40 []). simpl. lia.
Defined.

End ContextProperties.

(** ** The loop of [_get_next_beatmap] *)

Module LoopFacts.
Import FrameFacts PackFacts PipelineFacts TimeNormalizerFacts LayoutFacts.

(** Has the curriculum step read for a window reached the threshold? *)
Definition reached (at_step : Z) (shared : option Z) : bool :=
  match shared with
  | Some step => (0 <=? at_step) && (at_step <=? step)
  | None => false
  end.

Lemma maybe_change_dataset_flags self shared :
  It.add_empty_sequences (maybe_change_dataset self shared)
  = It.add_empty_sequences self
    || reached (Args.add_empty_sequences_at_step (It.args self)) shared
  /\ It.add_pre_tokens (maybe_change_dataset self shared)
     = It.add_pre_tokens self
       || reached (Args.add_pre_tokens_at_step (It.args self)) shared.
Proof.
  destruct shared as [step|]; simpl; [|by rewrite !orb_false_r].
  destruct ((0 <=? Args.add_empty_sequences_at_step (It.args self))
            && (Args.add_empty_sequences_at_step (It.args self) <=? step));
    destruct ((0 <=? Args.add_pre_tokens_at_step (It.args self))
              && (Args.add_pre_tokens_at_step (It.args self) <=? step));
    destruct (It.add_empty_sequences self) eqn:He;
    destruct (It.add_pre_tokens self) eqn:Hp; simpl; rewrite ?He, ?Hp; done.
Qed.

Lemma initialized_same_config self0 self :
  same_config self0 self -> initialized self0 -> initialized self.
Proof.
  intros (Ha & _ & Hf & Hm & Hp) (H1 & H2 & H3).
  unfold initialized. rewrite Ha, Hf, Hm, Hp. done.
Qed.

Lemma process_length events start_time out :
  TimeNormalizer.process events start_time = Some out ->
  (length out <= length events)%nat.
Proof.
  rewrite process_eq. intros H.
  destruct (mapM _ events) as [rewritten|] eqn:Hm; simpl in H; [|done].
  simplify_eq. apply length_mapM in Hm. rewrite Hm.
  apply drop_shifts_length.
Qed.

(** The main tokens of a window that went through the first three stages. *)
Lemma pack_window_tokens self sequence d ex :
  pack_window self sequence d = Some ex ->
  exists events' padded,
    TimeNormalizer.process (events sequence) (time sequence) = Some events'
    /\ tokens padded
       = [Tok.sos_id (It.tokenizer self)]
           ++ (Tok.encode (It.tokenizer self) <$> events')
           ++ [Tok.eos_id (It.tokenizer self)]
    /\ pad_and_split_token_sequence self padded d = Some ex.
Proof.
  intros H. apply pack_window_inv in H as (trimmed & padded & Ht & Hp & He).
  apply pad_frame_sequence_keeps in Hp as (Htok & _).
  unfold trim_time_shifts in Ht.
  destruct (TimeNormalizer.process (events sequence) (time sequence))
    as [events'|] eqn:Hev; simpl in Ht; [|done].
  match type of Ht with (?e ≫= _) = _ => destruct e as [pre'|] end;
    simpl in Ht; [|done].
  match type of Ht with (?e ≫= _) = _ => destruct e as [other'|] end;
    simpl in Ht; [|done].
  simplify_eq. exists events', padded. by split_and!.
Qed.

(** The labels of a packed window, from the layout of the main segment. *)
Lemma labels_layout self sequence d ex :
  initialized self ->
  0 <= Args.special_token_len (It.args self) ->
  Args.special_token_len (It.args self) + 4 <= Args.tgt_seq_len (It.args self) ->
  (1 <= length (tokens sequence))%nat ->
  pad_and_split_token_sequence self sequence d = Some ex ->
  exists a n : nat,
    Z.of_nat n = (packing self sequence).1.1.1
    /\ (n <= length (tokens sequence) - 1)%nat
    /\ Z.of_nat (a + n) <= Args.tgt_seq_len (It.args self)
    /\ labels ex
       = replicate a LABEL_IGNORE_ID
           ++ take n (drop 1 (tokens sequence))
           ++ replicate (Z.to_nat (Args.tgt_seq_len (It.args self)) - a - n)
                        LABEL_IGNORE_ID.
Proof.
  intros Hinit Hstl Htgt Htok H.
  apply pad_and_split_layout in H
    as (_ & t1 & t2 & t3 & t4 & offset & H1 & H2 & H3 & H4 & H5 & H6 & Hdrawn).
  cbn zeta in *. unfold packing in *.
  set (b := budget _ _ _ _) in *.
  destruct (budget_bounds self (Z.of_nat (length (tokens sequence)))
              (num_pre_tokens (It.args self) (default [] (pre_tokens sequence)))
              (match tk_other sequence with
               | Some _ =>
                   Z.of_nat (length (default [] (other_tokens <$> tk_other sequence)))
                   + Args.special_token_len (It.args self)
               | None => 0
               end))
    as (Hn & _ & _ & _ & _ & Ha & Hfit & _ & _);
    [done|done|done|lia|apply num_pre_tokens_nonneg| |].
  { destruct (tk_other sequence); lia. }
  cbn zeta in Hn, Ha, Hfit. fold b in Hn, Ha, Hfit.
  set (n := b.1.1.1) in *.
  set (a := b.2 + b.1.2 + b.1.1.2 + Args.special_token_len (It.args self)) in *.
  exists (Z.to_nat a), (Z.to_nat n). split; [lia|]. split; [lia|]. split; [lia|].
  apply setslice_exact in H5; [|done|lia|rewrite length_replicate; lia|].
  - rewrite H5, take_replicate, drop_replicate, slice_successors by lia.
    f_equal; [f_equal; lia|]. f_equal. f_equal. lia.
  - rewrite slice_successors by lia. rewrite length_take, length_drop. lia.
Qed.

End LoopFacts.

Section LoopProperties.
Import FrameFacts PackFacts PipelineFacts TimeNormalizerFacts LayoutFacts LoopFacts.

(** X13: the curriculum switches only go one way, and nothing else of the
    iterator changes. After a run of the loop that did not raise, the
    configuration is the one at the start, and each flag is set exactly
    when it was set at the start or the step read for one of the windows
    had reached the flag's threshold (a threshold below zero never
    counts, and neither does a window read without a shared namespace). *)
Theorem curriculum_flags_only_rise (self : It.t)
    (work : list (Sequence float * option Z * Draws))
    (yielded : list Example) (final : It.t) :
  run_sequences self work = (yielded, Some final) ->
  same_config self final
  /\ It.add_empty_sequences final
     = It.add_empty_sequences self
       || existsb (fun w => reached (Args.add_empty_sequences_at_step (It.args self))
                                    w.1.2) work
  /\ It.add_pre_tokens final
     = It.add_pre_tokens self
       || existsb (fun w => reached (Args.add_pre_tokens_at_step (It.args self))
                                    w.1.2) work.
Proof.
  revert self yielded final.
  induction work as [|[[sequence shared] d] later IH]; intros self yielded final H.
  - simpl in H. simplify_eq. simpl. rewrite !orb_false_r.
    split; [apply same_config_refl|done].
  - simpl in H.
    destruct (step_sequence self shared sequence d) as [[self' outcome]|] eqn:Hs;
      [|done].
    pose proof (step_sequence_inv _ _ _ _ _ _ Hs) as (Hself & _).
    pose proof (maybe_change_dataset_config self shared) as Hcfg.
    pose proof (maybe_change_dataset_flags self shared) as [He Hp].
    rewrite <- Hself in Hcfg, He, Hp.
    assert (exists yielded', run_sequences self' later = (yielded', Some final))
      as [yielded' Hrun].
    { destruct outcome; [|by eexists].
      destruct (run_sequences self' later) as [y f]. simplify_eq. by eexists. }
    apply IH in Hrun as (Hc & He' & Hp').
    destruct Hcfg as (Hargs & ?).
    rewrite Hargs in He', Hp'.
    split; [by eapply same_config_trans|].
    simpl. rewrite He', Hp', He, Hp, !orb_assoc. done.
Qed.

Lemma curriculum_flags_only_rise_witness :
  exists yielded final,
    run_sequences demo_curriculum
      [(Demo.empty_window, Some 2, Demo.draws Demo.half Demo.half 0);
       (Demo.empty_window, Some 3, Demo.draws Demo.half Demo.half 0)]
    = (yielded, Some final)
    /\ It.add_empty_sequences final = true
    /\ It.add_pre_tokens final = false.
Proof.
  destruct (run_sequences demo_curriculum
              [(Demo.empty_window, Some 2, Demo.draws Demo.half Demo.half 0);
               (Demo.empty_window, Some 3, Demo.draws Demo.half Demo.half 0)])
    as [yielded [final|]] eqn:H; [|vm_compute in H; discriminate H].
  exists yielded, final. split; [reflexivity|].
  destruct (curriculum_flags_only_rise demo_curriculum _ yielded final H)
    as (_ & He & Hp).
  split; [exact He|exact Hp].
Defined.

(** X14: once [add_empty_sequences] is set, the loop yields one example
    per window, in the order of the windows: a run that does not raise
    skips nothing. *)
Theorem set_flag_yields_every_window (self : It.t)
    (work : list (Sequence float * option Z * Draws))
    (yielded : list Example) (final : It.t) :
  It.add_empty_sequences self = true ->
  run_sequences self work = (yielded, Some final) ->
  Forall2 (fun w ex =>
             exists self', same_config self self'
                           /\ pack_window self' w.1.1 w.2 = Some ex)
          work yielded.
Proof.
  intros Hflag.
  assert (forall self1 yielded,
            same_config self self1 -> It.add_empty_sequences self1 = true ->
            run_sequences self1 work = (yielded, Some final) ->
            Forall2 (fun w ex =>
                       exists self', same_config self self'
                                     /\ pack_window self' w.1.1 w.2 = Some ex)
                    work yielded) as Hgen.
  { clear yielded Hflag.
    induction work as [|[[sequence shared] d] later IH];
      intros self1 yielded Hcfg Hflag H.
    - simpl in H. simplify_eq. constructor.
    - simpl in H.
      destruct (step_sequence self1 shared sequence d) as [[self' outcome]|] eqn:Hs;
        [|done].
      apply step_sequence_inv in Hs as (Hself & ex & Hpack & Hout).
      pose proof (maybe_change_dataset_config self1 shared) as Hcfg'.
      pose proof (maybe_change_dataset_flags self1 shared) as [He _].
      rewrite <- Hself in Hcfg', He. rewrite Hflag in He. simpl in He.
      rewrite He in Hout. simpl in Hout. subst outcome.
      destruct (run_sequences self' later) as [y f] eqn:Hrun. simplify_eq.
      constructor.
      + eexists. split; [|done]. by eapply same_config_trans.
      + eapply IH; [|done|done]. by eapply same_config_trans. }
  intros H. eapply Hgen; [apply same_config_refl|done|done].
Qed.

Lemma set_flag_yields_every_window_witness :
  exists yielded final,
    run_sequences (It.set_add_empty_sequences Demo.single true)
      [(Demo.empty_window, None, Demo.draws Demo.half Demo.half 0)]
    = (yielded, Some final)
    /\ length yielded = 1%nat.
Proof.
  destruct (run_sequences (It.set_add_empty_sequences Demo.single true)
              [(Demo.empty_window, None, Demo.draws Demo.half Demo.half 0)])
    as [yielded [final|]] eqn:H; [|vm_compute in H; discriminate H].
  exists yielded, final. split; [reflexivity|].
  symmetry.
  apply (Forall2_length _ _ _
           (set_flag_yields_every_window
              (It.set_add_empty_sequences Demo.single true)
              [(Demo.empty_window, None, Demo.draws Demo.half Demo.half 0)]
              yielded final eq_refl H)).
Defined.

(** X15: the filter cannot remove a window that leaves room in the label
    buffer. With the lengths the constructor sets, a buffer of at least
    [special_token_len + 4] slots and end-of-sequence and pad ids other
    than the ignore marker, a window with fewer than [tgt_seq_len - 1]
    events (an empty one, say) is yielded whenever it is packed, also
    while [add_empty_sequences] is false: its labels hold the ignore
    marker at some position, which the test does not accept. *)
Theorem short_windows_are_never_skipped (self : It.t) (shared : option Z)
    (sequence : Sequence float) (d : Draws) (self' : It.t) (outcome : Outcome) :
  initialized self ->
  0 <= Args.special_token_len (It.args self) ->
  Args.special_token_len (It.args self) + 4 <= Args.tgt_seq_len (It.args self) ->
  Tok.eos_id (It.tokenizer self) <> LABEL_IGNORE_ID ->
  Tok.pad_id (It.tokenizer self) <> LABEL_IGNORE_ID ->
  Z.of_nat (length (events sequence)) + 1 < Args.tgt_seq_len (It.args self) ->
  step_sequence self shared sequence d = Some (self', outcome) ->
  exists ex, pack_window self' sequence d = Some ex /\ outcome = Yielded ex.
Proof.
  intros Hinit Hstl Htgt Heos Hpad Hshort H.
  apply step_sequence_inv in H as (Hself & ex & Hpack & Hout).
  exists ex. split; [done|].
  pose proof (maybe_change_dataset_config self shared) as Hcfg.
  rewrite <- Hself in Hcfg.
  pose proof (initialized_same_config _ _ Hcfg Hinit) as Hinit'.
  destruct Hcfg as (Hargs & Htk & _).
  destruct (labels_all_eos_or_pad (It.tokenizer self') (labels ex)) eqn:Hall;
    [|by rewrite Hout, andb_false_r].
  exfalso.
  apply labels_all_eos_or_pad_Forall in Hall.
  apply pack_window_tokens in Hpack as (events' & padded & Hev & Htok & Hex).
  apply process_length in Hev.
  apply labels_layout in Hex as (a & n & _ & Hn & Hfit & Hlab);
    [|done|by rewrite Hargs|by rewrite Hargs
     |rewrite Htok, !length_app; simpl; lia].
  rewrite Htok in Hn. rewrite !length_app, length_fmap in Hn. simpl in Hn.
  rewrite Hargs in Hfit, Hlab.
  assert (LABEL_IGNORE_ID ∈ labels ex) as Hin.
  { rewrite Hlab. destruct a as [|a].
    - simpl. apply elem_of_app. right.
      destruct (Z.to_nat (Args.tgt_seq_len (It.args self)) - 0 - n)%nat eqn:Hrest;
        [lia|]. simpl. apply elem_of_cons. by left.
    - simpl. apply elem_of_cons. by left. }
  rewrite Forall_forall in Hall. apply Hall in Hin.
  rewrite Htk in Hin. destruct Hin; congruence.
Qed.

Lemma short_windows_are_never_skipped_witness :
  exists ex,
    step_sequence Demo.plain None Demo.empty_window (Demo.draws Demo.half Demo.half 0)
    = Some (Demo.plain, Yielded ex).
Proof.
  destruct (step_sequence Demo.plain None Demo.empty_window
              (Demo.draws Demo.half Demo.half 0)) as [[self' outcome]|] eqn:H;
    [|vm_compute in H; discriminate H].
  destruct (short_windows_are_never_skipped Demo.plain None Demo.empty_window
              (Demo.draws Demo.half Demo.half 0) self' outcome)
    as (ex & _ & ->);
    [apply init_initialized|simpl; lia|simpl; lia|vm_compute; discriminate
    |vm_compute; discriminate|simpl; lia|exact H|].
  exists ex.
  assert (self' = Demo.plain) as ->; [|reflexivity].
  apply step_sequence_inv in H as (-> & _). reflexivity.
Defined.

End LoopProperties.

(** ** The two draws of the class dropout *)

Module DropoutFacts.
Import FrameFacts PackFacts PipelineFacts LayoutFacts LoopFacts.

(** What [random.random()] returns: a double of [[0, 1)]. *)
Definition unit_draw (u : float) : Prop :=
  PrimFloat.leb Float64.zero u = true /\ PrimFloat.ltb u Float64.one = true.

(** The slot of [decoder_input_ids] that receives the style token of the
    main segment: [start_index + o + style_token_index]. *)
Definition style_slot (self : It.t) (sequence : Tokenized (list float)) : nat :=
  let b := packing self sequence in
  Z.to_nat (b.2 + b.1.2 + Args.style_token_index (It.args self)).

(** The reserved slots lie before the main tokens and hold a style token. *)
Definition style_slot_reserved (args : Args.t) : Prop :=
  0 <= Args.special_token_len args
  /\ Args.special_token_len args + 4 <= Args.tgt_seq_len args
  /\ 2 * Args.special_token_len args <= Args.tgt_seq_len args
  /\ 0 <= Args.style_token_index args < Args.special_token_len args.

(** An id that the timing jitter leaves alone. *)
Definition outside_time_shifts (tokenizer : Tok.t) (x : Z) : Prop :=
  ~ (Tok.event_start tokenizer TIME_SHIFT <= x < Tok.event_end tokenizer TIME_SHIFT).

(** The style ids of a class can be told apart: the class is not encoded as
    the placeholder, its index is not the unknown class id, and neither
    style id is a TIME_SHIFT id. *)
Definition style_ids_apart (tokenizer : Tok.t) (idx : Z) : Prop :=
  Tok.encode_style_idx tokenizer idx <> Tok.style_unk tokenizer
  /\ idx <> Tok.num_classes tokenizer
  /\ outside_time_shifts tokenizer (Tok.encode_style_idx tokenizer idx)
  /\ outside_time_shifts tokenizer (Tok.style_unk tokenizer).

Lemma zero_spec : FloatOps.Prim2SF Float64.zero = SpecFloat.S754_zero false.
Proof. vm_compute. reflexivity. Qed.

Lemma one_spec :
  FloatOps.Prim2SF Float64.one = SpecFloat.S754_finite false 4503599627370496 (-52).
Proof. vm_compute. reflexivity. Qed.

(** A probability of at most zero is at most every draw. *)
Lemma leb_below_unit (p u : float) :
  PrimFloat.leb p Float64.zero = true -> PrimFloat.leb Float64.zero u = true ->
  PrimFloat.leb p u = true.
Proof.
  rewrite !FloatAxioms.leb_spec, zero_spec.
  destruct (FloatOps.Prim2SF p) as [[]|[]| |[] ? ?],
           (FloatOps.Prim2SF u) as [[]|[]| |[] ? ?];
    cbv; congruence.
Qed.

(** A probability of at least one is above every draw. *)
Lemma leb_above_unit (p u : float) :
  PrimFloat.leb Float64.one p = true -> PrimFloat.ltb u Float64.one = true ->
  PrimFloat.leb p u = false.
Proof.
  rewrite !FloatAxioms.leb_spec, FloatAxioms.ltb_spec, one_spec.
  generalize 4503599627370496%positive (-52). intros c e.
  unfold SpecFloat.SFleb, SpecFloat.SFltb, SpecFloat.SFcompare.
  destruct (FloatOps.Prim2SF p) as [[]|[]| |[] mp ep],
           (FloatOps.Prim2SF u) as [[]|[]| |[] mu eu];
    try congruence.
  destruct (Z.compare_spec e ep), (Z.compare_spec eu e), (Z.compare_spec ep eu);
    try lia; try congruence; subst;
    rewrite ?Pos.compare_cont_spec; unfold Pos.switch_Eq;
    destruct (Pos.compare_spec c mp), (Pos.compare_spec mu c),
             (Pos.compare_spec mp mu); try congruence; try lia.
Qed.

(** With a probability of at most zero or at least one, every two draws
    fall on the same side of it. *)
Lemma extreme_prob_same_side (p u1 u2 : float) :
  unit_draw u1 -> unit_draw u2 ->
  PrimFloat.leb p Float64.zero = true \/ PrimFloat.leb Float64.one p = true ->
  Random.at_least u1 p = Random.at_least u2 p.
Proof.
  intros [H1 H1'] [H2 H2'] [Hp|Hp]; unfold Random.at_least.
  - by rewrite !leb_below_unit.
  - by rewrite !leb_above_unit.
Qed.

(** Two offsets drawn for the same window jitter alike. *)
Lemma jittered_drawn self d offset1 offset2 x :
  drawn_offset self d offset1 -> drawn_offset self d offset2 ->
  jittered self offset1 x = jittered self offset2 x.
Proof.
  unfold drawn_offset, jittered. intros H1 H2.
  destruct (Z.ltb_spec 0 (Args.timing_random_offset (It.args self))) as [Hpos|];
    [|done].
  destruct (H1 Hpos) as [E1 _], (H2 Hpos) as [E2 _]. congruence.
Qed.

Lemma jittered_outside self offset x :
  outside_time_shifts (It.tokenizer self) x -> jittered self offset x = x.
Proof.
  unfold outside_time_shifts, jittered, jitter. intros Hx.
  destruct (0 <? _); [|done].
  destruct (Z.leb_spec (Tok.event_start (It.tokenizer self) TIME_SHIFT) x);
    destruct (Z.ltb_spec x (Tok.event_end (It.tokenizer self) TIME_SHIFT)); simpl;
    [lia|done..].
Qed.

(** An iterator that drops every class: [class_dropout_prob = 1]. *)
Definition always_dropping : It.t :=
  It.init (Demo.args 8 2 Demo.one 0 1 0) Demo.tokenizer false.

End DropoutFacts.

Section DropoutProperties.
Import FrameFacts PackFacts PipelineFacts LayoutFacts LoopFacts DropoutFacts.

(** C9 (as amended): the two class channels of a window are dropped by two
    separate draws. The emitted [beatmap_idx] is the unknown class id when
    the window's third draw is below [class_dropout_prob] and the class
    index otherwise. With reserved slots that lie before the main tokens,
    the style slot of the emitted [decoder_input_ids] holds, as the timing
    jitter of the window's drawn offset maps it, the unknown-style
    placeholder when the window's first draw is below [class_dropout_prob]
    and the encoded class index otherwise. With style ids that can be told
    apart, the two agree (the slot holds the placeholder if and only if
    [beatmap_idx] is the unknown class id) whenever the two draws fall on
    the same side of [class_dropout_prob]; and draws of [random.random()]
    always do when [class_dropout_prob] is at most 0 or at least 1. *)
Theorem class_dropout_uses_two_draws (self : It.t) (shared : option Z)
    (sequence : Sequence float) (d : Draws) (self' : It.t) (ex : Example) :
  step_sequence self shared sequence d = Some (self', Yielded ex) ->
  let p := Args.class_dropout_prob (It.args self) in
  let tokenizer := It.tokenizer self in
  let style :=
    if Random.at_least (u_style d) p
    then Tok.encode_style_idx tokenizer (beatmap_idx sequence)
    else Tok.style_unk tokenizer in
  exists trimmed padded offset,
    trim_time_shifts sequence = Some trimmed
    /\ pad_frame_sequence self' (tokenize_sequence self' trimmed d) = Some padded
    /\ drawn_offset self' d offset
    /\ ex_beatmap_idx ex
       = (if Random.at_least (u_idx d) p
          then beatmap_idx sequence
          else Tok.num_classes tokenizer)
    /\ (initialized self -> style_slot_reserved (It.args self) ->
        decoder_input_ids ex !! style_slot self' padded
        = Some (jittered self' offset style))
    /\ (initialized self -> style_slot_reserved (It.args self) ->
        style_ids_apart tokenizer (beatmap_idx sequence) ->
        Random.at_least (u_style d) p = Random.at_least (u_idx d) p ->
        (decoder_input_ids ex !! style_slot self' padded
         = Some (Tok.style_unk tokenizer)
         <-> ex_beatmap_idx ex = Tok.num_classes tokenizer))
    /\ (unit_draw (u_style d) -> unit_draw (u_idx d) ->
        PrimFloat.leb p Float64.zero = true \/ PrimFloat.leb Float64.one p = true ->
        Random.at_least (u_style d) p = Random.at_least (u_idx d) p).
Proof.
  intros H. cbn zeta.
  apply step_sequence_yielded in H as [-> Hp].
  pose proof (maybe_change_dataset_config self shared) as Hcfg.
  destruct Hcfg as (Hargs & Htok & Hrest).
  set (self' := maybe_change_dataset self shared) in *.
  apply pack_window_inv in Hp as (trimmed & padded & Ht & Hpad & He).
  pose proof (trim_time_shifts_keeps _ _ Ht) as [_ Hidx].
  pose proof (pad_frame_sequence_keeps _ _ _ Hpad) as (Htokens & Hi & Hst).
  pose proof (pad_and_split_lengths _ _ _ _ He) as (_ & _ & _ & _ & Hb).
  assert (ex_beatmap_idx ex
          = (if Random.at_least (u_idx d) (Args.class_dropout_prob (It.args self))
             then beatmap_idx sequence
             else Tok.num_classes (It.tokenizer self))) as Hclass.
  { rewrite Hb, Hi. simpl. by rewrite Hargs, Htok, Hidx. }
  assert (beatmap_idx_token padded
          = (if Random.at_least (u_style d) (Args.class_dropout_prob (It.args self))
             then Tok.encode_style_idx (It.tokenizer self) (beatmap_idx sequence)
             else Tok.style_unk (It.tokenizer self))) as Hstyle.
  { rewrite Hst. simpl. by rewrite Hargs, Htok, Hidx. }
  destruct (pad_and_split_layout _ _ _ _ He)
    as (_ & t1 & t2 & t3 & t4 & offset & _ & _ & _ & _ & _ & _ & Hdrawn).
  assert (initialized self -> style_slot_reserved (It.args self) ->
          decoder_input_ids ex !! style_slot self' padded
          = Some (jittered self' offset (beatmap_idx_token padded))) as Hslot.
  { intros Hinit (Hstl & Htgt & Hhalf & Hindex). rewrite <- Hargs in Hstl, Htgt, Hhalf, Hindex.
    destruct (side_tokens_lookup self' padded d ex) as (offset' & Hdrawn' & Hlookup & _);
      [by apply (initialized_same_config self)|done..| |done|].
    { rewrite Htokens. simpl. lia. }
    unfold style_slot. rewrite Hlookup by done.
    f_equal. by apply (jittered_drawn self' d). }
  exists trimmed, padded, offset. split_and!; [done..| | | ].
  - intros Hinit Hres. rewrite Hslot by done. by rewrite Hstyle.
  - intros Hinit Hres (Hne & Hcls & Hout1 & Hout2) Hsame.
    rewrite Hslot, Hstyle, Hclass, Hsame by done.
    assert (forall x, outside_time_shifts (It.tokenizer self) x ->
                      jittered self' offset x = x) as Hkeep.
    { intros x Hx. apply jittered_outside. by rewrite Htok. }
    destruct (Random.at_least (u_idx d) _); rewrite Hkeep by done.
    + split; [by intros [= ?]|done].
    + done.
  - apply extreme_prob_same_side.
Qed.

Lemma class_dropout_uses_two_draws_witness :
  (decoder_input_ids disagreeing_example !! 1%nat = Some 107
   /\ ex_beatmap_idx disagreeing_example = Tok.num_classes Demo.tokenizer)
  /\ exists ex,
       step_sequence always_dropping None Demo.empty_window
         (Demo.draws Demo.three_quarters Demo.quarter 0)
       = Some (always_dropping, Yielded ex)
       /\ (decoder_input_ids ex !! 1%nat = Some (Tok.style_unk Demo.tokenizer)
           <-> ex_beatmap_idx ex = Tok.num_classes Demo.tokenizer)
       /\ ex_beatmap_idx ex = Tok.num_classes Demo.tokenizer.
Proof.
  assert (forall p, style_slot_reserved (Demo.args 8 2 p 0 1 0)) as Hres.
  { intros p. unfold style_slot_reserved. simpl. lia. }
  split.
  - destruct (class_dropout_uses_two_draws Demo.dropping None Demo.empty_window
                (Demo.draws Demo.three_quarters Demo.quarter 0)
                Demo.dropping disagreeing_example)
      as (trimmed & padded & offset & Ht & Hpad & _ & Hidx & Hslot & _);
      [vm_compute; reflexivity|].
    vm_compute in Ht. injection Ht as <-.
    vm_compute in Hpad. injection Hpad as <-.
    split; [|exact Hidx].
    exact (Hslot (init_initialized _ _ _) (Hres _)).
  - destruct (step_sequence always_dropping None Demo.empty_window
                (Demo.draws Demo.three_quarters Demo.quarter 0))
      as [[self' [ex|]]|] eqn:H;
      [|vm_compute in H; discriminate H..].
    assert (self' = always_dropping) as ->.
    { vm_compute in H. injection H as <- _. reflexivity. }
    exists ex. split; [reflexivity|].
    destruct (class_dropout_uses_two_draws always_dropping None Demo.empty_window
                (Demo.draws Demo.three_quarters Demo.quarter 0) always_dropping ex H)
      as (trimmed & padded & offset & Ht & Hpad & _ & Hidx & _ & Hagree & Hsame).
    vm_compute in Ht. injection Ht as <-.
    vm_compute in Hpad. injection Hpad as <-.
    split; [|exact Hidx].
    apply (Hagree (init_initialized _ _ _) (Hres _)).
    + unfold style_ids_apart, outside_time_shifts. simpl. lia.
    + apply Hsame; [split; vm_compute; reflexivity..|].
      right. vm_compute. reflexivity.
Defined.

(** C9 as stated fails: with [class_dropout_prob = 0.5], a style draw of
    0.75 and a class draw of 0.25, both yielded examples carry the encoded
    style 107 of class 7 in the style slot of [decoder_input_ids] (the
    placeholder is 3) and the unknown class id 50 as [beatmap_idx]. *)
Lemma style_token_and_class_disagree :
  (fun ex => (decoder_input_ids ex !! 1%nat, ex_beatmap_idx ex))
    <$> (get_next_beatmap Demo.dropping
           (Demo.input (Demo.draws Demo.three_quarters Demo.quarter 0))).1
  = [(Some 107, 50); (Some 107, 50)]
  /\ Tok.style_unk Demo.tokenizer = 3
  /\ Tok.num_classes Demo.tokenizer = 50.
Proof. split_and!; vm_compute; reflexivity. Qed.

End DropoutProperties.

(** ** The slots that the pipeline never reads *)

Module SlotFacts.
Import PipelineFacts.

(** Two iterators that agree on every slot the pipeline reads: all but
    [test], [class_dropout_prob], [diff_dropout_prob] and
    [add_pre_tokens]. *)
Definition read_slots_agree (self1 self2 : It.t) : Prop :=
  It.args self1 = It.args self2
  /\ It.tokenizer self1 = It.tokenizer self2
  /\ It.frame_seq_len self1 = It.frame_seq_len self2
  /\ It.min_pre_token_len self1 = It.min_pre_token_len self2
  /\ It.pre_token_len self1 = It.pre_token_len self2
  /\ It.add_empty_sequences self1 = It.add_empty_sequences self2.

(** The iterator with the other slots blanked. *)
Definition forget (self : It.t) : It.t :=
  {| It.args := It.args self;
     It.tokenizer := It.tokenizer self;
     It.test := false;
     It.frame_seq_len := It.frame_seq_len self;
     It.min_pre_token_len := It.min_pre_token_len self;
     It.pre_token_len := It.pre_token_len self;
     It.class_dropout_prob := Float64.zero;
     It.diff_dropout_prob := Float64.zero;
     It.add_pre_tokens := false;
     It.add_empty_sequences := It.add_empty_sequences self |}.

Lemma forget_agree self1 self2 :
  read_slots_agree self1 self2 -> forget self1 = forget self2.
Proof.
  intros (H1 & H2 & H3 & H4 & H5 & H6). unfold forget. congruence.
Qed.

Lemma get_frames_forget self samples :
  FrameSegmenter.get_frames self samples = FrameSegmenter.get_frames (forget self) samples.
Proof. reflexivity. Qed.

Lemma create_sequences_forget self audio_frames frame_times events idx diff other raw :
  Windower.create_sequences self audio_frames frame_times events idx diff other raw
  = Windower.create_sequences (forget self) audio_frames frame_times events idx diff
      other raw.
Proof. reflexivity. Qed.

Lemma pack_window_forget self sequence d :
  pack_window self sequence d = pack_window (forget self) sequence d.
Proof. reflexivity. Qed.

Lemma maybe_change_dataset_agree self1 self2 shared :
  read_slots_agree self1 self2 ->
  read_slots_agree (maybe_change_dataset self1 shared)
                   (maybe_change_dataset self2 shared).
Proof.
  intros (H1 & H2 & H3 & H4 & H5 & H6).
  destruct shared as [step|]; simpl; [|by split_and!].
  rewrite H1, H6.
  repeat match goal with |- context [if ?c then _ else _] => destruct c end;
    by split_and!.
Qed.

Lemma step_sequence_agree self1 self2 shared sequence d :
  read_slots_agree self1 self2 ->
  match step_sequence self1 shared sequence d,
        step_sequence self2 shared sequence d with
  | Some (next1, outcome1), Some (next2, outcome2) =>
      read_slots_agree next1 next2 /\ outcome1 = outcome2
  | None, None => True
  | _, _ => False
  end.
Proof.
  intros Hagree. unfold step_sequence.
  pose proof (maybe_change_dataset_agree _ _ shared Hagree) as Hnext.
  set (next1 := maybe_change_dataset self1 shared) in *.
  set (next2 := maybe_change_dataset self2 shared) in *.
  rewrite (pack_window_forget next1), (pack_window_forget next2).
  rewrite (forget_agree _ _ Hnext).
  destruct Hnext as (H1 & H2 & H3 & H4 & H5 & H6).
  destruct (pack_window (forget next2) sequence d) as [ex|]; simpl; [|done].
  rewrite H2, H6.
  destruct (negb _ && _); by split_and!.
Qed.

Lemma run_sequences_agree work : forall self1 self2,
  read_slots_agree self1 self2 ->
  (run_sequences self1 work).1 = (run_sequences self2 work).1.
Proof.
  induction work as [|[[sequence shared] d] later IH]; intros self1 self2 Hagree;
    [done|].
  simpl.
  pose proof (step_sequence_agree _ _ shared sequence d Hagree) as Hstep.
  destruct (step_sequence self1 shared sequence d) as [[next1 outcome1]|],
           (step_sequence self2 shared sequence d) as [[next2 outcome2]|];
    try done.
  destruct Hstep as [Hnext <-].
  pose proof (IH _ _ Hnext) as Hrest.
  destruct outcome1; [|done].
  destruct (run_sequences next1 later), (run_sequences next2 later).
  simpl in *. by rewrite Hrest.
Qed.

End SlotFacts.

Section SlotProperties.
Import PipelineFacts SlotFacts.

(** X16: four slots of the iterator are written but never read on the way
    to an example: [test], the test-mode overrides [class_dropout_prob] and
    [diff_dropout_prob], and [add_pre_tokens] (tokenization and packing
    read the arguments instead). Two iterators that agree on the other
    slots yield the same examples from the same beatmap and draws; so an
    iterator built for testing behaves as one built for training. *)
Theorem unread_slots_do_not_matter (self1 self2 : It.t) (input : BeatmapInput) :
  read_slots_agree self1 self2 ->
  (get_next_beatmap self1 input).1 = (get_next_beatmap self2 input).1.
Proof.
  intros Hagree. unfold get_next_beatmap.
  rewrite (get_frames_forget self1), (get_frames_forget self2).
  rewrite (forget_agree _ _ Hagree).
  destruct (FrameSegmenter.get_frames (forget self2) (audio_samples input))
    as [fr|]; simpl; [|done].
  rewrite (create_sequences_forget self1), (create_sequences_forget self2).
  rewrite (forget_agree _ _ Hagree).
  destruct (Windower.create_sequences (forget self2) _ _ _ _ _ _ _)
    as [sequences|]; [|done].
  by apply run_sequences_agree.
Qed.

Lemma unread_slots_do_not_matter_witness :
  (get_next_beatmap (It.init (Demo.args 8 2 Demo.half 0 1 0) Demo.tokenizer true)
     (Demo.input (Demo.draws Demo.quarter Demo.three_quarters 0))).1
  = (get_next_beatmap (It.init (Demo.args 8 2 Demo.half 0 1 0) Demo.tokenizer false)
       (Demo.input (Demo.draws Demo.quarter Demo.three_quarters 0))).1.
Proof.
  apply (unread_slots_do_not_matter
           (It.init (Demo.args 8 2 Demo.half 0 1 0) Demo.tokenizer true)
           (It.init (Demo.args 8 2 Demo.half 0 1 0) Demo.tokenizer false)).
  repeat split.
Defined.

End SlotProperties.

(** ** Sharding and the round robin of the interleaving iterator *)

Module ShardingFacts.
Import Interleaving InterleavingFacts FrameFacts WindowerFacts SegmentFacts.

Lemma range_indices (n : Z) :
  py_range 0 n 1 = Some (Z.of_nat <$> seq 0 (Z.to_nat n)).
Proof.
  unfold py_range. simpl. f_equal.
  replace (n - 0 + 1 - 1) with n by lia. rewrite Z.div_1_r.
  apply list_fmap_ext. intros _ k _. lia.
Qed.

(** A shard is a row of [per_worker] files. *)
Lemma shard_row {F} (files : list F) (p : Z) (i : nat) :
  0 <= p ->
  Sharding.shard files p (Z.of_nat i)
  = take (Z.to_nat p) (drop (i * Z.to_nat p) files).
Proof.
  intros Hp. unfold Sharding.shard.
  destruct (Z.le_gt_cases (Z.of_nat i * p) (Z.of_nat (length files))) as [Hin|Hout].
  - rewrite slice_inside by lia.
    replace (Z.to_nat (Z.of_nat i * p)) with (i * Z.to_nat p)%nat by lia.
    destruct (Z.le_gt_cases ((Z.of_nat i + 1) * p) (Z.of_nat (length files))).
    + rewrite Z.min_r by lia. f_equal. lia.
    + rewrite Z.min_l by lia.
      rewrite !take_ge; [done|rewrite length_drop; lia..].
  - unfold Py.slice, Py.clamp_index.
    destruct (Z.ltb_spec (Z.of_nat i * p) 0); [lia|].
    destruct (Z.ltb_spec (Z.min (Z.of_nat (length files)) ((Z.of_nat i + 1) * p)) 0);
      [lia|].
    rewrite !drop_ge by lia. by rewrite !take_nil.
Qed.

Lemma ident_imap {F A} (g : F -> list A) (l : list F) :
  ident <$> imap (fun k x => mkWorker k (g x)) l = seq 0 (length l).
Proof.
  apply list_eq. intros i.
  rewrite list_lookup_fmap, list_lookup_imap.
  destruct (l !! i) as [x|] eqn:Hx; simpl.
  - apply lookup_lt_Some in Hx. by rewrite lookup_seq_lt.
  - apply lookup_ge_None in Hx. by rewrite lookup_seq_ge.
Qed.

Lemma pending_imap {F A} (g : F -> list A) (l : list F) :
  pending <$> imap (fun k x => mkWorker k (g x)) l = g <$> l.
Proof.
  apply list_eq. intros i.
  rewrite !list_lookup_fmap, list_lookup_imap.
  by destruct (l !! i).
Qed.

(** What [__init__] builds. *)
Lemma init_inv {F A} (files : list F) (factory : list F -> list A) (c : Z) self :
  Sharding.init files factory c = Some self ->
  exists p,
    Sharding.per_worker (Z.of_nat (length files)) c = Some p
    /\ c <> 0
    /\ self = mk (imap (fun k s => mkWorker k (factory s))
                       (Sharding.shard files p <$> (Z.of_nat <$> seq 0 (Z.to_nat c))))
                 0%nat.
Proof.
  unfold Sharding.init. intros H.
  destruct (Sharding.per_worker _ c) as [p|] eqn:Hp; cbn -[py_range] in H; [|done].
  rewrite range_indices in H. cbn -[py_range] in H. simplify_eq.
  exists p. split; [done|]. split.
  - unfold Sharding.per_worker in Hp. by destruct (Z.eqb_spec c 0).
  - f_equal. apply list_eq. intros i.
    rewrite !list_lookup_imap, !list_lookup_fmap.
    by destruct (seq 0 (Z.to_nat c) !! i).
Qed.

Lemma shards_concat {F} (files : list F) (p : Z) (c : nat) :
  0 <= p ->
  concat (Sharding.shard files p <$> (Z.of_nat <$> seq 0 c))
  = take (c * Z.to_nat p) files.
Proof.
  intros Hp. rewrite <- list_fmap_compose.
  rewrite <- (concat_rows files (Z.to_nat p) c). f_equal.
  apply list_fmap_ext. intros _ i _. simpl. by apply shard_row.
Qed.

(** One round of the round robin over workers that all have an item. *)
Lemma drain_round {A} (ws : list (Worker A)) :
  Forall (fun w => pending w <> []) ws ->
  forall (j i : nat) (now : list (Worker A)),
    (i + j <= length ws)%nat ->
    length now = length ws ->
    (forall k, (i <= k)%nat -> now !! k = ws !! k) ->
    (drain j (mk now i)).1 = omap (fun w => head (pending w)) (take j (drop i ws)).
Proof.
  intros Hall. induction j as [|j IH]; intros i now Hij Hlen Hsame; [done|].
  assert (i < length ws)%nat as Hi by lia.
  destruct (lookup_lt_is_Some_2 ws i Hi) as [w Hw].
  pose proof (Forall_lookup_1 _ _ _ _ Hall Hw) as Hne.
  destruct (pending w) as [|item rest] eqn:Hpend; [done|].
  rewrite (drop_S _ _ _ Hw). rewrite firstn_cons. simpl omap.
  rewrite Hpend. simpl head.
  unfold drain; fold (@drain A). unfold next. simpl workers. simpl index.
  destruct (length now) as [|num] eqn:Hnow; [lia|].
  simpl next_loop. rewrite Hnow.
  destruct (decide (S num = 0%nat)); [lia|].
  rewrite Nat.mod_small by lia.
  rewrite (Hsame i) by lia. rewrite Hw, Hpend.
  specialize (IH (i + 1)%nat (<[i := mkWorker (ident w) rest]> now)).
  destruct (drain j _) as [items ending]. simpl in *.
  f_equal. replace (S i) with (i + 1)%nat by lia. apply IH.
  - lia.
  - rewrite length_insert. lia.
  - intros k Hk. rewrite list_lookup_insert_ne by lia. apply Hsame. lia.
Qed.

End ShardingFacts.

Section ShardingProperties.
Import Interleaving InterleavingFacts ShardingFacts.

(** X17: the shards of [__init__]. When it returns, there is one worker
    per index of [range(cycle_length)] (none for a negative
    [cycle_length]), each a distinct object, the index is 0, and the
    worker of rank [i] will yield what the factory yields for the [i]-th
    shard. For a [per_worker] that is not negative, the shards are
    consecutive rows of at most [per_worker] files: laid end to end they
    are the first [cycle_length * per_worker] files, so all the files
    when [cycle_length * per_worker] is at least their number. *)
Theorem init_shards_are_consecutive {F A} (beatmap_files : list F)
    (iterable_factory : list F -> list A) (cycle_length : Z) (self : Interleaving.t A) :
  Sharding.init beatmap_files iterable_factory cycle_length = Some self ->
  exists per_worker,
    Sharding.per_worker (Z.of_nat (length beatmap_files)) cycle_length = Some per_worker
    /\ let shards :=
         Sharding.shard beatmap_files per_worker
           <$> (Z.of_nat <$> seq 0 (Z.to_nat cycle_length)) in
       length (workers self) = Z.to_nat cycle_length
       /\ index self = 0%nat
       /\ NoDup (ident <$> workers self)
       /\ pending <$> workers self = iterable_factory <$> shards
       /\ (0 <= per_worker ->
           Forall (fun s => Z.of_nat (length s) <= per_worker) shards
           /\ concat shards
              = take (Z.to_nat (cycle_length * per_worker)) beatmap_files
           /\ (Z.of_nat (length beatmap_files) <= cycle_length * per_worker ->
               concat shards = beatmap_files)).
Proof.
  intros H. apply init_inv in H as (p & Hp & Hc & ->).
  exists p. cbn zeta. split; [done|]. simpl workers.
  split; [by rewrite length_imap, !length_fmap, length_seq|].
  split; [done|].
  split; [rewrite ident_imap; apply NoDup_seq|].
  split; [apply pending_imap|].
  intros Hpos.
  assert (concat (Sharding.shard beatmap_files p
                    <$> (Z.of_nat <$> seq 0 (Z.to_nat cycle_length)))
          = take (Z.to_nat (cycle_length * p)) beatmap_files) as Hcat.
  { rewrite shards_concat by done. f_equal.
    destruct (Z.le_gt_cases 0 cycle_length); [lia|].
    replace (Z.to_nat cycle_length) with 0%nat by lia.
    replace (Z.to_nat (cycle_length * p)) with 0%nat by lia. done. }
  split; [|split; [done|]].
  - apply Forall_fmap, Forall_fmap, Forall_forall. intros i _. simpl.
    rewrite shard_row by done. rewrite length_take. lia.
  - intros Hall. rewrite Hcat. apply take_ge. lia.
Qed.

Lemma init_shards_are_consecutive_witness :
  exists self,
    Sharding.init [1; 2; 3; 4; 5] (fun fs => (fun f => 10 * f) <$> fs) 2 = Some self
    /\ pending <$> workers self = [[10; 20; 30]; [40; 50]].
Proof.
  destruct (Sharding.init [1; 2; 3; 4; 5] (fun fs => (fun f => 10 * f) <$> fs) 2)
    as [self|] eqn:H; [|vm_compute in H; discriminate H].
  exists self. split; [reflexivity|].
  destruct (init_shards_are_consecutive [1; 2; 3; 4; 5]
              (fun fs => (fun f => 10 * f) <$> fs) 2 self H)
    as (p & Hp & _ & _ & _ & Hpend & _).
  vm_compute in Hp. injection Hp as <-. exact Hpend.
Defined.

(** X18: construction and iteration together. For the iterator that
    [__init__] returns, a consumer's loop ends with [StopIteration] after
    handing out, once each, exactly the items that the factory's iterators
    yield for the shards; no other error is raised. With a [per_worker]
    that is not negative and [cycle_length * per_worker] at least the
    number of files, the shards laid end to end are the files: every file
    is given to exactly one worker. *)
Theorem interleaved_shards_are_exhausted {F A} (beatmap_files : list F)
    (iterable_factory : list F -> list A) (cycle_length : Z) (self : Interleaving.t A) :
  Sharding.init beatmap_files iterable_factory cycle_length = Some self ->
  exists per_worker items final,
    Sharding.per_worker (Z.of_nat (length beatmap_files)) cycle_length = Some per_worker
    /\ let shards :=
         Sharding.shard beatmap_files per_worker
           <$> (Z.of_nat <$> seq 0 (Z.to_nat cycle_length)) in
       drain (S (length (concat (iterable_factory <$> shards)))) self
       = (items, Exhausted final)
       /\ items ≡ₚ concat (iterable_factory <$> shards)
       /\ workers final = []
       /\ (0 <= per_worker ->
           Z.of_nat (length beatmap_files) <= cycle_length * per_worker ->
           concat shards = beatmap_files).
Proof.
  intros H. apply init_inv in H as (p & Hp & Hc & ->).
  exists p. cbn zeta.
  set (shards := Sharding.shard beatmap_files p
                   <$> (Z.of_nat <$> seq 0 (Z.to_nat cycle_length))).
  set (self := mk _ _).
  assert (all_pending (workers self) = concat (iterable_factory <$> shards)) as Hpend.
  { unfold all_pending. simpl. by rewrite pending_imap. }
  destruct (drain_ok (S (length (concat (iterable_factory <$> shards)))) self)
    as (items & final & Hd & Hperm & Hfin).
  { simpl. rewrite ident_imap. apply NoDup_seq. }
  { rewrite Hpend. lia. }
  exists items, final. split; [done|]. split; [done|].
  split; [by rewrite Hperm, Hpend|]. split; [done|].
  intros Hpos Hall. subst shards. rewrite shards_concat by done.
  apply take_ge. nia.
Qed.

Lemma interleaved_shards_are_exhausted_witness :
  exists items final,
    Sharding.init [1; 2; 3; 4; 5] (fun fs => (fun f => 10 * f) <$> fs) 2
    = Some (mk [mkWorker 0 [10; 20; 30]; mkWorker 1 [40; 50]] 0%nat)
    /\ drain 6 (mk [mkWorker 0 [10; 20; 30]; mkWorker 1 [40; 50]] 0%nat)
       = (items, Exhausted final)
    /\ items ≡ₚ [10; 20; 30; 40; 50].
Proof.
  destruct (interleaved_shards_are_exhausted [1; 2; 3; 4; 5]
              (fun fs => (fun f => 10 * f) <$> fs) 2
              (mk [mkWorker 0 [10; 20; 30]; mkWorker 1 [40; 50]] 0%nat))
    as (p & items & final & Hp & Hd & Hperm & _);
    [vm_compute; reflexivity|].
  vm_compute in Hp. injection Hp as <-.
  exists items, final.
  split; [vm_compute; reflexivity|]. split; [exact Hd|exact Hperm].
Defined.

(** X19: the round robin is fair. From index 0, with an item pending in
    every worker, the first [len(workers)] calls of [__next__] hand out
    the first item of each worker, in the order of the workers. *)
Theorem round_robin_takes_one_from_each {A} (ws : list (Worker A)) :
  Forall (fun w => pending w <> []) ws ->
  (drain (length ws) (mk ws 0%nat)).1 = omap (fun w => head (pending w)) ws.
Proof.
  intros Hall.
  rewrite (drain_round ws Hall (length ws) 0%nat ws); [|lia|done|done].
  by rewrite drop_0, firstn_all.
Qed.

Lemma round_robin_takes_one_from_each_witness :
  (drain 2 (mk [mkWorker 0 [10; 20; 30]; mkWorker 1 [40; 50]] 0%nat)).1 = [10; 40].
Proof.
  apply (round_robin_takes_one_from_each
           [mkWorker 0 [10; 20; 30]; mkWorker 1 [40; 50]]).
  repeat constructor; discriminate.
Defined.

End ShardingProperties.

(** ** What [process] keeps *)

Module ProcessFacts.
Import TimeNormalizer TimeNormalizerFacts.

Lemma rewrite_event_kind start_time e e' :
  rewrite_event start_time e = Some e' ->
  is_time_shift e' = is_time_shift e
  /\ (is_time_shift e = false -> e' = e).
Proof.
  unfold rewrite_event. destruct (is_time_shift e) eqn:He.
  - destruct (steps start_time (value e)); simpl; [|done].
    intros [= <-]. done.
  - intros [= <-]. done.
Qed.

Lemma rewritten_others start_time events rewritten :
  mapM (rewrite_event start_time) events = Some rewritten ->
  List.filter (fun e => negb (is_time_shift e)) rewritten
  = List.filter (fun e => negb (is_time_shift e)) events.
Proof.
  revert rewritten. induction events as [|e rest IH]; intros rewritten H.
  - change (Some [] = Some rewritten) in H. by injection H as <-.
  - rewrite mapM_cons_eq in H.
    destruct (rewrite_event start_time e) as [e'|] eqn:He; simpl in H; [|done].
    destruct (mapM _ rest) as [rest'|]; simpl in H; [|done].
    simplify_eq. apply rewrite_event_kind in He as [Hk Hsame].
    simpl. rewrite Hk, (IH rest' eq_refl).
    destruct (is_time_shift e) eqn:Hs; simpl; [done|]. by rewrite Hsame.
Qed.

Lemma drop_shifts_others l :
  List.filter (fun e => negb (is_time_shift e)) (drop_shifts_before_anchors l)
  = List.filter (fun e => negb (is_time_shift e)) l.
Proof.
  induction l as [|e rest IH]; simpl; [done|].
  destruct (is_time_shift e) eqn:Hs; simpl.
  - destruct (anchor_ahead rest); simpl; [done|]. by rewrite Hs.
  - by rewrite Hs, IH.
Qed.

End ProcessFacts.

Section NormalizerProperties.
Import FrameFacts PackFacts PipelineFacts TimeNormalizer TimeNormalizerFacts
  LayoutFacts LoopFacts ProcessFacts.

(** X20: [process] only touches time shifts. When it returns, the events
    that are not time shifts are all there, unchanged and in their order,
    and the list has not grown: every difference is a time shift that
    was rewritten or deleted. *)
Theorem process_keeps_other_events (events : list Event) (start_time : float)
    (out : list Event) :
  process events start_time = Some out ->
  List.filter (fun e => negb (is_time_shift e)) out
  = List.filter (fun e => negb (is_time_shift e)) events
  /\ (length out <= length events)%nat.
Proof.
  intros H. split; [|by eapply process_length].
  rewrite process_eq in H.
  destruct (mapM _ events) as [rewritten|] eqn:Hm; simpl in H; [|done].
  simplify_eq. rewrite drop_shifts_others. by eapply rewritten_others.
Qed.

Lemma process_keeps_other_events_witness :
  process [mkEvent TIME_SHIFT 17; mkEvent BEZIER_ANCHOR 3; mkEvent (OTHER_TYPE 0) 4]
          Float64.zero
  = Some [mkEvent BEZIER_ANCHOR 3; mkEvent (OTHER_TYPE 0) 4]
  /\ List.filter (fun e => negb (is_time_shift e))
       [mkEvent BEZIER_ANCHOR 3; mkEvent (OTHER_TYPE 0) 4]
     = [mkEvent BEZIER_ANCHOR 3; mkEvent (OTHER_TYPE 0) 4].
Proof.
  split; [vm_compute; reflexivity|].
  apply (process_keeps_other_events
           [mkEvent TIME_SHIFT 17; mkEvent BEZIER_ANCHOR 3; mkEvent (OTHER_TYPE 0) 4]
           Float64.zero).
  vm_compute; reflexivity.
Defined.

(** X21: [process] raises only where the offset of a time shift is
    computed: it fails exactly when the list holds a time shift for which
    [int((event.value - start_time) * STEPS_PER_MILLISECOND)] raises (a
    value beyond the doubles, or a scaled offset that is not finite). The
    sweep over the anchors never raises, although it deletes from the list
    it is indexing. *)
Theorem process_raises_iff (events : list Event) (start_time : float) :
  process events start_time = None
  <-> Exists (fun e => is_time_shift e = true
                       /\ steps start_time (value e) = None) events.
Proof.
  rewrite process_eq.
  induction events as [|e rest IH].
  - simpl. split; [done|]. by intros ?%Exists_nil.
  - rewrite mapM_cons_eq, Exists_cons.
    destruct (rewrite_event start_time e) as [e'|] eqn:He; simpl.
    + assert (~ (is_time_shift e = true /\ steps start_time (value e) = None)) as Hok.
      { intros [Hs Hn]. rewrite (rewrite_event_shift _ _ Hs), Hn in He. done. }
      destruct (mapM _ rest) as [rest'|]; simpl in *.
      * split; [done|]. intros [?|Hr]; [done|]. by apply IH in Hr.
      * split; [|done]. intros _. right. by apply IH.
    + split; [|done]. intros _. left.
      unfold rewrite_event in He. destruct (is_time_shift e); [|done].
      split; [done|]. by destruct (steps start_time (value e)).
Qed.

Lemma process_raises_iff_witness :
  process [mkEvent (OTHER_TYPE 0) 4; mkEvent TIME_SHIFT 17] Float64.neg_infinity = None.
Proof.
  apply (process_raises_iff [mkEvent (OTHER_TYPE 0) 4; mkEvent TIME_SHIFT 17]
           Float64.neg_infinity).
  apply Exists_cons_tl, Exists_cons_hd. split; vm_compute; reflexivity.
Defined.

(** X22: a window that fits is packed whole. When the renormalized events
    and the end-of-sequence token fit in the room of the main segment
    ([tgt_seq_len - pre_token_len] slots in centre-pad mode, at least
    [tgt_seq_len - special_token_len - 4] otherwise), the labels of the
    example are the ignore marker, then the encoded events in order, then
    the end-of-sequence id, then the ignore marker to the end. *)
Theorem fitting_window_is_packed_whole (self : It.t) (sequence : Sequence float)
    (d : Draws) (ex : Example) (events' : list Event) :
  initialized self ->
  0 <= Args.special_token_len (It.args self) ->
  Args.special_token_len (It.args self) + 4 <= Args.tgt_seq_len (It.args self) ->
  process (events sequence) (time sequence) = Some events' ->
  Z.of_nat (length events') + 1
  <= (if Args.center_pad_decoder (It.args self)
      then Args.tgt_seq_len (It.args self) - It.pre_token_len self
      else Args.tgt_seq_len (It.args self) - Args.special_token_len (It.args self) - 4) ->
  pack_window self sequence d = Some ex ->
  exists a : nat,
    labels ex
    = replicate a LABEL_IGNORE_ID
        ++ (Tok.encode (It.tokenizer self) <$> events')
        ++ [Tok.eos_id (It.tokenizer self)]
        ++ replicate (Z.to_nat (Args.tgt_seq_len (It.args self))
                      - a - S (length events'))
                     LABEL_IGNORE_ID.
Proof.
  intros Hinit Hstl Htgt Hev Hfits H.
  apply pack_window_tokens in H as (events1 & padded & Hev1 & Htok & Hex).
  rewrite Hev in Hev1. simplify_eq.
  apply labels_layout in Hex as (a & n & Hn & _ & _ & Hlab);
    [|done|done|done|rewrite Htok, !length_app; simpl; lia].
  assert (n = S (length events1)) as ->.
  { unfold packing, budget in Hn.
    destruct Hinit as (_ & Hmin & _). rewrite Hmin in Hn.
    rewrite Htok in Hn. rewrite !length_app, length_fmap in Hn. simpl in Hn.
    pose proof (num_pre_tokens_nonneg (It.args self) (default [] (pre_tokens padded))).
    destruct (Args.center_pad_decoder (It.args self)); simpl in Hn; lia. }
  exists a. rewrite Hlab, Htok. simpl drop. rewrite drop_0.
  rewrite take_ge by (rewrite length_app, length_fmap; simpl; lia).
  by rewrite <- app_assoc.
Qed.

Lemma fitting_window_is_packed_whole_witness :
  exists ex (a : nat),
    pack_window Demo.plain window_17 (Demo.draws Demo.half Demo.half 0) = Some ex
    /\ labels ex
       = replicate a LABEL_IGNORE_ID ++ [11; 40] ++ [2]
           ++ replicate (8 - a - 3) LABEL_IGNORE_ID.
Proof.
  destruct (pack_window Demo.plain window_17 (Demo.draws Demo.half Demo.half 0))
    as [ex|] eqn:H; [|vm_compute in H; discriminate H].
  destruct (fitting_window_is_packed_whole Demo.plain window_17
              (Demo.draws Demo.half Demo.half 0) ex
              [mkEvent TIME_SHIFT 1; mkEvent (OTHER_TYPE 0) 4])
    as (a & Hlab);
    [apply init_initialized|simpl; lia|simpl; lia|vm_compute; reflexivity
    |simpl; lia|exact H|].
  exists ex, a. split; [reflexivity|exact Hlab].
Defined.

End NormalizerProperties.

(** ** When the stages return *)

Module TotalityFacts.
Import FrameFacts PackFacts PipelineFacts WindowerFacts LayoutFacts.

Lemma setitem_some {A} (l : list A) (i : Z) (x : A) :
  0 <= i < Z.of_nat (length l) -> is_Some (Py.setitem l i x).
Proof.
  intros Hi. unfold Py.setitem, Py.index_of.
  destruct (Z.ltb_spec i 0); [lia|].
  destruct (Z.leb_spec 0 i); [|lia].
  destruct (Z.ltb_spec i (Z.of_nat (length l))); [|lia].
  simpl. by eexists.
Qed.

Lemma write_side_tokens_some args t s dt bt :
  0 <= s ->
  Args.diff_token_index args < Args.special_token_len args ->
  Args.style_token_index args < Args.special_token_len args ->
  s + Args.special_token_len args <= Z.of_nat (length t) ->
  is_Some (write_side_tokens args t s dt bt).
Proof.
  intros Hs Hd Hst Hfit. unfold write_side_tokens.
  assert (exists t0,
            (if 0 <=? Args.diff_token_index args
             then Py.setitem t (s + Args.diff_token_index args) dt
             else Some t) = Some t0
            /\ length t0 = length t) as (t0 & -> & Hl0).
  { destruct (Z.leb_spec 0 (Args.diff_token_index args)); [|by eexists].
    destruct (setitem_some t (s + Args.diff_token_index args) dt) as [t0 Ht0]; [lia|].
    exists t0. split; [done|]. by apply setitem_length in Ht0. }
  simpl. destruct (Z.leb_spec 0 (Args.style_token_index args)); [|by eexists].
  apply setitem_some. lia.
Qed.

Lemma setslice_some (t src : list Z) (a k : Z) :
  0 <= a -> 0 <= k -> a + k <= Z.of_nat (length t) ->
  length src = Z.to_nat k ->
  is_Some (Torch.setslice t a (a + k) src).
Proof.
  intros Ha Hk Hfit Hsrc. unfold Torch.setslice, Py.clamp_index.
  destruct (Z.ltb_spec a 0), (Z.ltb_spec (a + k) 0); try lia.
  rewrite !Z.min_l by lia.
  replace (a + k - a) with k by lia.
  destruct (decide _); [by eexists|done].
Qed.

(** The writes of [pack] all succeed when the segments fit. *)
Lemma pack_some self sequence d pre oth n m o start_index inp lab :
  let stl := Args.special_token_len (It.args self) in
  let tgt := Args.tgt_seq_len (It.args self) in
  Z.of_nat (length inp) = tgt -> Z.of_nat (length lab) = tgt ->
  0 <= stl ->
  Args.diff_token_index (It.args self) < stl ->
  Args.style_token_index (It.args self) < stl ->
  0 <= start_index -> 0 <= o ->
  (0 < o -> is_Some (tk_other sequence) /\ o - stl <= Z.of_nat (length oth)) ->
  start_index + o + stl <= tgt ->
  (0 < m -> m <= Z.of_nat (length pre) /\ start_index + o + stl + m <= tgt) ->
  0 <= start_index + o + m + stl ->
  0 <= n <= Z.of_nat (length (tokens sequence)) - 1 ->
  start_index + o + m + stl + n <= tgt ->
  (0 < Args.timing_random_offset (It.args self) ->
   - Args.timing_random_offset (It.args self) <= It.frame_seq_len self) ->
  is_Some (pack self sequence d pre oth n m o start_index inp lab).
Proof.
  cbn zeta. intros Hinp Hlab Hstl Hd Hst Hsi Ho Hguide Hs Hpre Ha Hn Hfit Hjit.
  unfold pack.
  assert (exists t1,
            (if 0 <? o
             then g ← tk_other sequence;
                  input_tokens ← write_side_tokens (It.args self) inp start_index
                                   (other_difficulty_token g) (other_beatmap_idx_token g);
                  (if Args.special_token_len (It.args self) <? o
                   then Torch.setslice input_tokens
                          (start_index + Args.special_token_len (It.args self))
                          (start_index + o)
                          (Py.slice_to oth (o - Args.special_token_len (It.args self)))
                   else Some input_tokens)
             else Some inp) = Some t1
            /\ length t1 = length inp) as (t1 & -> & Hl1).
  { destruct (Z.ltb_spec 0 o) as [Hpos|]; [|by eexists].
    destruct (Hguide Hpos) as [[g ->] Hoth]. simpl.
    destruct (write_side_tokens_some (It.args self) inp start_index
                (other_difficulty_token g) (other_beatmap_idx_token g))
      as [t0 Ht0]; [done|done|done|lia|].
    rewrite Ht0. simpl.
    pose proof (write_side_tokens_length _ _ _ _ _ _ Ht0) as Hl0.
    destruct (Z.ltb_spec (Args.special_token_len (It.args self)) o); [|by eexists].
    replace (start_index + o)
      with (start_index + Args.special_token_len (It.args self)
            + (o - Args.special_token_len (It.args self))) by lia.
    destruct (setslice_some t0
                (Py.slice_to oth (o - Args.special_token_len (It.args self)))
                (start_index + Args.special_token_len (It.args self))
                (o - Args.special_token_len (It.args self)))
      as [t1 Ht1]; [lia|lia|lia| |].
    { rewrite slice_to_take by lia. rewrite length_take. lia. }
    exists t1. split; [done|]. apply setslice_length in Ht1. congruence. }
  simpl.
  destruct (write_side_tokens_some (It.args self) t1 (start_index + o)
              (difficulty_token sequence) (beatmap_idx_token sequence))
    as [t2 Ht2]; [lia|done|done|lia|].
  rewrite Ht2. simpl.
  pose proof (write_side_tokens_length _ _ _ _ _ _ Ht2) as Hl2.
  assert (exists t3,
            (if 0 <? m
             then Torch.setslice t2
                    (start_index + o + Args.special_token_len (It.args self))
                    (start_index + o + m + Args.special_token_len (It.args self))
                    (Py.slice_from pre (- m))
             else Some t2) = Some t3
            /\ length t3 = length t2) as (t3 & -> & Hl3).
  { destruct (Z.ltb_spec 0 m) as [Hpos|]; [|by eexists].
    destruct (Hpre Hpos) as [Hm Hroom].
    replace (start_index + o + m + Args.special_token_len (It.args self))
      with (start_index + o + Args.special_token_len (It.args self) + m) by lia.
    destruct (setslice_some t2 (Py.slice_from pre (- m))
                (start_index + o + Args.special_token_len (It.args self)) m)
      as [t3 Ht3]; [lia|lia|lia| |].
    { rewrite slice_last by lia. rewrite length_drop. lia. }
    exists t3. split; [done|]. by apply setslice_length in Ht3. }
  simpl.
  destruct (setslice_some t3 (Py.slice_to (tokens sequence) n)
              (start_index + o + m + Args.special_token_len (It.args self)) n)
    as [t4 Ht4]; [lia|lia|lia| |].
  { rewrite slice_to_take by lia. rewrite length_take. lia. }
  rewrite Ht4. simpl.
  destruct (setslice_some lab (Py.slice (tokens sequence) 1 (n + 1))
              (start_index + o + m + Args.special_token_len (It.args self)) n)
    as [t5 Ht5]; [lia|lia|lia| |].
  { rewrite slice_successors by lia. rewrite length_take, length_drop. lia. }
  rewrite Ht5. simpl.
  destruct (Z.ltb_spec 0 (Args.timing_random_offset (It.args self))) as [Hpos|];
    simpl; [|by eexists].
  unfold Random.randint.
  destruct (Z.ltb_spec (It.frame_seq_len self)
              (- Args.timing_random_offset (It.args self))); [specialize (Hjit Hpos); lia|].
  simpl. by eexists.
Qed.

Lemma budget_guide self len_tokens npre nother :
  initialized self ->
  0 <= Args.special_token_len (It.args self) ->
  Args.special_token_len (It.args self) + 4 <= Args.tgt_seq_len (It.args self) ->
  1 <= len_tokens -> 0 <= npre -> 0 <= nother ->
  let b := budget self len_tokens npre nother in
  0 <= b.2 /\ 0 <= b.1.2 <= nother.
Proof.
  intros (_ & Hmin & Hpre) Hstl Htgt Hlen Hnpre Hnother.
  unfold budget. rewrite Hmin.
  assert (0 <= It.pre_token_len self <= Args.tgt_seq_len (It.args self)) as Hp.
  { rewrite Hpre.
    pose proof (Z.div_pos (Args.tgt_seq_len (It.args self)) 2).
    pose proof (Z.div_le_upper_bound (Args.tgt_seq_len (It.args self)) 2
                  (Args.tgt_seq_len (It.args self))).
    lia. }
  destruct (Args.center_pad_decoder (It.args self)); cbn zeta; simpl; lia.
Qed.

(** [make_sequence] returns for every frame index of the audio. *)
Lemma make_sequence_some self audio_frames frame_times all_events idx diff indices
    (other : option (Guide (list Event) * (list Z * list Z))) fs :
  length frame_times = length (rows audio_frames) ->
  0 < It.frame_seq_len self ->
  0 <= fs < Z.of_nat (length (rows audio_frames)) ->
  Windower.get_event_indices frame_times all_events = Some indices ->
  (forall g other_indices,
     other = Some (g, other_indices) ->
     Windower.get_event_indices frame_times (other_events g) = Some other_indices) ->
  is_Some
    (Windower.make_sequence self audio_frames frame_times all_events idx diff
       indices other fs).
Proof.
  intros Hlen Hfsl Hfs Hidx Hother. unfold Windower.make_sequence.
  set (n := Z.of_nat (length (rows audio_frames))) in *.
  set (fe := Z.min (fs + It.frame_seq_len self) n).
  set (fp := Z.max (fs - It.frame_seq_len self) 0).
  assert (forall evs ind (i : Z),
            Windower.get_event_indices frame_times evs = Some ind ->
            0 <= i < n ->
            exists s e,
              Py.getitem ind.1 i = Some s /\ Py.getitem ind.2 i = Some e)
    as Hget.
  { intros evs ind i Hind Hi.
    destruct (get_event_indices_spec frame_times evs ind (Z.to_nat i) Hind)
      as (s & e & Hs & He & _); [lia|].
    exists s, e. by rewrite !getitem_nonneg by lia. }
  destruct (Hget all_events indices fs Hidx) as (ts & _ & -> & _); [lia|].
  destruct (Hget all_events indices (fe - 1) Hidx) as (_ & te & _ & ->); [lia|].
  destruct (Hget all_events indices fp Hidx) as (tp & _ & -> & _); [lia|].
  simpl.
  rewrite getitem_nonneg by lia.
  destruct (lookup_lt_is_Some_2 frame_times (Z.to_nat fs)) as [t ->]; [lia|].
  simpl.
  destruct other as [[g other_indices]|]; [|simpl; by eexists].
  specialize (Hother g other_indices eq_refl).
  destruct (Hget (other_events g) other_indices fs Hother) as (os & _ & -> & _); [lia|].
  destruct (Hget (other_events g) other_indices (fe - 1) Hother) as (_ & oe & _ & ->);
    [lia|].
  simpl. by eexists.
Qed.

(** The packing returns on a sane configuration. *)
Lemma pad_and_split_some (self : It.t) (sequence : Tokenized (list float))
    (d : Draws) :
  initialized self ->
  0 <= Args.special_token_len (It.args self) ->
  Args.special_token_len (It.args self) + 4 <= Args.tgt_seq_len (It.args self) ->
  Args.diff_token_index (It.args self) < Args.special_token_len (It.args self) ->
  Args.style_token_index (It.args self) < Args.special_token_len (It.args self) ->
  - Args.timing_random_offset (It.args self) <= It.frame_seq_len self ->
  (1 <= length (tokens sequence))%nat ->
  is_Some (pad_and_split_token_sequence self sequence d).
Proof.
  intros Hinit Hstl Htgt Hd Hst Hjit Htok.
  unfold pad_and_split_token_sequence, Torch.full.
  destruct (Z.ltb_spec (Args.tgt_seq_len (It.args self)) 0); [lia|]. simpl.
  set (npre := num_pre_tokens (It.args self) (default [] (pre_tokens sequence))).
  set (nother := match tk_other sequence with
                 | Some _ =>
                     Z.of_nat (length (default [] (other_tokens <$> tk_other sequence)))
                     + Args.special_token_len (It.args self)
                 | None => 0
                 end).
  assert (0 <= nother) as Hnother by (subst nother; destruct (tk_other sequence); lia).
  pose proof (num_pre_tokens_nonneg (It.args self) (default [] (pre_tokens sequence)))
    as Hnpre.
  pose proof (num_pre_tokens_le (It.args self) (default [] (pre_tokens sequence)))
    as Hle.
  fold npre in Hnpre, Hle.
  destruct (budget_bounds self (Z.of_nat (length (tokens sequence))) npre nother)
    as (Hn & Hmle & Hs & Hs1 & Hs2 & Ha & Hfit & _ & _);
    [done|done|done|lia|done|done|].
  destruct (budget_guide self (Z.of_nat (length (tokens sequence))) npre nother)
    as (Hsi & Ho); [done|done|done|lia|done|done|].
  cbn zeta in *.
  set (b := budget self (Z.of_nat (length (tokens sequence))) npre nother) in *.
  apply pack_some; rewrite ?length_replicate; try lia.
  intros Hpos. split.
  - subst nother. destruct (tk_other sequence); [by eexists|lia].
  - subst nother. destruct (tk_other sequence); simpl in *; lia.
Qed.

(** [_create_sequences] returns exactly when [frame_seq_len] is positive
    and the event indices can be computed. *)
Lemma create_sequences_some_iff self audio_frames frame_times all_events idx diff other
    raw :
  length frame_times = length (rows audio_frames) ->
  is_Some (Windower.create_sequences self audio_frames frame_times all_events idx diff
             other raw)
  <-> 0 < It.frame_seq_len self
      /\ is_Some (Windower.get_event_indices frame_times all_events)
      /\ (forall g, other = Some g ->
             is_Some (Windower.get_event_indices frame_times (other_events g))).
Proof.
  intros Hlen. split.
  - intros [sequences H].
    pose proof (create_sequences_offset _ _ _ _ _ _ _ _ _ H)
      as (offset & indices & other_indices & starts & _ & _ & Hpos & Hidx & _).
    split; [done|]. split; [by eexists|].
    intros g ->. unfold Windower.create_sequences in H.
    destruct (Random.randint _ _ _); simpl in H; [|done].
    unfold Windower.sequences_from in H. rewrite Hidx in H. simpl in H.
    by destruct (Windower.get_event_indices frame_times (other_events g)).
  - intros (Hpos & [indices Hidx] & Hguide).
    unfold Windower.create_sequences, Random.randint.
    destruct (Z.ltb_spec (It.frame_seq_len self) 0); [lia|]. simpl.
    unfold Windower.sequences_from. rewrite Hidx. simpl.
    set (offset := 0 + raw `mod` (It.frame_seq_len self - 0 + 1)).
    assert (0 <= offset).
    { subst offset.
      pose proof (Z.mod_pos_bound raw (It.frame_seq_len self - 0 + 1)). lia. }
    assert (exists other_indices,
              match other with
              | Some g =>
                  indices ← Windower.get_event_indices frame_times (other_events g);
                  Some (Some (g, indices))
              | None => Some None
              end = Some other_indices
              /\ forall g oi,
                   other_indices = Some (g, oi) ->
                   Windower.get_event_indices frame_times (other_events g) = Some oi)
      as (other_indices & -> & Hother).
    { destruct other as [g|]; [|by exists None].
      destruct (Hguide g eq_refl) as [oi Hoi]. rewrite Hoi. simpl.
      exists (Some (g, oi)). split; [done|]. intros g' oi' [= <- <-]. done. }
    simpl.
    destruct (py_range offset (Z.of_nat (length (rows audio_frames)))
                (It.frame_seq_len self)) as [starts|] eqn:Hr.
    + simpl. apply mapM_is_Some.
      apply py_range_bounds in Hr; [|done].
      eapply Forall_impl; [exact Hr|]. intros fs Hfs. simpl in Hfs |- *.
      apply make_sequence_some; [done|done|lia|done|done].
    + unfold py_range in Hr.
      by destruct (Z.eqb_spec (It.frame_seq_len self) 0); [lia|].
Qed.

(** The events of a beatmap and of its guide have times within the
    doubles. *)
Definition times_convert (all_events : list Event)
    (other : option (Guide (list Event))) : Prop :=
  Forall time_converts all_events
  /\ forall g, other = Some g -> Forall time_converts (other_events g).

Lemma create_sequences_some self audio_frames frame_times all_events idx diff other raw :
  length frame_times = length (rows audio_frames) ->
  times_convert all_events other ->
  0 < It.frame_seq_len self ->
  is_Some (Windower.create_sequences self audio_frames frame_times all_events idx diff
             other raw).
Proof.
  intros Hlen [Hev Hguide] Hpos. apply create_sequences_some_iff; [done|].
  split; [done|]. split; [by apply get_event_indices_some|].
  intros g Hg. apply get_event_indices_some. by apply Hguide.
Qed.

(** The four stages return exactly when the first one does. *)
Lemma pack_window_some self sequence d :
  initialized self ->
  0 <= Args.special_token_len (It.args self) ->
  Args.special_token_len (It.args self) + 4 <= Args.tgt_seq_len (It.args self) ->
  Args.diff_token_index (It.args self) < Args.special_token_len (It.args self) ->
  Args.style_token_index (It.args self) < Args.special_token_len (It.args self) ->
  0 <= It.frame_seq_len self ->
  0 <= Args.timing_random_offset (It.args self) ->
  is_Some (pack_window self sequence d) <-> is_Some (trim_time_shifts sequence).
Proof.
  intros Hinit Hstl Htgt Hd Hst Hfsl Hjit. unfold pack_window.
  destruct (trim_time_shifts sequence) as [trimmed|]; simpl;
    [|split; by intros [? ?]].
  split; [by eexists|]. intros _.
  destruct (pad_frame_sequence self (tokenize_sequence self trimmed d))
    as [padded|] eqn:Hp; simpl.
  - apply pad_and_split_some; try done; [lia|].
    apply pad_frame_sequence_keeps in Hp as (-> & _).
    simpl. rewrite !length_app. simpl. lia.
  - unfold pad_frame_sequence in Hp.
    destruct (negb _); simpl in Hp; [|done].
    by destruct (Z.ltb_spec (It.frame_seq_len self) 0); [lia|].
Qed.

(** The loop runs to its end exactly when no window fails. *)
Lemma run_sequences_some self0 work :
  initialized self0 ->
  0 <= Args.special_token_len (It.args self0) ->
  Args.special_token_len (It.args self0) + 4 <= Args.tgt_seq_len (It.args self0) ->
  Args.diff_token_index (It.args self0) < Args.special_token_len (It.args self0) ->
  Args.style_token_index (It.args self0) < Args.special_token_len (It.args self0) ->
  0 <= It.frame_seq_len self0 ->
  0 <= Args.timing_random_offset (It.args self0) ->
  forall self,
    same_config self0 self ->
    is_Some (run_sequences self work).2
    <-> Forall (fun w => is_Some (trim_time_shifts w.1.1)) work.
Proof.
  intros Hinit Hstl Htgt Hd Hst Hfsl Hjit.
  induction work as [|[[sequence shared] d] later IH]; intros self Hcfg.
  - simpl. split; [constructor|by eexists].
  - rewrite Forall_cons. simpl.
    pose proof (maybe_change_dataset_config self shared) as Hnext.
    pose proof (same_config_trans _ _ _ Hcfg Hnext) as Hcfg'.
    pose proof (LoopFacts.initialized_same_config _ _ Hcfg' Hinit) as Hinit'.
    pose proof Hcfg' as (Hargs & _ & Hf & _).
    pose proof (pack_window_some (maybe_change_dataset self shared) sequence d Hinit')
      as Hpack.
    rewrite Hargs, Hf in Hpack.
    specialize (Hpack Hstl Htgt Hd Hst Hfsl Hjit).
    unfold step_sequence.
    destruct (pack_window (maybe_change_dataset self shared) sequence d) as [ex|];
      simpl.
    + specialize (IH _ Hcfg').
      assert (is_Some (trim_time_shifts sequence)) as Htrim by (apply Hpack; by eexists).
      destruct (negb _ && _).
      * rewrite IH. tauto.
      * destruct (run_sequences (maybe_change_dataset self shared) later) as [y f].
        simpl in *. rewrite IH. tauto.
    + split; [by intros [? ?]|]. intros [Htrim _].
      apply Hpack in Htrim. by destruct Htrim.
Qed.

End TotalityFacts.

Section TotalityProperties.
Import FrameFacts PackFacts PipelineFacts WindowerFacts LayoutFacts LoopFacts
  TotalityFacts.

(** X23: given one frame time per frame, [_create_sequences] returns
    exactly when [frame_seq_len] is positive and [get_event_indices]
    returns for the events and for the events of the guide: a negative
    [frame_seq_len] is an empty range for [random.randint], a zero one a
    zero step for [range], and every index the loop reads is in range.
    When the value of every TIME_SHIFT of the events and of the guide is
    within the doubles, it returns exactly when [frame_seq_len] is
    positive. *)
Theorem create_sequences_returns_iff (self : It.t) (audio_frames : Array2)
    (frame_times : list float) (all_events : list Event) (idx : Z) (diff : float)
    (other : option (Guide (list Event))) (raw : Z) :
  length frame_times = length (rows audio_frames) ->
  (is_Some (Windower.create_sequences self audio_frames frame_times all_events idx diff
              other raw)
   <-> 0 < It.frame_seq_len self
       /\ is_Some (Windower.get_event_indices frame_times all_events)
       /\ (forall g, other = Some g ->
              is_Some (Windower.get_event_indices frame_times (other_events g))))
  /\ (times_convert all_events other ->
      (is_Some (Windower.create_sequences self audio_frames frame_times all_events idx
                  diff other raw)
       <-> 0 < It.frame_seq_len self)).
Proof.
  intros Hlen. split; [by apply create_sequences_some_iff|].
  intros Hconv. split.
  - intros H. by apply create_sequences_some_iff in H as [Hpos _].
  - intros Hpos. by apply create_sequences_some.
Qed.

Lemma create_sequences_returns_iff_witness :
  is_Some (Windower.create_sequences Demo.plain demo_segments.1 demo_segments.2
             (parsed_events (Demo.input (Demo.draws Demo.half Demo.half 0)))
             7 Demo.one None 1)
  /\ ~ is_Some (Windower.create_sequences Demo.plain demo_segments.1 demo_segments.2
                  [mkEvent TIME_SHIFT (10 ^ 400)] 7 Demo.one None 1).
Proof.
  split.
  - apply (create_sequences_returns_iff Demo.plain demo_segments.1 demo_segments.2
             (parsed_events (Demo.input (Demo.draws Demo.half Demo.half 0)))
             7 Demo.one None 1);
      [vm_compute; reflexivity| |simpl; lia].
    split; [|done].
    repeat constructor; intros _; vm_compute; eexists; reflexivity.
  - intros H.
    destruct (create_sequences_returns_iff Demo.plain demo_segments.1 demo_segments.2
                [mkEvent TIME_SHIFT (10 ^ 400)] 7 Demo.one None 1) as [Hiff _];
      [vm_compute; reflexivity|].
    apply Hiff in H as (_ & [indices Hidx] & _).
    vm_compute in Hidx. discriminate Hidx.
Defined.

(** X24: the packing does not raise on a sane configuration. With the
    lengths the constructor sets, a reserved length that is not negative,
    a buffer of at least [special_token_len + 4] slots, both side-token
    indices below [special_token_len], [frame_seq_len] at least
    [-timing_random_offset], and at least one main token (tokenization
    gives two), [_pad_and_split_token_sequence] returns an example,
    whatever the lengths of the main, pre-context and guide tokens:
    every slice assignment has a source of the slice's length. *)
Theorem packing_never_raises (self : It.t) (sequence : Tokenized (list float))
    (d : Draws) :
  initialized self ->
  0 <= Args.special_token_len (It.args self) ->
  Args.special_token_len (It.args self) + 4 <= Args.tgt_seq_len (It.args self) ->
  Args.diff_token_index (It.args self) < Args.special_token_len (It.args self) ->
  Args.style_token_index (It.args self) < Args.special_token_len (It.args self) ->
  - Args.timing_random_offset (It.args self) <= It.frame_seq_len self ->
  (1 <= length (tokens sequence))%nat ->
  is_Some (pad_and_split_token_sequence self sequence d).
Proof. apply pad_and_split_some. Qed.

Lemma packing_never_raises_witness :
  is_Some (pad_and_split_token_sequence (demo_packer true) demo_tokenized
             (Demo.draws Demo.half Demo.half 0)).
Proof.
  apply (packing_never_raises (demo_packer true) demo_tokenized
           (Demo.draws Demo.half Demo.half 0));
    [apply init_initialized|simpl; lia..].
Defined.

(** X25: a window can only fail while its time shifts are renormalized.
    With the lengths the constructor sets, a reserved length that is not
    negative, a buffer of at least [special_token_len + 4] slots, both
    side-token indices below [special_token_len], and [frame_seq_len] and
    [timing_random_offset] not negative, the four stages return an example
    exactly when [_trim_time_shifts] returns; tokenization, frame padding
    and packing never raise. *)
Theorem window_fails_only_in_trim (self : It.t) (sequence : Sequence float) (d : Draws) :
  initialized self ->
  0 <= Args.special_token_len (It.args self) ->
  Args.special_token_len (It.args self) + 4 <= Args.tgt_seq_len (It.args self) ->
  Args.diff_token_index (It.args self) < Args.special_token_len (It.args self) ->
  Args.style_token_index (It.args self) < Args.special_token_len (It.args self) ->
  0 <= It.frame_seq_len self ->
  0 <= Args.timing_random_offset (It.args self) ->
  is_Some (pack_window self sequence d) <-> is_Some (trim_time_shifts sequence).
Proof. apply pack_window_some. Qed.

Lemma window_fails_only_in_trim_witness :
  is_Some (pack_window Demo.plain window_17 (Demo.draws Demo.half Demo.half 0)).
Proof.
  apply (window_fails_only_in_trim Demo.plain window_17
           (Demo.draws Demo.half Demo.half 0));
    [apply init_initialized|simpl; lia..|].
  vm_compute. by eexists.
Defined.

(** X26: a beatmap fails only where a window's time shifts are
    renormalized. With the lengths the constructor sets, a reserved length
    that is not negative, a buffer of at least [special_token_len + 4]
    slots, both side-token indices below [special_token_len], a
    [timing_random_offset] that is not negative, a positive [hop_length],
    a quotient [sample_rate / hop_length] within the doubles, a
    [src_seq_len] of at least two, and TIME_SHIFT values of the events and
    of the guide within the doubles, the frames are cut and the windows
    are made without an error, and the generator runs to its end exactly
    when [_trim_time_shifts] returns for every window. *)
Theorem beatmap_fails_only_in_trim (self : It.t) (input : BeatmapInput) :
  initialized self ->
  0 <= Args.special_token_len (It.args self) ->
  Args.special_token_len (It.args self) + 4 <= Args.tgt_seq_len (It.args self) ->
  Args.diff_token_index (It.args self) < Args.special_token_len (It.args self) ->
  Args.style_token_index (It.args self) < Args.special_token_len (It.args self) ->
  0 <= Args.timing_random_offset (It.args self) ->
  0 < Args.hop_length (It.args self) ->
  is_Some (Float64.int_truediv (Args.sample_rate (It.args self))
                               (Args.hop_length (It.args self))) ->
  2 <= Args.src_seq_len (It.args self) ->
  times_convert (parsed_events input) (guide input) ->
  exists audio_frames frame_times sequences,
    FrameSegmenter.get_frames self (audio_samples input) = Some (audio_frames, frame_times)
    /\ Windower.create_sequences self audio_frames frame_times (parsed_events input)
         (current_idx input) (star_rating input) (guide input) (raw_offset input)
       = Some sequences
    /\ (is_Some (get_next_beatmap self input).2
        <-> Forall (fun sequence => is_Some (trim_time_shifts sequence)) sequences).
Proof.
  intros Hinit Hstl Htgt Hd Hst Hjit Hhop Hrate Hsrc Hconv.
  pose proof Hinit as (Hfsl & _).
  destruct (FrameSegmenter.get_frames self (audio_samples input))
    as [[audio_frames frame_times]|] eqn:Hfr.
  2:{ apply SegmentFacts.get_frames_none_iff in Hfr as [?|Hnone]; [lia|].
      rewrite Hnone in Hrate. by destruct Hrate. }
  pose proof (get_frames_spec _ _ _ _ Hfr) as (_ & _ & _ & _ & Hlen).
  destruct (create_sequences_some self audio_frames frame_times (parsed_events input)
              (current_idx input) (star_rating input) (guide input) (raw_offset input))
    as [sequences Hs]; [done|done|lia|].
  exists audio_frames, frame_times, sequences. split; [done|]. split; [done|].
  unfold get_next_beatmap. rewrite Hfr. simpl. rewrite Hs.
  rewrite (run_sequences_some self _ Hinit Hstl Htgt Hd Hst ltac:(lia) Hjit self
             (same_config_refl self)).
  rewrite Forall_lookup. rewrite Forall_lookup.
  split.
  - intros H k sequence Hk.
    apply (H k (sequence, (per_window input k).1, (per_window input k).2)).
    rewrite list_lookup_imap, Hk. done.
  - intros H k w Hk. rewrite list_lookup_imap in Hk.
    destruct (sequences !! k) as [sequence|] eqn:Hq; simplify_eq/=.
    by apply (H k).
Qed.

Lemma beatmap_fails_only_in_trim_witness :
  is_Some (get_next_beatmap Demo.plain (Demo.input (Demo.draws Demo.half Demo.half 0))).2.
Proof.
  destruct (beatmap_fails_only_in_trim Demo.plain
              (Demo.input (Demo.draws Demo.half Demo.half 0)))
    as (audio_frames & frame_times & sequences & Hfr & Hs & Hiff);
    [apply init_initialized|simpl; lia..|vm_compute; eexists; reflexivity|simpl; lia| |].
  { split; [|done].
    repeat constructor; intros _; vm_compute; eexists; reflexivity. }
  apply Hiff.
  vm_compute in Hfr. injection Hfr as <- <-.
  vm_compute in Hs. injection Hs as <-.
  repeat constructor; vm_compute; by eexists.
Defined.

End TotalityProperties.

(** ** The choice of the guide beatmap *)

Section GuideProperties.
Context {K : Type} `{EqDecision K}.

Lemma other_beatmaps_length (names : list K) (beatmap_name : K) :
  NoDup names ->
  (length names <= S (length (GuideChoice.other_beatmaps names beatmap_name)))%nat.
Proof.
  unfold GuideChoice.other_beatmaps.
  induction 1 as [|k names Hk Hnd IH]; [simpl; lia|].
  rewrite filter_cons. destruct (decide (k <> beatmap_name)) as [Hne|Heq].
  - simpl. lia.
  - assert (k = beatmap_name) as -> by (destruct (decide (k = beatmap_name)); tauto).
    assert (filter (fun k => k <> beatmap_name) names = names) as ->; [|simpl; lia].
    clear IH Hnd. induction names as [|k' names IH]; [done|].
    rewrite filter_cons. apply not_elem_of_cons in Hk as [Hne Hk].
    rewrite decide_True by congruence. f_equal. by apply IH.
Qed.

(** X27: the guard of the callers makes the draw of the guide safe. For a
    track that is not skipped under [add_gd_context], that is with at
    least two beatmaps in its metadata (the keys of a dictionary, so
    distinct), [random.choice] has something to choose from whatever the
    beatmap's own name is, and the guide it returns is a beatmap of the
    track other than the beatmap itself. *)
Theorem guide_is_another_beatmap (names : list K) (beatmap_name : K) (raw : Z) :
  NoDup names ->
  GuideChoice.skips_track true names = false ->
  exists other,
    GuideChoice.other_name names beatmap_name raw = Some other
    /\ other <> beatmap_name
    /\ other ∈ names.
Proof.
  intros Hnd Hguard. unfold GuideChoice.skips_track in Hguard. simpl in Hguard.
  apply Z.leb_gt in Hguard.
  pose proof (other_beatmaps_length names beatmap_name Hnd) as Hlen.
  unfold GuideChoice.other_name, GuideChoice.choice.
  set (others := GuideChoice.other_beatmaps names beatmap_name) in *.
  destruct (decide (others = [])) as [Hnil|Hne].
  { rewrite Hnil in Hlen. simpl in Hlen. lia. }
  assert (0 < Z.of_nat (length others)) as Hpos.
  { destruct others; [done|]. simpl. lia. }
  pose proof (Z.mod_pos_bound raw (Z.of_nat (length others)) Hpos) as Hmod.
  destruct (lookup_lt_is_Some_2 others
              (Z.to_nat (raw `mod` Z.of_nat (length others)))) as [other Hother];
    [lia|].
  exists other. split; [done|].
  apply list_elem_of_lookup_2 in Hother.
  subst others. unfold GuideChoice.other_beatmaps in Hother.
  by apply list_elem_of_filter in Hother.
Qed.

End GuideProperties.

Lemma guide_is_another_beatmap_witness :
  exists other : nat,
    GuideChoice.other_name [1; 2; 3]%nat 2%nat 5 = Some other
    /\ other <> 2%nat
    /\ other ∈ [1; 2; 3]%nat.
Proof.
  apply (guide_is_another_beatmap [1; 2; 3]%nat 2%nat 5).
  - repeat constructor; rewrite ?elem_of_cons, ?elem_of_nil; lia.
  - reflexivity.
Defined.
